(** * Gateway control plane: terminal session manager and restart coordinator

    A shallow embedding of [src/gateway/server-methods/terminal.ts] (the
    terminal session manager) and of the restart coordinator exercised by
    [src/gateway/server-reload-handlers.test.ts].
    The origin check of [origin-check.ts], the pairing handlers of
    [src/gateway/server-methods/channel-pairing.ts] and the [doctor.run]
    handler that follows them in that file are embedded after them.

    The terminal handlers mutate one module-level slot ([activeSession]),
    session objects shared with timer and pseudo-terminal callbacks, the
    timer table of the event loop and the pseudo-terminal handles.  All of
    that is explicit state here; everything the handlers do to the outside
    (responses, broadcasts, kills, timer operations) is also appended to an
    effect trace, so that the order of effects can be stated. *)

From Stdlib Require Import QArith Qround ZArith Lia.
From stdpp Require Import gmap strings list fin_maps pretty.

Local Open Scope Z_scope.
Local Open Scope string_scope.
Local Open Scope list_scope.

(** ** JavaScript values *)

(** A JavaScript number.  [Math.floor] and [Math.max] are exact on IEEE
    doubles (no rounding happens), so a finite double is modelled by the
    rational it denotes; every finite double is such a rational.  The sign of
    zero is not tracked: the handlers only look at numbers through
    [Math.max(1, Math.floor(x))], which maps both zeros to 1. *)
Inductive number : Type :=
  | NaN : number
  | Infinity (negative : bool) : number
  | Fin (q : Q) : number.

(** The values a request parameter can hold. *)
Inductive JsValue : Type :=
  | JUndefined : JsValue
  | JNull : JsValue
  | JBool (b : bool) : JsValue
  | JNumber (n : number) : JsValue
  | JString (s : string) : JsValue
  | JObject : JsValue.

(** [typeof v === "number"] and [typeof v === "string"]. *)
Definition typeof_number (v : JsValue) : option number :=
  match v with JNumber n => Some n | _ => None end.

Definition typeof_string (v : JsValue) : option string :=
  match v with JString s => Some s | _ => None end.

(** JavaScript truthiness, as used by [!sessionId]. *)
Definition truthy (v : JsValue) : bool :=
  match v with
  | JUndefined | JNull => false
  | JBool b => b
  | JNumber NaN => false
  | JNumber (Infinity _) => true
  | JNumber (Fin q) => negb (Qeq_bool q 0)
  | JString s => negb (String.eqb s "")
  | JObject => true
  end.

(** [v === s] for a string [s] (strict equality: no coercion). *)
Definition strict_eq_string (v : JsValue) (s : string) : bool :=
  match v with JString s' => String.eqb s' s | _ => false end.

(** [Math.floor]. *)
Definition Math_floor (x : number) : number :=
  match x with
  | NaN => NaN
  | Infinity s => Infinity s
  | Fin q => Fin (inject_Z (Qfloor q))
  end.

(** [Math.max] of two arguments: NaN if either is NaN, else the larger. *)
Definition Math_max (x y : number) : number :=
  match x, y with
  | NaN, _ | _, NaN => NaN
  | Infinity false, _ | _, Infinity false => Infinity false
  | Infinity true, v | v, Infinity true => v
  | Fin a, Fin b => if Qle_bool a b then Fin b else Fin a
  end.

(** A number is a positive integer. *)
Definition is_pos_int (x : number) : Prop :=
  ∃ z : Z, 1 <= z ∧ x = Fin (inject_Z z).

(** A number is NaN or positive infinity: the numbers
    [Math.max(1, Math.floor(x))] passes through as they are. *)
Definition unbounded (x : number) : bool :=
  match x with
  | NaN | Infinity false => true
  | _ => false
  end.

(** Request parameters: an untyped object read field by field; a missing
    field reads as [undefined]. *)
Definition get (params : gmap string JsValue) (field : string) : JsValue :=
  default JUndefined (params !! field).

(** ** The state the handlers run against *)

(** [IDLE_TIMEOUT_MS = 10 * 60 * 1000]. *)
Definition IDLE_TIMEOUT_MS : Z := 10 * 60 * 1000.

(** A session object.  [pty] and [idleTimer] are handles: an index into the
    table of pseudo-terminals and a timer id.  Session objects live in a
    store and are referred to by their index there, because the timer and
    exit callbacks capture the object itself and read its [idleTimer] field
    after [resetIdleTimer] has overwritten it. *)
Record TerminalSession : Type := mkSession {
  id : string;
  pty : nat;
  idleTimer : nat;
}.

(** The closures handed to [setTimeout]: [() => {}] and
    [() => destroySession(session, context)]. *)
Inductive TimerCallback : Type :=
  | TcNoop : TimerCallback
  | TcDestroySession (session : nat) : TimerCallback.

Record Timer : Type := mkTimer {
  due : Z;
  callback : TimerCallback;
}.

(** A pseudo-terminal handle of the external library.  [killed] records a
    [kill()] by the manager, [exited] that the shell process has terminated
    and its exit event was delivered; [onData] and [onExit] hold the
    subscribed listeners, each one a closure over a session object. *)
Record IPty : Type := mkPty {
  pty_cols : number;
  pty_rows : number;
  killed : bool;
  exited : bool;
  written : list string;
  onData : list nat;
  onExit : list nat;
}.

(** Events published on the broadcast channel (always with
    [dropIfSlow: true]). *)
Inductive BroadcastEvent : Type :=
  | terminal_output (sessionId data : string) : BroadcastEvent
  | terminal_closed (sessionId : string) : BroadcastEvent.

Inductive ErrorCode : Type := UNAVAILABLE | INVALID_REQUEST.

(** The payload of a successful [terminal.open]. *)
Record OpenPayload : Type := mkOpenPayload {
  payload_sessionId : string;
  payload_cols : number;
  payload_rows : number;
}.

(** [respond(true, payload?)] and [respond(false, undefined, errorShape(code, message))]. *)
Inductive Response : Type :=
  | RespondOk (payload : option OpenPayload) : Response
  | RespondError (code : ErrorCode) (message : string) : Response.

(** What a handler does to its collaborators, in the order it does it. *)
Inductive Effect : Type :=
  | ESetTimeout (timer : nat) (at_ms : Z) : Effect
  | EClearTimeout (timer : nat) : Effect
  | ESpawn (handle : nat) (cols rows : number) : Effect
  | ESpawnFailed (cols rows : number) : Effect
  | EKill (handle : nat) (threw : bool) : Effect
  | EWrite (handle : nat) (data : string) : Effect
  | EResize (handle : nat) (cols rows : number) : Effect
  | EResizeFailed (handle : nat) (cols rows : number) : Effect
  | EBroadcast (event : BroadcastEvent) : Effect
  | ERespond (response : Response) : Effect.

Record World : Type := mkWorld {
  activeSession : option nat;          (* [let activeSession: TerminalSession | null] *)
  sessions : list TerminalSession;     (* the session objects ever created *)
  ptys : list IPty;                    (* the pseudo-terminals ever spawned *)
  timers : gmap nat Timer;             (* pending timers of the event loop *)
  nextTimer : nat;                     (* the next timer id *)
  now : Z;                             (* the clock, in milliseconds *)
  trace : list Effect;                 (* effects so far, oldest first *)
}.

Definition initial : World :=
  {| activeSession := None; sessions := []; ptys := []; timers := ∅;
     nextTimer := 0; now := 0; trace := [] |}.

Definition set_activeSession (a : option nat) (w : World) : World :=
  mkWorld a (sessions w) (ptys w) (timers w) (nextTimer w) (now w) (trace w).
Definition set_sessions (l : list TerminalSession) (w : World) : World :=
  mkWorld (activeSession w) l (ptys w) (timers w) (nextTimer w) (now w) (trace w).
Definition set_ptys (l : list IPty) (w : World) : World :=
  mkWorld (activeSession w) (sessions w) l (timers w) (nextTimer w) (now w) (trace w).
Definition set_timers (m : gmap nat Timer) (w : World) : World :=
  mkWorld (activeSession w) (sessions w) (ptys w) m (nextTimer w) (now w) (trace w).
Definition set_nextTimer (n : nat) (w : World) : World :=
  mkWorld (activeSession w) (sessions w) (ptys w) (timers w) n (now w) (trace w).
Definition set_now (t : Z) (w : World) : World :=
  mkWorld (activeSession w) (sessions w) (ptys w) (timers w) (nextTimer w) t (trace w).
Definition emit (e : Effect) (w : World) : World :=
  mkWorld (activeSession w) (sessions w) (ptys w) (timers w) (nextTimer w) (now w)
          (trace w ++ [e]).

(** ** A state monad for the handlers *)

(** A handler is a computation over the world; [exec] runs it for its final
    state. *)
Definition M (A : Type) : Type := World → A * World.

#[global] Instance M_ret : MRet M := λ A x w, (x, w).
#[global] Instance M_bind : MBind M := λ A B f m w, let '(x, w') := m w in f x w'.

Definition gets {A} (f : World → A) : M A := λ w, (f w, w).
Definition modify (f : World → World) : M unit := λ w, (tt, f w).
Definition exec {A} (m : M A) (w : World) : World := (m w).2.

(** The session object the slot points to, if any. *)
Definition active_object (w : World) : option TerminalSession :=
  r ← activeSession w; sessions w !! r.

(** ** The collaborators *)

(** [setTimeout(cb, ms)] registers a fresh timer due [ms] from now and
    returns its id; [clearTimeout(t)] removes it if it is still pending. *)
Definition setTimeout (cb : TimerCallback) (ms : Z) : M nat := λ w,
  let t := nextTimer w in
  (t, emit (ESetTimeout t (now w + ms))
        (set_nextTimer (S t)
          (set_timers (<[t := mkTimer (now w + ms) cb]> (timers w)) w))).

Definition clearTimeout (t : nat) : M unit :=
  modify (λ w, emit (EClearTimeout t) (set_timers (delete t (timers w)) w)).

Definition broadcast (ev : BroadcastEvent) : M unit := modify (emit (EBroadcast ev)).

Definition respond (r : Response) : M unit := modify (emit (ERespond r)).

Definition mark_killed (p : IPty) : IPty :=
  mkPty (pty_cols p) (pty_rows p) true (exited p) (written p) (onData p) (onExit p).

Definition mark_exited (p : IPty) : IPty :=
  mkPty (pty_cols p) (pty_rows p) (killed p) true (written p) (onData p) (onExit p).

(** [pty.kill()] inside [try { ... } catch { /* already dead */ }]: killing a
    process that has already exited throws, and the exception is swallowed. *)
Definition try_kill (h : nat) : M unit := λ w,
  match ptys w !! h with
  | Some p =>
      if exited p then (tt, emit (EKill h true) w)
      else (tt, emit (EKill h false) (set_ptys (<[h := mark_killed p]> (ptys w)) w))
  | None => (tt, emit (EKill h true) w)
  end.

(** [pty.write(data)], [pty.onData(listener)] and [pty.onExit(listener)],
    which the handlers call outside any [try]; the library does not throw
    there for a string and for a listener. *)
Definition pty_write (h : nat) (data : string) : M unit := λ w,
  (tt, emit (EWrite h data)
         (set_ptys (alter (λ p, mkPty (pty_cols p) (pty_rows p) (killed p) (exited p)
                                      (written p ++ [data]) (onData p) (onExit p)) h (ptys w)) w)).

(** The dimensions [pty.resize] of the library refuses:
    [cols <= 0 || rows <= 0 || isNaN(cols) || isNaN(rows) ||
     cols === Infinity || rows === Infinity]. *)
Definition not_positive (x : number) : bool :=
  match x with
  | NaN => true
  | Infinity _ => true
  | Fin q => Qle_bool q 0
  end.

Definition resize_refused (c r : number) : bool := not_positive c || not_positive r.

(** [pty.resize(cols, rows)].  For dimensions it refuses the library throws
    "resizing must be done using positive cols and rows" and leaves the
    pseudo-terminal as it is; [inr] is that exception.  [terminal.resize]
    calls it outside any [try]. *)
Definition pty_resize (h : nat) (c r : number) : M (unit + string) := λ w,
  if resize_refused c r then
    (inr "resizing must be done using positive cols and rows", emit (EResizeFailed h c r) w)
  else
    (inl tt, emit (EResize h c r)
               (set_ptys (alter (λ p, mkPty c r (killed p) (exited p)
                                            (written p) (onData p) (onExit p)) h (ptys w)) w)).

Definition pty_onData (h : nat) (session : nat) : M unit :=
  modify (λ w, set_ptys (alter (λ p, mkPty (pty_cols p) (pty_rows p) (killed p) (exited p)
                                      (written p) (onData p ++ [session]) (onExit p)) h (ptys w)) w).

Definition pty_onExit (h : nat) (session : nat) : M unit :=
  modify (λ w, set_ptys (alter (λ p, mkPty (pty_cols p) (pty_rows p) (killed p) (exited p)
                                      (written p) (onData p) (onExit p ++ [session])) h (ptys w)) w).

(** [spawn("/bin/bash", [], { cols, rows, ... })].  Whether the library
    throws is decided by the environment: [failure] is the thrown error,
    rendered as by the template literal. *)
Definition spawn (c r : number) (failure : option string) : M (nat + string) := λ w,
  match failure with
  | Some err => (inr err, emit (ESpawnFailed c r) w)
  | None =>
      let h := length (ptys w) in
      (inl h, emit (ESpawn h c r)
                (set_ptys (ptys w ++ [mkPty c r false false [] [] []]) w))
  end.

(** Creating the object literal [{ id, pty, idleTimer }]. *)
Definition new_session (s : TerminalSession) : M nat := λ w,
  (length (sessions w), set_sessions (sessions w ++ [s]) w).

(** [session.idleTimer = t]. *)
Definition write_idleTimer (session : nat) (t : nat) : M unit :=
  modify (λ w, set_sessions
                 (alter (λ s, mkSession (id s) (pty s) t) session (sessions w)) w).

(** Run [k] on the current fields of a session object.  References handed to
    callbacks always point into the store; on a dangling one nothing runs. *)
Definition with_session (session : nat) (k : TerminalSession → M unit) : M unit := λ w,
  match sessions w !! session with
  | Some s => k s w
  | None => (tt, w)
  end.

(** [activeSession?.id === x]. *)
Definition active_id_is (x : string) (w : World) : bool :=
  match active_object w with
  | Some a => String.eqb (id a) x
  | None => false
  end.

(** ** terminal.ts *)

Definition resetIdleTimer (session : nat) : M unit :=
  with_session session (λ s,
    clearTimeout (idleTimer s);;
    t ← setTimeout (TcDestroySession session) IDLE_TIMEOUT_MS;
    write_idleTimer session t).

Definition destroySession (session : nat) : M unit :=
  with_session session (λ s,
    clearTimeout (idleTimer s);;
    try_kill (pty s);;
    same ← gets (active_id_is (id s));
    (if same : bool then modify (set_activeSession None) else mret tt);;
    broadcast (terminal_closed (id s))).

(** [Math.max(1, Math.floor(v))] if [typeof v === "number"], else the default. *)
Definition dimension (v : JsValue) (dflt : Q) : number :=
  match typeof_number v with
  | Some n => Math_max (Fin 1) (Math_floor n)
  | None => Fin dflt
  end.

(** ["terminal.open"].  [uuid] is what [crypto.randomUUID()] returns and
    [spawn_failure] whether (and with what error) [spawn] throws. *)
Definition terminal_open (params : gmap string JsValue)
    (uuid : string) (spawn_failure : option string) : M unit :=
  a ← gets activeSession;
  (match a with Some r => destroySession r | None => mret tt end);;
  let cols := dimension (get params "cols") 80 in
  let rows := dimension (get params "rows") 24 in
  let sessionId := uuid in
  spawned ← spawn cols rows spawn_failure;
  match spawned with
  | inr err =>
      respond (RespondError UNAVAILABLE ("failed to spawn PTY: " +:+ err))
  | inl h =>
      t0 ← setTimeout TcNoop 0;
      session ← new_session (mkSession sessionId h t0);
      modify (set_activeSession (Some session));;
      resetIdleTimer session;;
      pty_onData h session;;
      pty_onExit h session;;
      respond (RespondOk (Some (mkOpenPayload sessionId cols rows)))
  end.

(** [!activeSession || activeSession.id !== sessionId], for the parameter as
    received; returns the active session and its object when they match. *)
Definition matching_session (sessionId : JsValue) (w : World)
    : option (nat * TerminalSession) :=
  match activeSession w with
  | Some r =>
      match sessions w !! r with
      | Some s => if strict_eq_string sessionId (id s) then Some (r, s) else None
      | None => None
      end
  | None => None
  end.

(** ["terminal.input"]. *)
Definition terminal_input (params : gmap string JsValue) : M unit :=
  let sessionId := get params "sessionId" in
  match truthy sessionId, typeof_string (get params "data") with
  | true, Some data =>
      m ← gets (matching_session sessionId);
      match m with
      | None => respond (RespondError INVALID_REQUEST "no active terminal session")
      | Some (r, s) =>
          pty_write (pty s) data;;
          resetIdleTimer r;;
          respond (RespondOk None)
      end
  | _, _ => respond (RespondError INVALID_REQUEST "sessionId and data required")
  end.

(** ["terminal.resize"].  An exception of [pty.resize] leaves the handler:
    neither [resetIdleTimer] nor [respond] runs. *)
Definition terminal_resize (params : gmap string JsValue) : M unit :=
  let sessionId := get params "sessionId" in
  match truthy sessionId, typeof_number (get params "cols"),
        typeof_number (get params "rows") with
  | true, Some cols, Some rows =>
      m ← gets (matching_session sessionId);
      match m with
      | None => respond (RespondError INVALID_REQUEST "no active terminal session")
      | Some (r, s) =>
          resized ← pty_resize (pty s) (Math_max (Fin 1) (Math_floor cols))
                                       (Math_max (Fin 1) (Math_floor rows));
          match resized with
          | inl _ =>
              resetIdleTimer r;;
              respond (RespondOk None)
          | inr _ => mret tt
          end
      end
  | _, _, _ =>
      respond (RespondError INVALID_REQUEST "sessionId, cols, and rows required")
  end.

(** ["terminal.close"]. *)
Definition terminal_close (params : gmap string JsValue) : M unit :=
  let sessionId := get params "sessionId" in
  if truthy sessionId then
    m ← gets (matching_session sessionId);
    match m with
    | None => respond (RespondOk None)
    | Some (r, _) =>
        destroySession r;;
        respond (RespondOk None)
    end
  else respond (RespondError INVALID_REQUEST "sessionId required").

(** [cleanupTerminalSessions()]. *)
Definition cleanupTerminalSessions : M unit :=
  a ← gets activeSession;
  match a with
  | Some r =>
      with_session r (λ s,
        clearTimeout (idleTimer s);;
        try_kill (pty s);;
        modify (set_activeSession None))
  | None => mret tt
  end.

(** The listener registered with [pty.onData]. *)
Definition on_data (session : nat) (data : string) : M unit :=
  with_session session (λ s, broadcast (terminal_output (id s) data)).

(** The listener registered with [pty.onExit]. *)
Definition on_exit (session : nat) : M unit :=
  with_session session (λ s,
    same ← gets (active_id_is (id s));
    if same : bool then
      clearTimeout (idleTimer s);;
      modify (set_activeSession None);;
      broadcast (terminal_closed (id s))
    else mret tt).

(** ** The event loop around the handlers *)

Definition run_callback (cb : TimerCallback) : M unit :=
  match cb with
  | TcNoop => mret tt
  | TcDestroySession session => destroySession session
  end.

(** Run every listener of a list, in subscription order. *)
Fixpoint run_listeners (f : nat → M unit) (l : list nat) : M unit :=
  match l with
  | [] => mret tt
  | r :: l' => f r;; run_listeners f l'
  end.

(** The pseudo-terminal produces a chunk of output. *)
Definition pty_data (h : nat) (data : string) : M unit := λ w,
  match ptys w !! h with
  | Some p => run_listeners (λ r, on_data r data) (onData p) w
  | None => (tt, w)
  end.

(** The shell process terminates: the handle is dead from now on and its
    exit listeners run. *)
Definition pty_exit (h : nat) : M unit := λ w,
  match ptys w !! h with
  | Some p =>
      run_listeners on_exit (onExit p)
        (set_ptys (<[h := mark_exited p]> (ptys w)) w)
  | None => (tt, w)
  end.

(** Timers fire in the order of their due time, then of their creation. *)
Definition fires_before (a b : nat * Timer) : bool :=
  ((due a.2 <? due b.2)%Z || ((due a.2 =? due b.2)%Z && (a.1 <=? b.1)%nat))%bool.

Fixpoint insert_timer (x : nat * Timer) (l : list (nat * Timer)) : list (nat * Timer) :=
  match l with
  | [] => [x]
  | y :: l' => if fires_before x y then x :: l else y :: insert_timer x l'
  end.

Definition due_timers (deadline : Z) (w : World) : list (nat * Timer) :=
  foldr insert_timer []
    (List.filter (λ x, (due x.2 <=? deadline)%Z) (map_to_list (timers w))).

(** Fire one timer, unless an earlier callback has cleared it. *)
Definition fire (x : nat * Timer) : M unit := λ w,
  match timers w !! x.1 with
  | Some t =>
      run_callback (callback t)
        (set_now (Z.max (now w) (due t)) (set_timers (delete x.1 (timers w)) w))
  | None => (tt, w)
  end.

Fixpoint fire_all (l : list (nat * Timer)) : M unit :=
  match l with
  | [] => mret tt
  | x :: l' => fire x;; fire_all l'
  end.

(** [ms] milliseconds pass with no request and no pseudo-terminal event:
    every timer that falls due in between fires.  No callback of this
    program sets a timer, so the timers due are those pending at the start. *)
Definition elapse (ms : Z) : M unit := λ w,
  let deadline := now w + ms in
  (tt, set_now deadline (exec (fire_all (due_timers deadline w)) w)).

(** What can happen to the manager. *)
Inductive Event : Type :=
  | Open (params : gmap string JsValue) (uuid : string) (spawn_failure : option string)
  | Input (params : gmap string JsValue)
  | Resize (params : gmap string JsValue)
  | Close (params : gmap string JsValue)
  | PtyData (h : nat) (data : string)
  | PtyExit (h : nat)
  | Elapse (ms : Z)
  | Cleanup.

Definition handle (e : Event) : M unit :=
  match e with
  | Open params uuid failure => terminal_open params uuid failure
  | Input params => terminal_input params
  | Resize params => terminal_resize params
  | Close params => terminal_close params
  | PtyData h data => pty_data h data
  | PtyExit h => pty_exit h
  | Elapse ms => elapse ms
  | Cleanup => cleanupTerminalSessions
  end.

(** Run a sequence of events, oldest first. *)
Definition run (es : list Event) (w : World) : World :=
  foldl (λ w e, exec (handle e) w) w es.

(** What the environment guarantees about an event: [crypto.randomUUID()]
    never repeats an id, and time does not run backwards. *)
Definition allowed (e : Event) (w : World) : bool :=
  match e with
  | Open _ uuid _ => forallb (λ s, negb (String.eqb (id s) uuid)) (sessions w)
  | Elapse ms => (0 <=? ms)%Z
  | _ => true
  end.

Fixpoint valid (es : list Event) (w : World) : bool :=
  match es with
  | [] => true
  | e :: es' => allowed e w && valid es' (exec (handle e) w)
  end.

(** Events that are no activity of a client: time passing and output of a
    pseudo-terminal.  [elapsed] is the time a run of them takes. *)
Definition quiet (e : Event) : bool :=
  match e with
  | Elapse ms => (0 <=? ms)%Z
  | PtyData _ _ => true
  | _ => false
  end.

Definition elapsed (es : list Event) : Z :=
  foldr (λ e t, match e with Elapse ms => ms + t | _ => t end) 0 es.

(** A sequence of [terminal.open] calls, each with its parameters, the id
    drawn for it and the outcome of its [spawn]. *)
Definition opens (calls : list (gmap string JsValue * string * option string)) : list Event :=
  map (λ c, Open c.1.1 c.1.2 c.2) calls.

(** ** Observations *)

(** A pseudo-terminal is live: not killed by the manager and not exited. *)
Definition live (p : IPty) : bool := negb (killed p) && negb (exited p).

(** No live pseudo-terminal other than the active session's. *)
Definition exclusive (w : World) : Prop :=
  ∀ h p, ptys w !! h = Some p → live p = true →
    ∃ r s, activeSession w = Some r ∧ sessions w !! r = Some s ∧ pty s = h.

(** The number of live pseudo-terminals. *)
Definition live_count (w : World) : nat := length (List.filter live (ptys w)).

(** An effect is the relay of a chunk of output. *)
Definition is_output (e : Effect) : Prop :=
  ∃ sid data, e = EBroadcast (terminal_output sid data).

(** The responses sent so far, oldest first. *)
Definition responses (w : World) : list Response :=
  omap (λ e, match e with ERespond r => Some r | _ => None end) (trace w).

(** The state [terminal.open] spawns in: a session that exists is destroyed
    first. *)
Definition after_destroy (w : World) : World :=
  match activeSession w with
  | Some r => exec (destroySession r) w
  | None => w
  end.

(** The state a successful [terminal.open] leaves, given the state it spawns
    in. *)
Definition opened (params : gmap string JsValue) (uuid : string) (w0 : World) : World :=
  let cols := dimension (get params "cols") 80 in
  let rows := dimension (get params "rows") 24 in
  let h := length (ptys w0) in
  let r := length (sessions w0) in
  let t0 := nextTimer w0 in
  {| activeSession := Some r;
     sessions := sessions w0 ++ [mkSession uuid h (S t0)];
     ptys := ptys w0 ++ [mkPty cols rows false false [] [r] [r]];
     timers := <[S t0 := mkTimer (now w0 + IDLE_TIMEOUT_MS) (TcDestroySession r)]>
                 (delete t0 (<[t0 := mkTimer (now w0 + 0) TcNoop]> (timers w0)));
     nextTimer := S (S t0);
     now := now w0;
     trace := trace w0 ++
       [ESpawn h cols rows; ESetTimeout t0 (now w0 + 0); EClearTimeout t0;
        ESetTimeout (S t0) (now w0 + IDLE_TIMEOUT_MS);
        ERespond (RespondOk (Some (mkOpenPayload uuid cols rows)))] |}.

(** The state [destroySession] leaves when it runs on the active session. *)
Definition destroyed (s : TerminalSession) (w : World) : World :=
  {| activeSession := None;
     sessions := sessions w;
     ptys := alter mark_killed (pty s) (ptys w);
     timers := delete (idleTimer s) (timers w);
     nextTimer := nextTimer w;
     now := now w;
     trace := trace w ++ [EClearTimeout (idleTimer s); EKill (pty s) false;
                          EBroadcast (terminal_closed (id s))] |}.

(** The state [resetIdleTimer] leaves when it runs on the active session. *)
Definition rearmed (r : nat) (s : TerminalSession) (w : World) : World :=
  {| activeSession := activeSession w;
     sessions := alter (λ s, mkSession (id s) (pty s) (nextTimer w)) r (sessions w);
     ptys := ptys w;
     timers := <[nextTimer w := mkTimer (now w + IDLE_TIMEOUT_MS) (TcDestroySession r)]>
                 (delete (idleTimer s) (timers w));
     nextTimer := S (nextTimer w);
     now := now w;
     trace := trace w ++ [EClearTimeout (idleTimer s);
                          ESetTimeout (nextTimer w) (now w + IDLE_TIMEOUT_MS)] |}.

(** ** Invariants of the manager *)

(** Session ids are pairwise distinct. *)
Definition distinct_ids (w : World) : Prop :=
  ∀ r r' s s', sessions w !! r = Some s → sessions w !! r' = Some s' →
    id s = id s' → r = r'.

(** The shape of every state the manager can be in: sessions and
    pseudo-terminals are created in pairs, each pseudo-terminal has exactly
    the two listeners of its session, a live pseudo-terminal belongs to the
    active session, and the only pending timer is the idle timer of the
    active session, due within the idle window. *)
Record inv (w : World) : Prop := mkInv {
  inv_len : length (sessions w) = length (ptys w);
  inv_pty : ∀ r s, sessions w !! r = Some s → pty s = r;
  inv_subs : ∀ h p, ptys w !! h = Some p → onData p = [h] ∧ onExit p = [h];
  inv_live : ∀ h p, ptys w !! h = Some p → live p = true → activeSession w = Some h;
  inv_active : ∀ r, activeSession w = Some r →
    ∃ s p d, sessions w !! r = Some s ∧ ptys w !! r = Some p ∧ live p = true ∧
      timers w = {[ idleTimer s := mkTimer d (TcDestroySession r) ]} ∧
      now w < d ∧ d <= now w + IDLE_TIMEOUT_MS;
  inv_idle : activeSession w = None → timers w = ∅;
}.

(** ** Requests addressed to a session *)

(** The parameter objects a client sends. *)
Definition input_params (sessionId data : string) : gmap string JsValue :=
  {[ "sessionId" := JString sessionId; "data" := JString data ]}.

Definition resize_params (sessionId : string) (cols rows : number) : gmap string JsValue :=
  {[ "sessionId" := JString sessionId; "cols" := JNumber cols; "rows" := JNumber rows ]}.

Definition close_params (sessionId : string) : gmap string JsValue :=
  {[ "sessionId" := JString sessionId ]}.

(** A run of [terminal.input] calls for one session id. *)
Definition inputs (sessionId : string) (chunks : list string) : list Event :=
  map (λ data, Input (input_params sessionId data)) chunks.

(** The events that are requests of a client. *)
Definition is_request (e : Event) : bool :=
  match e with
  | Open _ _ _ | Input _ | Resize _ | Close _ => true
  | _ => false
  end.

(** The event is a [terminal.resize] whose handler throws: it carries the id
    of the active session and numbers of which one is NaN or positive
    infinity, which [pty.resize] refuses. *)
Definition refused_resize (e : Event) (w : World) : bool :=
  match e with
  | Resize params =>
      match typeof_number (get params "cols"), typeof_number (get params "rows"),
            matching_session (get params "sessionId") w with
      | Some cols, Some rows, Some _ =>
          truthy (get params "sessionId") && (unbounded cols || unbounded rows)
      | _, _, _ => false
      end
  | _ => false
  end.

(** The [terminal.closed] broadcasts for one session id. *)
Definition is_closed (sessionId : string) (e : Effect) : bool :=
  match e with
  | EBroadcast (terminal_closed sid) => String.eqb sid sessionId
  | _ => false
  end.

Definition closed_count (sessionId : string) (w : World) : nat :=
  length (List.filter (is_closed sessionId) (trace w)).

(** [pty.write] appends to what a pseudo-terminal has received. *)
Definition receive (chunks : list string) (p : IPty) : IPty :=
  mkPty (pty_cols p) (pty_rows p) (killed p) (exited p)
        (written p ++ chunks) (onData p) (onExit p).

(** [terminal.closed] is broadcast at most once for every session, and not
    at all for the active one or for an id that no session has. *)
Definition closed_once (w : World) : Prop :=
  (∀ r s, sessions w !! r = Some s →
     (closed_count (id s) w ≤ 1)%nat ∧
     (activeSession w = Some r → closed_count (id s) w = 0%nat)) ∧
  (∀ sid, sid ∉ id <$> sessions w → closed_count sid w = 0%nat).

(** ** The restart coordinator *)

(** The reload plan, with the fields the test's [makePlan] gives it. *)
Record GatewayReloadPlan : Type := mkPlan {
  restartGateway : bool;
  restartReasons : list string;
  changedPaths : list string;
  reloadHooks : bool;
  restartHeartbeat : bool;
  restartCron : bool;
  restartBrowserControl : bool;
  restartGmailWatcher : bool;
  restartChannels : gset string;
  hotReasons : list string;
  noopPaths : list string;
}.

(** The configuration snapshot, as the test's [makeConfig] builds it:
    [{ commands: { restart } }].  The coordinator passes it through. *)
Record Config : Type := mkConfig {
  commands_restart : bool;
}.

(** The coordinator's state: the Deferred Restart State, and the self-restart
    signals emitted so far (oldest first), each with the plan and the
    configuration it was emitted for. *)
Record Coordinator : Type := mkCoordinator {
  deferred : option (GatewayReloadPlan * Config);
  signals : list (GatewayReloadPlan * Config);
}.

Definition fresh_coordinator : Coordinator :=
  {| deferred := None; signals := [] |}.

(** Modelled from the spec: [server-reload-handlers.ts], which defines
    [requestGatewayRestart], is not among the sources; only its test is.
    Section 4.1: if [plan.restartGateway] is false, no-op; if true, query the
    conflict gate; if not active, emit the self-restart signal immediately;
    if active, store [(plan, config)] as the Deferred Restart State,
    overwriting any held value, and return without signalling.
    [isSetupWizardActive] is what the gate answers during the call. *)
Definition requestGatewayRestart (plan : GatewayReloadPlan) (config : Config)
    (isSetupWizardActive : bool) (c : Coordinator) : Coordinator :=
  if restartGateway plan then
    if isSetupWizardActive then
      {| deferred := Some (plan, config); signals := signals c |}
    else
      {| deferred := deferred c; signals := signals c ++ [(plan, config)] |}
  else c.

(** Modelled from the spec: [server-reload-handlers.ts], which defines
    [flushDeferredRestart], is not among the sources.  Section 4.1: if the
    Deferred Restart State is empty, no-op; otherwise clear the state and
    emit the self-restart signal exactly once using the held plan and
    config.  Section 5: flush performs no re-check of the gate. *)
Definition flushDeferredRestart (c : Coordinator) : Coordinator :=
  match deferred c with
  | None => c
  | Some held => {| deferred := None; signals := signals c ++ [held] |}
  end.

(** A run of requests made while the gate is active. *)
Definition request_all_deferred (reqs : list (GatewayReloadPlan * Config))
    (c : Coordinator) : Coordinator :=
  foldl (λ c r, requestGatewayRestart r.1 r.2 true c) c reqs.

(** The plan and configuration of the test file. *)
Definition makePlan (reasons : list string) : GatewayReloadPlan :=
  {| restartGateway := true; restartReasons := reasons;
     changedPaths := ["gateway.mode"]; reloadHooks := false;
     restartHeartbeat := false; restartCron := false;
     restartBrowserControl := false; restartGmailWatcher := false;
     restartChannels := ∅; hotReasons := []; noopPaths := [] |}.

Definition makeConfig : Config := {| commands_restart := true |}.

(** ** Allowed origins ([origin-check.ts]) *)

(** Strings are read as sequences of UTF-16 code units below 256, one per
    character.  Among those, [String.prototype.trim] strips the white space
    and line terminators U+0009 to U+000D, U+0020 and U+00A0. *)
Definition is_whitespace (c : Ascii.ascii) : bool :=
  let n := Ascii.nat_of_ascii c in
  ((9 <=? n)%nat && (n <=? 13)%nat) || (n =? 32)%nat || (n =? 160)%nat.

Fixpoint trimStart (s : string) : string :=
  match s with
  | EmptyString => EmptyString
  | String c s' => if is_whitespace c then trimStart s' else s
  end.

Fixpoint trimEnd (s : string) : string :=
  match s with
  | EmptyString => EmptyString
  | String c s' =>
      match trimEnd s' with
      | EmptyString => if is_whitespace c then EmptyString else String c EmptyString
      | t => String c t
      end
  end.

(** [s.trim()]. *)
Definition trim (s : string) : string := trimEnd (trimStart s).

(** [s.split(sep)] for a one-character separator: the pieces between the
    separators, empty ones included; the empty string gives one empty piece. *)
Fixpoint split (sep : Ascii.ascii) (s : string) : list string :=
  match s with
  | EmptyString => [EmptyString]
  | String c s' =>
      if Ascii.eqb c sep then EmptyString :: split sep s'
      else match split sep s' with
           | piece :: rest => String c piece :: rest
           | [] => [String c EmptyString]
           end
  end.

(** [Boolean(s)] for a string: it is not empty. *)
Definition nonempty (s : string) : bool := negb (String.eqb s "").

(** [array.includes(x)] on strings. *)
Definition includes (l : list string) (x : string) : bool := existsb (String.eqb x) l.

(** [[...new Set(l)]]: the elements of [l] in the order of their first
    occurrence. *)
Definition Set_add (seen : list string) (x : string) : list string :=
  if includes seen x then seen else seen ++ [x].

Definition Set_elements (l : list string) : list string := foldl Set_add [] l.

(** The separator [","]. *)
Definition comma : Ascii.ascii := Ascii.ascii_of_nat 44.

(** The origins [OPENCLAW_ALLOWED_ORIGINS] contributes: none when the
    variable is unset or empty, else its comma-separated entries, trimmed,
    the empty ones dropped. *)
Definition envOrigins (envRaw : option string) : list string :=
  match envRaw with
  | Some raw =>
      if nonempty raw then List.filter nonempty (map trim (split comma raw)) else []
  | None => []
  end.

(** [resolveEffectiveAllowedOrigins(configOrigins, env)], [envRaw] being
    [env.OPENCLAW_ALLOWED_ORIGINS]. *)
Definition resolveEffectiveAllowedOrigins (configOrigins : option (list string))
    (envRaw : option string) : list string :=
  let merged := default [] configOrigins ++ envOrigins envRaw in
  Set_elements merged.

(** A character occurs in a string. *)
Fixpoint occurs (c : Ascii.ascii) (s : string) : bool :=
  match s with
  | EmptyString => false
  | String d s' => Ascii.eqb d c || occurs c s'
  end.

(** [{ ok: true } | { ok: false; reason }]. *)
Inductive OriginCheckResult : Type :=
  | OriginOk : OriginCheckResult
  | OriginRejected (reason : string) : OriginCheckResult.

(** What [parseOrigin] returns when it does not return [null]. *)
Record ParsedOrigin : Type := mkParsedOrigin {
  parsed_origin : string;
  parsed_host : string;
  parsed_hostname : string;
}.

(** The parts of the platform and of [net.js] that [origin-check.ts] uses
    and that are not among the sources: [new URL(s)] with its [origin],
    [host] and [hostname] ([None] when the constructor throws),
    [String.prototype.toLowerCase] and the three helpers of [net.js]. *)
Record Platform : Type := mkPlatform {
  URL : string → option ParsedOrigin;
  toLowerCase : string → string;
  normalizeHostHeader : option string → string;
  resolveHostName : string → string;
  isLoopbackHost : string → bool;
}.

Definition parseOrigin (pf : Platform) (originRaw : option string) : option ParsedOrigin :=
  let trimmed := trim (default "" originRaw) in
  if negb (nonempty trimmed) || String.eqb trimmed "null" then None
  else match URL pf trimmed with
       | Some url =>
           Some (mkParsedOrigin (toLowerCase pf (parsed_origin url))
                                (toLowerCase pf (parsed_host url))
                                (toLowerCase pf (parsed_hostname url)))
       | None => None
       end.

Definition checkBrowserOrigin (pf : Platform) (requestHost origin : option string)
    (allowedOrigins : option (list string)) : OriginCheckResult :=
  match parseOrigin pf origin with
  | None => OriginRejected "origin missing or invalid"
  | Some parsedOrigin =>
      let allowlist :=
        List.filter nonempty
          (map (λ value, toLowerCase pf (trim value)) (default [] allowedOrigins)) in
      if includes allowlist (parsed_origin parsedOrigin) then OriginOk
      else
        let requestHost := normalizeHostHeader pf requestHost in
        if nonempty requestHost && String.eqb (parsed_host parsedOrigin) requestHost
        then OriginOk
        else
          let requestHostname := resolveHostName pf requestHost in
          if isLoopbackHost pf (parsed_hostname parsedOrigin) && isLoopbackHost pf requestHostname
          then OriginOk
          else OriginRejected "origin not allowed"
  end.

(** A stand-in for the platform in examples: every string is a URL that is
    its own origin, host and host name, an absent host header is the empty
    string, and nothing is lower-cased, resolved or loopback. *)
Definition example_platform : Platform :=
  mkPlatform (λ s, Some (mkParsedOrigin s s s)) (λ s, s) (default "") (λ s, s) (λ _, false).

(** ** Channel pairing ([channel-pairing.ts]) *)

(** What an awaited call or a call that can throw comes back with. *)
Inductive Outcome (A : Type) : Type :=
  | Resolved (value : A) : Outcome A
  | Rejected (err : string) : Outcome A.
Arguments Resolved {A} value.
Arguments Rejected {A} err.

Module Pairing.

Section Handlers.

(** The list of pending requests of a channel and the loaded configuration
    are handed on without being looked at. *)
Context {Requests Cfg : Type}.

(** [respond(true, payload)] and [respond(false, undefined, errorShape(code, message))]. *)
Inductive Reply : Type :=
  | ReplyError (code : ErrorCode) (message : string) : Reply
  | ReplyList (channel : string) (requests : Requests) : Reply
  | ReplyApproved (channel id : string) : Reply.

(** What a handler does to the pairing store, the configuration, the channel
    plugins and its caller, in the order it does it.  [CNotify] records
    whether the promise of [notifyPairingApproved] was rejected. *)
Inductive Call : Type :=
  | CListRequests (channel : string) : Call
  | CApprove (channel code : string) : Call
  | CLoadConfig : Call
  | CNotify (channelId id : string) (cfg : Cfg) (rejected : bool) : Call
  | CRespond (reply : Reply) : Call.

(** The collaborators of [channel-pairing.ts], none of which is among the
    sources.  [normalizeChannelId] returns a channel id or [null];
    [approveChannelPairingCode] resolves to the approved request, of which
    only the [id] is read, or to [null]; [notifyPairingApproved] is an
    asynchronous function: it fails by rejecting its promise. *)
Record Env : Type := mkEnv {
  normalizeChannelId : string → option string;
  listPairingChannels : list string;
  listChannelPairingRequests : string → Outcome Requests;
  approveChannelPairingCode : string → string → Outcome (option string);
  loadConfig : Outcome Cfg;
  notifyPairingApproved : string → string → Cfg → Outcome unit;
}.

(** A run of a handler: the calls it made, and the error its promise was
    rejected with, if it was. *)
Definition Run : Type := list Call * option string.

(** [typeof rawChannel === "string" ? normalizeChannelId(rawChannel) : null],
    followed by the test [!channelId], which an empty id fails as [null]
    does. *)
Definition resolve_channel (env : Env) (rawChannel : JsValue) : option string :=
  match typeof_string rawChannel with
  | Some s =>
      match normalizeChannelId env s with
      | Some channelId => if nonempty channelId then Some channelId else None
      | None => None
      end
  | None => None
  end.

Definition channel_required : Call :=
  CRespond (ReplyError INVALID_REQUEST "channel required").

Definition channel_pairing_list (env : Env) (params : gmap string JsValue) : Run :=
  let rawChannel := get params "channel" in
  match resolve_channel env rawChannel with
  | None => ([channel_required], None)
  | Some channelId =>
      let channels := listPairingChannels env in
      if negb (includes channels channelId) then
        ([CRespond (ReplyError INVALID_REQUEST
                      ("channel " +:+ channelId +:+ " does not support pairing"))], None)
      else
        match listChannelPairingRequests env channelId with
        | Rejected err => ([CListRequests channelId], Some err)
        | Resolved requests =>
            ([CListRequests channelId; CRespond (ReplyList channelId requests)], None)
        end
  end.

(** [v === true]. *)
Definition strict_eq_true (v : JsValue) : bool :=
  match v with JBool true => true | _ => false end.

Definition channel_pairing_approve (env : Env) (params : gmap string JsValue) : Run :=
  let rawChannel := get params "channel" in
  let rawCode := get params "code" in
  let notify := strict_eq_true (get params "notify") in
  match resolve_channel env rawChannel with
  | None => ([channel_required], None)
  | Some channelId =>
      let code := match typeof_string rawCode with Some s => trim s | None => "" end in
      if negb (nonempty code) then
        ([CRespond (ReplyError INVALID_REQUEST "code required")], None)
      else
        match approveChannelPairingCode env channelId code with
        | Rejected err => ([CApprove channelId code], Some err)
        | Resolved None =>
            ([CApprove channelId code;
              CRespond (ReplyError INVALID_REQUEST
                          ("no pending pairing request for code: " +:+ code))], None)
        | Resolved (Some id) =>
            let approved := CRespond (ReplyApproved channelId id) in
            if notify then
              match loadConfig env with
              | Rejected err => ([CApprove channelId code; CLoadConfig], Some err)
              | Resolved cfg =>
                  let rejected :=
                    match notifyPairingApproved env channelId id cfg with
                    | Rejected _ => true
                    | Resolved _ => false
                    end in
                  ([CApprove channelId code; CLoadConfig;
                    CNotify channelId id cfg rejected; approved], None)
              end
            else ([CApprove channelId code; approved], None)
        end
  end.

(** The replies among the calls of a run. *)
Definition replies (calls : list Call) : list Reply :=
  omap (λ c, match c with CRespond r => Some r | _ => None end) calls.

(** The calls of a run that reach the pairing store. *)
Definition store_calls (calls : list Call) : list Call :=
  List.filter (λ c, match c with CListRequests _ | CApprove _ _ => true | _ => false end) calls.

(** The notifications among the calls of a run. *)
Definition notifications (calls : list Call) : list Call :=
  List.filter (λ c, match c with CNotify _ _ _ _ => true | _ => false end) calls.

End Handlers.

Arguments Reply : clear implicits.
Arguments Call : clear implicits.
Arguments Env : clear implicits.
Arguments Run : clear implicits.

(** Collaborators for examples: every channel id is its own normal form,
    only ["telegram"] supports pairing, no request is pending, and the
    approval, the loading of the configuration and the notification come out
    as given. *)
Definition example_env (approval : Outcome (option string)) (config notification : Outcome unit)
    : Env (list string) unit :=
  mkEnv (λ s, Some s) ["telegram"] (λ _, Resolved []) (λ _ _, approval) config
        (λ _ _ _, notification).

End Pairing.

(** ** Doctor ([doctor.run], the second file of [channel-pairing.ts]) *)

Module Doctor.

Inductive CheckStatus : Type := pass | warn | fail | skip.

(** A [DoctorCheck]; an absent [message] or [detail] is [None]. *)
Record DoctorCheck : Type := mkCheck {
  name : string;
  status : CheckStatus;
  message : option string;
  detail : option string;
}.

(** [...(text ? { text } : {})]: a property is set only for a string that is
    not empty. *)
Definition present (text : option string) : option string :=
  match text with
  | Some s => if nonempty s then Some s else None
  | None => None
  end.

Definition check (name : string) (status : CheckStatus) (message detail : option string)
    : DoctorCheck :=
  mkCheck name status (present message) (present detail).

(** What [fs.statSync] returns, as far as it is read. *)
Record Stats : Type := mkStats {
  isDirectory : bool;
  mode : Z;
}.

(** The file system at the time of the call.  [statSync] is [None] and
    [accessSync_W_OK] is [false] where the call throws. *)
Record Fs : Type := mkFs {
  existsSync : string → bool;
  statSync : string → option Stats;
  accessSync_W_OK : string → bool;
}.

Definition existsDir (fs : Fs) (dir : string) : bool :=
  match (if existsSync fs dir
         then option_map isDirectory (statSync fs dir)
         else Some false) with
  | Some b => b
  | None => false
  end.

Definition canWriteDir (fs : Fs) (dir : string) : bool := accessSync_W_OK fs dir.

(** The configuration, as far as [doctor.run] reads it itself:
    [cfg.gateway?.mode], the keys of [cfg.hooks] when it is an object, and
    [cfg.plugins?.entries?.memory?.enabled]. *)
Record Config : Type := mkConfig {
  gateway_mode : option string;
  hooks : option (list string);
  memory_enabled : option bool;
}.

(** The result of [resolveGatewayAuth], as far as it is read. *)
Record ResolvedGatewayAuth : Type := mkAuth {
  auth_mode : string;
  token : option string;
  password : option string;
}.

(** The health snapshot: [channelOrder], and for each channel id whether
    [channels[id]?.configured] is a boolean, and which. *)
Record HealthSummary : Type := mkHealth {
  channelOrder : option (list string);
  channels : gmap string bool;
}.

(** The collaborators of [doctor.run], none of which is among the sources.
    A thrown value is given by its [String(err)]; [resolveStateDir] stands
    for [resolveStateDir(process.env, os.homedir)], [resolveStorePath] for
    the store path of the default agent, [resolveAgentWorkspaceDir] for the
    workspace of the default agent; the path functions do not throw. *)
Record Env : Type := mkEnv {
  loadConfig : Outcome Config;
  resolveGatewayAuth : Config → Outcome ResolvedGatewayAuth;
  resolveStateDir : string;
  fs : Fs;
  platform : string;
  resolveStorePath : Config → string;
  refreshHealthSnapshot : Outcome HealthSummary;
  formatError : string → string;
  resolveAgentWorkspaceDir : Config → string;
}.

(** The payload of [respond(true, { ok, checks })]. *)
Record Report : Type := mkReport {
  ok : bool;
  checks : list DoctorCheck;
}.

(** [!!text?.trim()]. *)
Definition has_text (text : option string) : bool :=
  match text with Some s => nonempty (trim s) | None => false end.

(** The double-quote character. *)
Definition dquote : string := String (Ascii.ascii_of_nat 34) EmptyString.

(** [array.join(sep)]. *)
Fixpoint join (sep : string) (l : list string) : string :=
  match l with
  | [] => ""
  | [x] => x
  | x :: rest => x +:+ sep +:+ join sep rest
  end.

(** [`${n}`] for a length. *)
Definition String_of_length (n : nat) : string := pretty n.

Definition gateway_mode_check (cfg : Config) : DoctorCheck :=
  match present (gateway_mode cfg) with
  | None => check "gateway-mode" fail (Some "gateway.mode is not set") None
  | Some mode => check "gateway-mode" pass (Some ("Mode: " +:+ mode)) None
  end.

Definition gateway_auth_check (env : Env) (cfg : Config) : DoctorCheck :=
  match resolveGatewayAuth env cfg with
  | Resolved auth =>
      let hasSecret :=
        (String.eqb (auth_mode auth) "token" && has_text (token auth)) ||
        (String.eqb (auth_mode auth) "password" && has_text (password auth)) in
      if hasSecret then
        check "gateway-auth" pass (Some ("Auth mode: " +:+ auth_mode auth)) None
      else
        check "gateway-auth" warn
          (Some ("Auth mode " +:+ dquote +:+ auth_mode auth +:+ dquote +:+
                 " has no credential configured")) None
  | Rejected err =>
      check "gateway-auth" fail (Some "Failed to resolve auth") (Some err)
  end.

Definition state_dir_check (env : Env) : DoctorCheck :=
  let stateDir := resolveStateDir env in
  if negb (existsDir (fs env) stateDir) then
    check "state-dir" fail (Some ("State directory missing: " +:+ stateDir)) None
  else if negb (canWriteDir (fs env) stateDir) then
    check "state-dir" warn (Some ("State directory not writable: " +:+ stateDir)) None
  else check "state-dir" pass (Some stateDir) None.

Definition state_permissions_check (env : Env) : DoctorCheck :=
  let stateDir := resolveStateDir env in
  if negb (String.eqb (platform env) "win32") then
    match statSync (fs env) stateDir with
    | Some stat =>
        if negb (Z.land (mode stat) 63 =? 0)%Z then
          check "state-permissions" warn
            (Some "State directory permissions too open (recommend 700)") None
        else check "state-permissions" pass (Some "Permissions OK") None
    | None => check "state-permissions" skip (Some "Could not check permissions") None
    end
  else check "state-permissions" skip (Some "Skipped on Windows") None.

Definition session_store_check (env : Env) (cfg : Config) : DoctorCheck :=
  let storePath := resolveStorePath env cfg in
  if existsSync (fs env) storePath then check "session-store" pass (Some storePath) None
  else check "session-store" warn (Some ("Session store not found: " +:+ storePath)) None.

Definition channels_check (env : Env) : DoctorCheck :=
  match refreshHealthSnapshot env with
  | Resolved snap =>
      let channelCount := length (default [] (channelOrder snap)) in
      let configuredChannels :=
        option_map (List.filter (λ id, bool_decide (channels snap !! id = Some true)))
                   (channelOrder snap) in
      check "channels" pass
        (Some (String_of_length (length (default [] configuredChannels)) +:+ "/" +:+
               String_of_length channelCount +:+ " channels configured")) None
  | Rejected err =>
      check "channels" fail (Some "Health snapshot failed") (Some (formatError env err))
  end.

Definition hooks_check (cfg : Config) : DoctorCheck :=
  let none := check "hooks" skip (Some "No hooks configured") None in
  match hooks cfg with
  | Some hookKeys =>
      if (0 <? length hookKeys)%nat then
        check "hooks" pass
          (Some (String_of_length (length hookKeys) +:+ " hook(s): " +:+ join ", " hookKeys))
          None
      else none
  | None => none
  end.

Definition workspace_check (env : Env) (cfg : Config) : DoctorCheck :=
  let workspaceDir := resolveAgentWorkspaceDir env cfg in
  if existsDir (fs env) workspaceDir then
    if canWriteDir (fs env) workspaceDir then check "workspace" pass (Some workspaceDir) None
    else check "workspace" warn (Some ("Workspace not writable: " +:+ workspaceDir)) None
  else check "workspace" warn (Some ("Workspace directory missing: " +:+ workspaceDir)) None.

Definition memory_plugin_check (cfg : Config) : DoctorCheck :=
  match memory_enabled cfg with
  | Some true => check "memory-plugin" pass (Some "Enabled") None
  | Some false => check "memory-plugin" skip (Some "Disabled") None
  | None => check "memory-plugin" skip (Some "Not configured") None
  end.

(** [checks.every((c) => c.status !== "fail")]. *)
Definition no_failure (checks : list DoctorCheck) : bool :=
  forallb (λ c, match status c with fail => false | _ => true end) checks.

(** [doctor.run]: the payload it responds with; the response is always a
    successful one. *)
Definition doctor_run (env : Env) : Report :=
  match loadConfig env with
  | Rejected err =>
      mkReport false [check "config" fail (Some "Failed to load config") (Some err)]
  | Resolved cfg =>
      let checks :=
        [gateway_mode_check cfg; gateway_auth_check env cfg; state_dir_check env;
         state_permissions_check env; session_store_check env cfg; channels_check env;
         hooks_check cfg; workspace_check env cfg; memory_plugin_check cfg] in
      mkReport (no_failure checks) checks
  end.

(** The check of a given name in a report. *)
Definition find_check (name' : string) (r : Report) : option DoctorCheck :=
  List.find (λ c, String.eqb (name c) name') (checks r).

(** A machine for examples: a state directory [/home/u/.openclaw] with the
    given permission bits, nothing else on disk, a token configured, no
    channels; the configuration loads when [config] says so. *)
Definition example_fs (bits : Z) : Fs :=
  mkFs (λ path, String.eqb path "/home/u/.openclaw")
       (λ path, if String.eqb path "/home/u/.openclaw" then Some (mkStats true bits) else None)
       (λ path, String.eqb path "/home/u/.openclaw").

Definition example_env (config : Outcome Config) (bits : Z) (os : string) : Env :=
  mkEnv config (λ _, Resolved (mkAuth "token" (Some "secret") None))
        "/home/u/.openclaw" (example_fs bits) os
        (λ _, "/home/u/.openclaw/sessions.json")
        (Resolved (mkHealth (Some []) ∅)) (λ err, err)
        (λ _, "/home/u/workspace").

End Doctor.

(** * Proofs *)

(** ** Numbers *)

Lemma clamp_Fin (q : Q) :
  Math_max (Fin 1) (Math_floor (Fin q)) = Fin (inject_Z (Z.max 1 (Qfloor q))).
Proof.
  cbn [Math_floor Math_max]. unfold Qle_bool, inject_Z. cbn [Qnum Qden].
  rewrite !Z.mul_1_r.
  destruct (Z.leb_spec 1 (Qfloor q)) as [H|H].
  - by rewrite Z.max_r.
  - rewrite Z.max_l; [done | lia].
Qed.


Lemma not_positive_pos_int (x : number) : is_pos_int x → not_positive x = false.
Proof.
  intros (z & Hz & ->). cbn [not_positive]. unfold Qle_bool, inject_Z. cbn [Qnum Qden].
  apply Z.leb_gt. lia.
Qed.

(** After the clamp the library refuses exactly NaN and positive infinity. *)
Lemma not_positive_clamp (x : number) :
  not_positive (Math_max (Fin 1) (Math_floor x)) = unbounded x.
Proof.
  destruct x as [|[]|q]; try done. rewrite clamp_Fin.
  apply not_positive_pos_int. exists (Z.max 1 (Qfloor q)). split; [lia|done].
Qed.

Lemma resize_refused_clamp (cols rows : number) :
  resize_refused (Math_max (Fin 1) (Math_floor cols)) (Math_max (Fin 1) (Math_floor rows)) =
    unbounded cols || unbounded rows.
Proof. unfold resize_refused. by rewrite !not_positive_clamp. Qed.

(** ** Lists used as stores *)

Lemma lookup_snoc {A} (l : list A) (x : A) : (l ++ [x]) !! length l = Some x.
Proof. by apply list_lookup_middle. Qed.

Lemma alter_snoc {A} (f : A → A) (l : list A) (x : A) :
  alter f (length l) (l ++ [x]) = l ++ [f x].
Proof.
  replace (length l) with (length l + 0)%nat by lia.
  by rewrite alter_app_r.
Qed.

Lemma insert_as_alter {A} (f : A → A) (l : list A) (i : nat) (x : A) :
  l !! i = Some x → <[i := f x]> l = alter f i l.
Proof.
  revert i. induction l as [|y l IH]; intros [|i] H; simplify_eq/=; [done|].
  f_equal. by apply IH.
Qed.

(** ** Running the handlers *)

Ltac msimpl :=
  lazy beta iota zeta delta
    [terminal_open terminal_input terminal_resize terminal_close
     cleanupTerminalSessions on_exit on_data run_callback
     resetIdleTimer destroySession with_session exec mbind M_bind mret M_ret
     gets modify respond broadcast clearTimeout setTimeout write_idleTimer
     new_session pty_onData pty_onExit pty_write pty_resize spawn try_kill
     emit set_activeSession set_sessions set_ptys set_timers set_nextTimer set_now
     fst snd activeSession sessions ptys timers nextTimer now trace
     id pty idleTimer] in *.

Lemma active_id_is_self (w : World) (r : nat) (s : TerminalSession) :
  activeSession w = Some r → sessions w !! r = Some s → active_id_is (id s) w = true.
Proof.
  intros Ha Hs. unfold active_id_is, active_object. rewrite Ha. cbn. rewrite Hs.
  apply String.eqb_refl.
Qed.

Lemma destroySession_active (w : World) (r : nat) (s : TerminalSession) (p : IPty) :
  activeSession w = Some r → sessions w !! r = Some s →
  ptys w !! pty s = Some p → exited p = false →
  exec (destroySession r) w = destroyed s w.
Proof.
  intros Ha Hs Hp He.
  pose proof (active_id_is_self w r s Ha Hs) as Hid.
  unfold destroyed. rewrite <- (insert_as_alter _ _ _ _ Hp).
  destruct w as [a ss ps tm nt nw tr]. msimpl. rewrite Hs. msimpl. rewrite Hp, He.
  msimpl.
  unfold active_id_is, active_object in *. msimpl. rewrite Ha in *. cbn in *.
  rewrite Hs in *. rewrite Hid. cbn. rewrite <- !app_assoc. reflexivity.
Qed.

Lemma resetIdleTimer_spec (w : World) (r : nat) (s : TerminalSession) :
  sessions w !! r = Some s → exec (resetIdleTimer r) w = rearmed r s w.
Proof.
  intros Hs. unfold rearmed. destruct w as [a ss ps tm nt nw tr]. msimpl. rewrite Hs. msimpl.
  rewrite <- !app_assoc. reflexivity.
Qed.

Lemma terminal_open_failure params uuid err w :
  exec (terminal_open params uuid (Some err)) w =
  emit (ERespond (RespondError UNAVAILABLE ("failed to spawn PTY: " +:+ err)))
    (emit (ESpawnFailed (dimension (get params "cols") 80)
                        (dimension (get params "rows") 24))
       (after_destroy w)).
Proof.
  unfold terminal_open, after_destroy, exec, mbind, M_bind, gets. cbn.
  destruct (activeSession w) as [r|]; cbn; [|done].
  by destruct (destroySession r w) as [[] w0].
Qed.

Lemma terminal_open_success params uuid w :
  exec (terminal_open params uuid None) w = opened params uuid (after_destroy w).
Proof.
  unfold after_destroy, terminal_open.
  unfold exec at 1. unfold mbind, M_bind at 1. unfold mbind, M_bind at 1.
  unfold gets at 1.
  assert (∃ w0,
    (match activeSession w with Some r => destroySession r | None => mret tt end) w
      = (tt, w0) ∧
    w0 = match activeSession w with Some r => exec (destroySession r) w | None => w end)
    as (w0 & -> & <-).
  { destruct (activeSession w) as [r|]; [|by eexists].
    unfold exec. destruct (destroySession r w) as [[] w0]. by eexists. }
  destruct w0 as [a ss ps tm nt nw tr]. unfold opened. msimpl.
  rewrite lookup_snoc. msimpl. rewrite !alter_snoc. cbn.
  rewrite <- !app_assoc. reflexivity.
Qed.

Lemma terminal_close_falsy params w :
  truthy (get params "sessionId") = false →
  exec (terminal_close params) w =
  emit (ERespond (RespondError INVALID_REQUEST "sessionId required")) w.
Proof. intros H. unfold terminal_close. rewrite H. reflexivity. Qed.

Lemma terminal_close_no_match params w :
  truthy (get params "sessionId") = true →
  matching_session (get params "sessionId") w = None →
  exec (terminal_close params) w = emit (ERespond (RespondOk None)) w.
Proof.
  intros H Hm. unfold terminal_close. rewrite H. msimpl. rewrite Hm. reflexivity.
Qed.

Lemma terminal_close_match params w r s :
  truthy (get params "sessionId") = true →
  matching_session (get params "sessionId") w = Some (r, s) →
  exec (terminal_close params) w =
  emit (ERespond (RespondOk None)) (exec (destroySession r) w).
Proof.
  intros H Hm. unfold terminal_close. rewrite H.
  unfold exec, mbind, M_bind, gets. rewrite Hm.
  by destruct (destroySession r w) as [[] w0].
Qed.

Lemma matching_session_Some sid w r s :
  matching_session sid w = Some (r, s) →
  activeSession w = Some r ∧ sessions w !! r = Some s ∧ sid = JString (id s).
Proof.
  unfold matching_session. destruct (activeSession w) as [r'|]; [|done].
  destruct (sessions w !! r') as [s'|] eqn:Hs; [|done].
  destruct sid; cbn; try done.
  destruct (String.eqb_spec s0 (id s')); [|done].
  intros [= <- <-]. by subst.
Qed.

(** ** Preservation of the invariant *)

Lemma IDLE_TIMEOUT_MS_pos : 0 < IDLE_TIMEOUT_MS.
Proof. done. Qed.

Lemma inv_initial : inv initial.
Proof. split; cbn; try done. Qed.

(** The invariant does not look at the trace or at the timer counter. *)
Lemma inv_same (w w' : World) :
  activeSession w' = activeSession w → sessions w' = sessions w →
  ptys w' = ptys w → timers w' = timers w → now w' = now w →
  inv w → inv w'.
Proof.
  intros Ha Hs Hp Ht Hn [H1 H2 H3 H4 H5 H6].
  split; rewrite ?Ha, ?Hs, ?Hp, ?Ht, ?Hn; done.
Qed.

Lemma inv_emit (e : Effect) (w : World) : inv w → inv (emit e w).
Proof. by apply inv_same. Qed.

Lemma live_kill (p : IPty) : live (mark_killed p) = false.
Proof. done. Qed.

Lemma inv_destroyed (w : World) (r : nat) (s : TerminalSession) :
  inv w → activeSession w = Some r → sessions w !! r = Some s →
  inv (destroyed s w).
Proof.
  intros [H1 H2 H3 H4 H5 H6] Ha Hs.
  destruct (H5 r Ha) as (s' & p & d & Hs' & Hp & Hl & Ht & _).
  assert (s' = s) as -> by congruence.
  pose proof (H2 r s Hs) as Hpty.
  split; unfold destroyed; rewrite Hpty; cbn [activeSession sessions ptys timers now].
  - by rewrite length_alter.
  - done.
  - intros h q. rewrite list_lookup_alter. case_decide as Hd.
    + subst h. rewrite Hp. intros [= <-]. cbn. by apply H3.
    + apply H3.
  - intros h q. rewrite list_lookup_alter. case_decide as Hd.
    + subst h. rewrite Hp. intros [= <-]. by rewrite live_kill.
    + intros Hq Hlq. specialize (H4 h q Hq Hlq). congruence.
  - done.
  - intros _. rewrite Ht. apply delete_singleton_eq.
Qed.

Lemma inv_opened params uuid (w0 : World) :
  inv w0 → activeSession w0 = None → inv (opened params uuid w0).
Proof.
  intros [H1 H2 H3 H4 H5 H6] Ha.
  split; unfold opened; cbn [activeSession sessions ptys timers now].
  - rewrite !length_app. cbn. lia.
  - intros r s Hr. apply lookup_app_Some in Hr as [Hr|[Hge Hr]]; [by apply H2|].
    apply list_lookup_singleton_Some in Hr as [Hr <-]. cbn. lia.
  - intros h p Hh. apply lookup_app_Some in Hh as [Hh|[Hge Hh]]; [by apply H3|].
    apply list_lookup_singleton_Some in Hh as [Hh <-]. cbn.
    assert (h = length (ptys w0)) as -> by lia. by rewrite H1.
  - intros h p Hh Hl. apply lookup_app_Some in Hh as [Hh|[Hge Hh]].
    + specialize (H4 h p Hh Hl). congruence.
    + apply list_lookup_singleton_Some in Hh as [Hh <-]. f_equal. lia.
  - intros r [= <-]. eexists _, _, _. split; [apply lookup_snoc|].
    split; [rewrite H1; apply lookup_snoc|]. split; [done|].
    split.
    { cbn. rewrite (H6 Ha), delete_insert_eq, delete_empty. reflexivity. }
    pose proof IDLE_TIMEOUT_MS_pos. lia.
  - done.
Qed.

Lemma inv_rearmed (w : World) (r : nat) (s : TerminalSession) :
  inv w → activeSession w = Some r → sessions w !! r = Some s →
  inv (rearmed r s w).
Proof.
  intros [H1 H2 H3 H4 H5 H6] Ha Hs.
  destruct (H5 r Ha) as (s' & p & d & Hs' & Hp & Hl & Ht & _).
  assert (s' = s) as -> by congruence.
  split; unfold rearmed; cbn [activeSession sessions ptys timers now].
  - by rewrite length_alter.
  - intros r' s'. rewrite list_lookup_alter. case_decide as Hd.
    + subst r'. rewrite Hs. intros [= <-]. cbn. by apply H2.
    + apply H2.
  - done.
  - done.
  - intros r' Hr'. assert (r' = r) as -> by congruence.
    eexists _, p, _. split; [by rewrite list_lookup_alter_eq, Hs|].
    split; [done|]. split; [done|].
    split; [cbn; rewrite Ht, delete_singleton_eq; reflexivity|].
    pose proof IDLE_TIMEOUT_MS_pos. lia.
  - congruence.
Qed.

(** Writing to or resizing a pseudo-terminal keeps its flags and listeners. *)
Lemma inv_alter_pty (f : IPty → IPty) (h : nat) (w : World) :
  (∀ p, killed (f p) = killed p ∧ exited (f p) = exited p ∧
        onData (f p) = onData p ∧ onExit (f p) = onExit p) →
  inv w → inv (set_ptys (alter f h (ptys w)) w).
Proof.
  intros Hf [H1 H2 H3 H4 H5 H6].
  assert (∀ h' q, alter f h (ptys w) !! h' = Some q →
            ∃ q0, ptys w !! h' = Some q0 ∧ live q = live q0 ∧
                  onData q = onData q0 ∧ onExit q = onExit q0) as Hlk.
  { intros h' q. rewrite list_lookup_alter. case_decide as Hd.
    - subst h'. destruct (ptys w !! h) as [q0|]; [|done]. intros [= <-].
      destruct (Hf q0) as (Hk & He & Hd & Hx). exists q0. unfold live.
      by rewrite Hk, He, Hd, Hx.
    - intros Hq. by exists q. }
  split; unfold set_ptys; cbn [activeSession sessions ptys timers now].
  - by rewrite length_alter.
  - done.
  - intros h' q Hq. destruct (Hlk h' q Hq) as (q0 & Hq0 & _ & -> & ->). by apply H3.
  - intros h' q Hq Hl. destruct (Hlk h' q Hq) as (q0 & Hq0 & Hl0 & _).
    apply (H4 h' q0 Hq0). by rewrite <- Hl0.
  - intros r Hr. destruct (H5 r Hr) as (s & p & d & Hs & Hp & Hl & Ht).
    exists s, (if decide (h = r) then f p else p), d. split; [done|].
    split; [by rewrite list_lookup_alter; case_decide; subst; rewrite ?Hp|].
    split; [|done]. case_decide; [|done]. destruct (Hf p) as (Hk & He & _).
    unfold live. by rewrite Hk, He.
  - done.
Qed.

(** What the invariant says about the active session. *)
Lemma inv_active_session (w : World) (r : nat) :
  inv w → activeSession w = Some r →
  ∃ s p d, sessions w !! r = Some s ∧ pty s = r ∧ ptys w !! r = Some p ∧
    killed p = false ∧ exited p = false ∧
    timers w = {[ idleTimer s := mkTimer d (TcDestroySession r) ]} ∧
    now w < d ∧ d <= now w + IDLE_TIMEOUT_MS.
Proof.
  intros Hi Ha. destruct (inv_active w Hi r Ha) as (s & p & d & Hs & Hp & Hl & Ht & Hd).
  exists s, p, d. pose proof (inv_pty w Hi r s Hs).
  unfold live in Hl. apply andb_true_iff in Hl as [Hk He].
  apply negb_true_iff in Hk, He. done.
Qed.

Lemma after_destroy_idle (w : World) :
  activeSession w = None → after_destroy w = w.
Proof. intros H. unfold after_destroy. by rewrite H. Qed.

Lemma after_destroy_active (w : World) (r : nat) (s : TerminalSession) :
  inv w → activeSession w = Some r → sessions w !! r = Some s →
  after_destroy w = destroyed s w.
Proof.
  intros Hi Ha Hs. unfold after_destroy. rewrite Ha.
  destruct (inv_active_session w r Hi Ha) as (s' & p & d & Hs' & Hpty & Hp & Hk & He & _).
  assert (s' = s) as -> by congruence.
  apply (destroySession_active w r s p); try done. by rewrite Hpty.
Qed.

Lemma inv_after_destroy (w : World) :
  inv w → inv (after_destroy w) ∧ activeSession (after_destroy w) = None.
Proof.
  intros Hi. destruct (activeSession w) as [r|] eqn:Ha.
  - destruct (inv_active_session w r Hi Ha) as (s & _ & _ & Hs & _).
    rewrite (after_destroy_active w r s Hi Ha Hs). split; [|done].
    by apply (inv_destroyed w r s).
  - by rewrite after_destroy_idle.
Qed.

Lemma inv_terminal_open params uuid failure (w : World) :
  inv w → inv (exec (terminal_open params uuid failure) w).
Proof.
  intros Hi. destruct (inv_after_destroy w Hi) as [Hi0 Ha0].
  destruct failure as [err|].
  - rewrite terminal_open_failure. by do 2 apply inv_emit.
  - rewrite terminal_open_success. by apply inv_opened.
Qed.

(** *** [terminal.input] and [terminal.resize] *)

Lemma terminal_input_cases params (w : World) :
  (∃ msg, exec (terminal_input params) w =
            emit (ERespond (RespondError INVALID_REQUEST msg)) w) ∨
  (∃ r s data,
     matching_session (get params "sessionId") w = Some (r, s) ∧
     exec (terminal_input params) w =
       emit (ERespond (RespondOk None))
         (rearmed r s (exec (pty_write (pty s) data) w))).
Proof.
  unfold terminal_input.
  destruct (truthy (get params "sessionId")); [|left; by eexists].
  destruct (typeof_string (get params "data")) as [data|]; [|left; by eexists].
  destruct (matching_session (get params "sessionId") w) as [[r s]|] eqn:Hm.
  - right. exists r, s, data. split; [done|].
    destruct (matching_session_Some _ _ _ _ Hm) as (Ha & Hs & _).
    rewrite <- (resetIdleTimer_spec _ r s) by done.
    lazy beta iota zeta delta [exec mbind M_bind gets fst snd]. rewrite Hm.
    destruct (pty_write (pty s) data w) as [[] w1].
    by destruct (resetIdleTimer r w1) as [[] w2].
  - left. eexists. lazy beta iota zeta delta [exec mbind M_bind gets fst snd].
    by rewrite Hm.
Qed.

(** The pseudo-terminals after a resize of [h] that the library accepts. *)
Lemma pty_resize_accepted (h : nat) (c r : number) (w : World) :
  resize_refused c r = false →
  pty_resize h c r w =
    (inl tt, emit (EResize h c r)
               (set_ptys (alter (λ p, mkPty c r (killed p) (exited p)
                                            (written p) (onData p) (onExit p)) h (ptys w)) w)).
Proof. intros H. unfold pty_resize. by rewrite H. Qed.

Lemma pty_resize_refused (h : nat) (c r : number) (w : World) :
  resize_refused c r = true →
  pty_resize h c r w =
    (inr "resizing must be done using positive cols and rows", emit (EResizeFailed h c r) w).
Proof. intros H. unfold pty_resize. by rewrite H. Qed.

Lemma terminal_resize_cases params (w : World) :
  (∃ msg, exec (terminal_resize params) w =
            emit (ERespond (RespondError INVALID_REQUEST msg)) w) ∨
  (∃ r s cols rows,
     matching_session (get params "sessionId") w = Some (r, s) ∧
     get params "cols" = JNumber cols ∧ get params "rows" = JNumber rows ∧
     resize_refused (Math_max (Fin 1) (Math_floor cols))
                    (Math_max (Fin 1) (Math_floor rows)) = false ∧
     exec (terminal_resize params) w =
       emit (ERespond (RespondOk None))
         (rearmed r s
            (exec (pty_resize (pty s) (Math_max (Fin 1) (Math_floor cols))
                                      (Math_max (Fin 1) (Math_floor rows))) w))) ∨
  (∃ r s cols rows,
     truthy (get params "sessionId") = true ∧
     matching_session (get params "sessionId") w = Some (r, s) ∧
     get params "cols" = JNumber cols ∧ get params "rows" = JNumber rows ∧
     resize_refused (Math_max (Fin 1) (Math_floor cols))
                    (Math_max (Fin 1) (Math_floor rows)) = true ∧
     exec (terminal_resize params) w =
       emit (EResizeFailed (pty s) (Math_max (Fin 1) (Math_floor cols))
                                   (Math_max (Fin 1) (Math_floor rows))) w).
Proof.
  unfold terminal_resize.
  destruct (truthy (get params "sessionId")); [|left; by eexists].
  destruct (get params "cols") as [| | |cols| |]; try (left; by eexists).
  destruct (get params "rows") as [| | |rows| |]; try (left; by eexists).
  cbn [typeof_number].
  destruct (matching_session (get params "sessionId") w) as [[r s]|] eqn:Hm.
  - right.
    destruct (resize_refused (Math_max (Fin 1) (Math_floor cols))
                             (Math_max (Fin 1) (Math_floor rows))) eqn:Hx.
    + right. exists r, s, cols, rows. do 5 (split; [done|]).
      lazy beta iota zeta delta [exec mbind M_bind gets fst snd]. rewrite Hm.
      rewrite (pty_resize_refused _ _ _ _ Hx).
      by lazy beta iota zeta delta [mret M_ret snd].
    + left. exists r, s, cols, rows. do 4 (split; [done|]).
      destruct (matching_session_Some _ _ _ _ Hm) as (Ha & Hs & _).
      rewrite <- (resetIdleTimer_spec _ r s)
        by (unfold exec; by rewrite (pty_resize_accepted _ _ _ _ Hx)).
      lazy beta iota zeta delta [exec mbind M_bind gets fst snd]. rewrite Hm.
      rewrite !(pty_resize_accepted _ _ _ _ Hx).
      lazy beta iota zeta delta [mbind M_bind fst snd].
      by destruct (resetIdleTimer r _) as [[] w2].
  - left. eexists. lazy beta iota zeta delta [exec mbind M_bind gets fst snd].
    by rewrite Hm.
Qed.

Lemma inv_rearmed_after (f : IPty → IPty) (h r : nat) (s : TerminalSession) (w : World) :
  (∀ p, killed (f p) = killed p ∧ exited (f p) = exited p ∧
        onData (f p) = onData p ∧ onExit (f p) = onExit p) →
  inv w → activeSession w = Some r → sessions w !! r = Some s →
  inv (rearmed r s (set_ptys (alter f h (ptys w)) w)).
Proof.
  intros Hf Hi Ha Hs. apply inv_rearmed; [|done..]. by apply inv_alter_pty.
Qed.

Lemma inv_terminal_input params (w : World) :
  inv w → inv (exec (terminal_input params) w).
Proof.
  intros Hi. destruct (terminal_input_cases params w)
    as [[msg ->]|(r & s & data & Hm & ->)]; apply inv_emit; [done|].
  apply matching_session_Some in Hm as (Ha & Hs & _).
  eapply inv_same; [..|apply (inv_rearmed_after
    (λ p, mkPty (pty_cols p) (pty_rows p) (killed p) (exited p)
                (written p ++ [data]) (onData p) (onExit p)) (pty s) r s w)]; done.
Qed.

Lemma inv_terminal_resize params (w : World) :
  inv w → inv (exec (terminal_resize params) w).
Proof.
  intros Hi. destruct (terminal_resize_cases params w)
    as [[msg ->]|[(r & s & cols & rows & Hm & _ & _ & Hx & ->)
                 |(r & s & cols & rows & _ & _ & _ & _ & _ & ->)]]; apply inv_emit; [done| |done].
  apply matching_session_Some in Hm as (Ha & Hs & _).
  unfold exec. rewrite (pty_resize_accepted _ _ _ _ Hx). cbn [snd].
  eapply inv_same; [..|apply (inv_rearmed_after
    (λ p, mkPty (Math_max (Fin 1) (Math_floor cols)) (Math_max (Fin 1) (Math_floor rows))
                (killed p) (exited p) (written p) (onData p) (onExit p))
    (pty s) r s w)]; done.
Qed.

(** *** [terminal.close] and cleanup *)

Lemma terminal_close_cases params (w : World) :
  inv w →
  exec (terminal_close params) w =
    emit (ERespond (RespondError INVALID_REQUEST "sessionId required")) w ∨
  exec (terminal_close params) w = emit (ERespond (RespondOk None)) w ∨
  (∃ r s, activeSession w = Some r ∧ sessions w !! r = Some s ∧
     get params "sessionId" = JString (id s) ∧
     exec (terminal_close params) w =
       emit (ERespond (RespondOk None)) (destroyed s w)).
Proof.
  intros Hi. destruct (truthy (get params "sessionId")) eqn:Ht.
  - destruct (matching_session (get params "sessionId") w) as [[r s]|] eqn:Hm.
    + right; right. exists r, s.
      rewrite (terminal_close_match params w r s Ht Hm).
      apply matching_session_Some in Hm as (Ha & Hs & Hid).
      do 3 (split; [done|]). f_equal.
      rewrite <- (after_destroy_active w r s) by done.
      unfold after_destroy. by rewrite Ha.
    + right; left. by apply terminal_close_no_match.
  - left. by apply terminal_close_falsy.
Qed.

Lemma inv_terminal_close params (w : World) :
  inv w → inv (exec (terminal_close params) w).
Proof.
  intros Hi. destruct (terminal_close_cases params w Hi)
    as [->|[->|(r & s & Ha & Hs & _ & ->)]]; apply inv_emit; try done.
  by apply (inv_destroyed w r s).
Qed.

Lemma cleanup_active (w : World) (r : nat) (s : TerminalSession) (p : IPty) :
  activeSession w = Some r → sessions w !! r = Some s →
  ptys w !! pty s = Some p → exited p = false →
  exec cleanupTerminalSessions w =
    mkWorld None (sessions w) (alter mark_killed (pty s) (ptys w))
      (delete (idleTimer s) (timers w)) (nextTimer w) (now w)
      (trace w ++ [EClearTimeout (idleTimer s); EKill (pty s) false]).
Proof.
  intros Ha Hs Hp He. rewrite <- (insert_as_alter _ _ _ _ Hp).
  destruct w as [a ss ps tm nt nw tr]. msimpl. rewrite Ha. msimpl. rewrite Hs.
  msimpl. rewrite Hp, He. msimpl. rewrite <- !app_assoc. reflexivity.
Qed.

Lemma cleanup_idle (w : World) :
  activeSession w = None → exec cleanupTerminalSessions w = w.
Proof. intros Ha. destruct w as [a ss ps tm nt nw tr]. msimpl. by rewrite Ha. Qed.

Lemma inv_cleanup (w : World) : inv w → inv (exec cleanupTerminalSessions w).
Proof.
  intros Hi. destruct (activeSession w) as [r|] eqn:Ha.
  - destruct (inv_active_session w r Hi Ha) as (s & p & d & Hs & Hpty & Hp & Hk & He & _).
    rewrite (cleanup_active w r s p) by (by rewrite ?Hpty).
    eapply inv_same; [..|apply (inv_destroyed w r s Hi Ha Hs)]; done.
  - by rewrite cleanup_idle.
Qed.

(** *** Events of the pseudo-terminal *)

Lemma on_data_listeners_core (data : string) (l : list nat) (w : World) :
  ∃ tr, Forall is_output tr ∧
        exec (run_listeners (λ r, on_data r data) l) w =
        mkWorld (activeSession w) (sessions w) (ptys w) (timers w)
                (nextTimer w) (now w) (trace w ++ tr).
Proof.
  revert w. induction l as [|r l IH]; intros w.
  - exists []. split; [done|]. rewrite app_nil_r. by destruct w.
  - cbn [run_listeners]. unfold exec, mbind, M_bind.
    destruct (on_data r data w) as [[] w1] eqn:H1.
    assert (∃ tr1, Forall is_output tr1 ∧
              w1 = mkWorld (activeSession w) (sessions w) (ptys w) (timers w)
                           (nextTimer w) (now w) (trace w ++ tr1)) as (tr1 & Ho1 & ->).
    { unfold on_data, with_session in H1. destruct (sessions w !! r) as [s|].
      - eexists [_]. split; [|destruct w; by injection H1 as <-].
        apply Forall_singleton. by eexists _, _.
      - exists []. split; [done|]. rewrite app_nil_r. destruct w. by injection H1 as <-. }
    destruct (IH (mkWorld (activeSession w) (sessions w) (ptys w) (timers w)
                    (nextTimer w) (now w) (trace w ++ tr1))) as (tr2 & Ho2 & H2).
    exists (tr1 ++ tr2). split; [by apply Forall_app|].
    unfold exec in H2. rewrite H2. cbn. by rewrite app_assoc.
Qed.

Lemma inv_pty_data (h : nat) (data : string) (w : World) :
  inv w → inv (exec (pty_data h data) w).
Proof.
  intros Hi. unfold exec, pty_data. destruct (ptys w !! h) as [p|]; [|done].
  destruct (on_data_listeners_core data (onData p) w) as (tr & _ & Htr).
  unfold exec in Htr. rewrite Htr. by eapply inv_same; [..|exact Hi].
Qed.

(** With distinct ids, [activeSession?.id === session.id] holds exactly for
    the active session object. *)
Lemma active_id_is_iff (w : World) (r : nat) (s : TerminalSession) :
  inv w → distinct_ids w → sessions w !! r = Some s →
  active_id_is (id s) w = true ↔ activeSession w = Some r.
Proof.
  intros Hi Hd Hs. split; [|intros Ha; by apply (active_id_is_self w r s)].
  unfold active_id_is, active_object. destruct (activeSession w) as [a|]; [|done].
  cbn. destruct (sessions w !! a) as [sa|] eqn:Hsa; [|done].
  intros Heq%String.eqb_eq. f_equal. by apply (Hd a r sa s).
Qed.

(** The state after the exit of the active session's pseudo-terminal. *)
Lemma pty_exit_active (w : World) (h : nat) (s : TerminalSession) (p : IPty) :
  inv w → activeSession w = Some h → sessions w !! h = Some s → ptys w !! h = Some p →
  exec (pty_exit h) w =
    mkWorld None (sessions w) (alter mark_exited h (ptys w))
      (delete (idleTimer s) (timers w)) (nextTimer w) (now w)
      (trace w ++ [EClearTimeout (idleTimer s); EBroadcast (terminal_closed (id s))]).
Proof.
  intros Hi Ha Hs Hp. destruct (inv_subs w Hi h p Hp) as [_ Hx].
  pose proof (active_id_is_self w h s Ha Hs) as Hid.
  rewrite <- (insert_as_alter _ _ _ _ Hp).
  unfold exec, pty_exit. rewrite Hp, Hx. cbn [run_listeners].
  unfold active_id_is, active_object in Hid.
  destruct w as [a ss ps tm nt nw tr]. msimpl. rewrite Hs. msimpl.
  unfold active_id_is, active_object. msimpl. rewrite Hid. msimpl.
  rewrite <- !app_assoc. reflexivity.
Qed.

(** The exit of any other pseudo-terminal changes nothing but its flag. *)
Lemma pty_exit_other (w : World) (h : nat) (p : IPty) :
  inv w → distinct_ids w → activeSession w ≠ Some h → ptys w !! h = Some p →
  exec (pty_exit h) w = set_ptys (alter mark_exited h (ptys w)) w.
Proof.
  intros Hi Hd Ha Hp. destruct (inv_subs w Hi h p Hp) as [_ Hx].
  assert (is_Some (sessions w !! h)) as [s Hs].
  { apply lookup_lt_is_Some. rewrite (inv_len w Hi). by eapply lookup_lt_Some. }
  assert (active_id_is (id s) w = false) as Hid.
  { apply not_true_is_false. by rewrite (active_id_is_iff w h s). }
  rewrite <- (insert_as_alter _ _ _ _ Hp).
  unfold exec, pty_exit. rewrite Hp, Hx. cbn [run_listeners].
  unfold active_id_is, active_object in Hid.
  destruct w as [a ss ps tm nt nw tr]. msimpl. rewrite Hs. msimpl.
  unfold active_id_is, active_object. msimpl. rewrite Hid. reflexivity.
Qed.

Lemma pty_exit_unknown (w : World) (h : nat) :
  ptys w !! h = None → exec (pty_exit h) w = w.
Proof. intros Hp. unfold exec, pty_exit. by rewrite Hp. Qed.

Lemma live_exit (p : IPty) : live (mark_exited p) = false.
Proof. unfold live. cbn. by rewrite andb_false_r. Qed.

(** Retiring a pseudo-terminal that is not the active session's. *)
Lemma inv_retire_other (f : IPty → IPty) (h : nat) (w : World) :
  (∀ p, live (f p) = false ∧ onData (f p) = onData p ∧ onExit (f p) = onExit p) →
  inv w → activeSession w ≠ Some h → inv (set_ptys (alter f h (ptys w)) w).
Proof.
  intros Hf [H1 H2 H3 H4 H5 H6] Ha.
  split; unfold set_ptys; cbn [activeSession sessions ptys timers now].
  - by rewrite length_alter.
  - done.
  - intros h' q. rewrite list_lookup_alter. case_decide as Hd; [|apply H3].
    subst h'. destruct (ptys w !! h) as [q0|] eqn:Hq0; [|done]. intros [= <-].
    destruct (Hf q0) as (_ & -> & ->). by apply H3.
  - intros h' q. rewrite list_lookup_alter. case_decide as Hd; [|apply H4].
    subst h'. destruct (ptys w !! h) as [q0|] eqn:Hq0; [|done]. intros [= <-].
    destruct (Hf q0) as (-> & _). done.
  - intros r Hr. destruct (H5 r Hr) as (s & p & d & Hs & Hp & Hrest).
    exists s, p, d. split; [done|]. split; [|done].
    rewrite list_lookup_alter_ne; [done|congruence].
  - done.
Qed.

Lemma inv_pty_exit (h : nat) (w : World) :
  inv w → distinct_ids w → inv (exec (pty_exit h) w).
Proof.
  intros Hi Hd. destruct (ptys w !! h) as [p|] eqn:Hp;
    [|by rewrite pty_exit_unknown].
  destruct (decide (activeSession w = Some h)) as [Ha|Ha].
  - destruct (inv_active_session w h Hi Ha) as (s & p' & d & Hs & Hpty & Hp' & _ & _ & Ht & _).
    rewrite (pty_exit_active w h s p) by done.
    destruct Hi as [I1 I2 I3 I4 I5 I6].
    split; cbn [activeSession sessions ptys timers now].
    + by rewrite length_alter.
    + done.
    + intros h' q. rewrite list_lookup_alter. case_decide as Hdec; [|apply I3].
      subst h'. rewrite Hp. intros [= <-]. cbn. by apply I3.
    + intros h' q. rewrite list_lookup_alter. case_decide as Hdec.
      * subst h'. rewrite Hp. intros [= <-]. by rewrite live_exit.
      * intros Hq Hl. specialize (I4 h' q Hq Hl). congruence.
    + done.
    + intros _. rewrite Ht. apply delete_singleton_eq.
  - rewrite (pty_exit_other w h p) by done.
    apply inv_retire_other; [|done..]. intros q. by rewrite live_exit.
Qed.

(** *** The passing of time *)

Lemma due_timers_singleton (deadline : Z) (w : World) (t : nat) (tm : Timer) :
  timers w = {[ t := tm ]} →
  due_timers deadline w = if (due tm <=? deadline)%Z then [(t, tm)] else [].
Proof.
  intros Ht. unfold due_timers. rewrite Ht, map_to_list_singleton.
  cbn [List.filter snd]. by destruct (due tm <=? deadline)%Z.
Qed.

Lemma elapse_idle (ms : Z) (w : World) :
  inv w → activeSession w = None → exec (elapse ms) w = set_now (now w + ms) w.
Proof.
  intros Hi Ha. unfold exec, elapse, due_timers. cbn [snd].
  rewrite (inv_idle w Hi Ha), map_to_list_empty. reflexivity.
Qed.

Lemma elapse_before (ms : Z) (w : World) (r : nat) (s : TerminalSession) (tm : Timer) :
  inv w → activeSession w = Some r → sessions w !! r = Some s →
  timers w !! idleTimer s = Some tm → now w + ms < due tm →
  exec (elapse ms) w = set_now (now w + ms) w.
Proof.
  intros Hi Ha Hs Htm Hlt.
  destruct (inv_active_session w r Hi Ha) as (s' & p & d & Hs' & _ & _ & _ & _ & Ht & _).
  assert (s' = s) as -> by congruence.
  rewrite Ht, lookup_singleton_eq in Htm. injection Htm as <-.
  unfold exec, elapse. cbn [snd]. rewrite (due_timers_singleton _ w _ _ Ht).
  cbn [due] in *. destruct (Z.leb_spec d (now w + ms)); [lia|]. reflexivity.
Qed.

Lemma elapse_evicts (ms : Z) (w : World) (r : nat) (s : TerminalSession) (tm : Timer) :
  inv w → activeSession w = Some r → sessions w !! r = Some s →
  timers w !! idleTimer s = Some tm → due tm <= now w + ms →
  exec (elapse ms) w = set_now (now w + ms) (destroyed s w).
Proof.
  intros Hi Ha Hs Htm Hle.
  destruct (inv_active_session w r Hi Ha)
    as (s' & p & d & Hs' & Hpty & Hp & Hk & He & Ht & _).
  assert (s' = s) as -> by congruence.
  pose proof Htm as Htm'. rewrite Ht, lookup_singleton_eq in Htm'. injection Htm' as <-.
  unfold exec, elapse. cbn [snd]. rewrite (due_timers_singleton _ w _ _ Ht).
  cbn [due] in *. destruct (Z.leb_spec d (now w + ms)); [|lia].
  lazy beta iota zeta delta [exec fire_all mbind M_bind mret M_ret fire fst snd].
  rewrite Htm.
  cbn [callback run_callback].
  pose proof (destroySession_active
    (set_now (Z.max (now w) d) (set_timers (delete (idleTimer s) (timers w)) w)) r s p)
    as Hds.
  unfold exec in Hds.
  destruct (destroySession r _) as [[] w1]. cbn [snd] in Hds.
  rewrite Hds by (by rewrite ?Hpty).
  unfold destroyed, set_now, set_timers. cbn. by rewrite delete_delete_eq.
Qed.

Lemma inv_set_now (t : Z) (w : World) :
  inv w → now w <= t →
  (∀ r s tm, activeSession w = Some r → sessions w !! r = Some s →
             timers w !! idleTimer s = Some tm → t < due tm) →
  inv (set_now t w).
Proof.
  intros Hi Hle Hd. pose proof Hi as [H1 H2 H3 H4 H5 H6].
  split; unfold set_now; cbn [activeSession sessions ptys timers now]; try done.
  intros r Hr.
  destruct (H5 r Hr) as (s & p & d & Hs & Hp & Hl & Ht & Hlo & Hhi).
  exists s, p, d. do 4 (split; [done|]).
  specialize (Hd r s (mkTimer d (TcDestroySession r)) Hr Hs).
  rewrite Ht, lookup_singleton_eq in Hd. specialize (Hd eq_refl). cbn in Hd. lia.
Qed.

Lemma inv_elapse (ms : Z) (w : World) :
  inv w → 0 <= ms → inv (exec (elapse ms) w).
Proof.
  intros Hi Hms. destruct (activeSession w) as [r|] eqn:Ha.
  - destruct (inv_active_session w r Hi Ha) as (s & p & d & Hs & _ & _ & _ & _ & Ht & _).
    assert (timers w !! idleTimer s = Some (mkTimer d (TcDestroySession r))) as Htm.
    { by rewrite Ht, lookup_singleton_eq. }
    destruct (Z.le_gt_cases d (now w + ms)) as [Hle|Hgt].
    + rewrite (elapse_evicts ms w r s _ Hi Ha Hs Htm) by done.
      apply inv_set_now.
      * by apply (inv_destroyed w r s).
      * cbn. lia.
      * intros r' s' tm' Hr'. done.
    + rewrite (elapse_before ms w r s _ Hi Ha Hs Htm) by done.
      apply inv_set_now; [done|lia|].
      intros r' s' tm' Hr' Hs' Htm'. assert (r' = r) as -> by congruence.
      assert (s' = s) as -> by congruence. rewrite Htm in Htm'.
      injection Htm' as <-. done.
  - rewrite (elapse_idle ms w Hi Ha). apply inv_set_now; [done|lia|].
    intros r' s' tm' Hr'. congruence.
Qed.

(** *** Distinct ids *)

Lemma distinct_ids_NoDup (w : World) : distinct_ids w ↔ NoDup (id <$> sessions w).
Proof.
  rewrite NoDup_alt. unfold distinct_ids. split.
  - intros H i j x Hi Hj.
    apply list_lookup_fmap_Some in Hi as (s & -> & Hs).
    apply list_lookup_fmap_Some in Hj as (s' & Heq & Hs'). by apply (H i j s s').
  - intros H r r' s s' Hs Hs' Heq. apply (H r r' (id s)).
    + by rewrite list_lookup_fmap, Hs.
    + by rewrite list_lookup_fmap, Hs', Heq.
Qed.

Lemma distinct_ids_same (w w' : World) :
  id <$> sessions w' = id <$> sessions w → distinct_ids w → distinct_ids w'.
Proof. rewrite !distinct_ids_NoDup. by intros ->. Qed.

Lemma ids_rearmed (r : nat) (s : TerminalSession) (w : World) :
  id <$> sessions (rearmed r s w) = id <$> sessions w.
Proof.
  unfold rearmed. cbn [sessions].
  rewrite (list_fmap_alter id _ (λ x, x)).
  - clear. generalize (id <$> sessions w). intros l. revert r.
    induction l as [|x l IH]; intros [|r]; cbn; [done..|]. f_equal. apply IH.
  - by apply Forall_forall.
Qed.

Lemma fresh_uuid (uuid : string) (w : World) :
  forallb (λ s, negb (String.eqb (id s) uuid)) (sessions w) = true →
  uuid ∉ id <$> sessions w.
Proof.
  intros Hf Hin. apply list_elem_of_fmap in Hin as (s & -> & Hs).
  apply list_elem_of_In in Hs.
  rewrite forallb_forall in Hf. specialize (Hf s Hs).
  by rewrite String.eqb_refl in Hf.
Qed.

Lemma distinct_ids_opened params uuid (w0 : World) :
  distinct_ids w0 → uuid ∉ id <$> sessions w0 →
  distinct_ids (opened params uuid w0).
Proof.
  rewrite !distinct_ids_NoDup. intros Hn Hf. unfold opened. cbn [sessions].
  rewrite fmap_app. apply NoDup_app. split; [done|]. split.
  - intros x Hx. cbn. rewrite list_elem_of_singleton. by intros ->.
  - apply NoDup_singleton.
Qed.

Lemma sessions_after_destroy (w : World) :
  inv w → sessions (after_destroy w) = sessions w.
Proof.
  intros Hi. destruct (activeSession w) as [r|] eqn:Ha.
  - destruct (inv_active_session w r Hi Ha) as (s & _ & _ & Hs & _).
    by rewrite (after_destroy_active w r s Hi Ha Hs).
  - by rewrite after_destroy_idle.
Qed.

(** ** Every state the manager reaches satisfies the invariants *)

Lemma step_inv (e : Event) (w : World) :
  inv w → distinct_ids w → allowed e w = true →
  inv (exec (handle e) w) ∧ distinct_ids (exec (handle e) w).
Proof.
  intros Hi Hd Hal. destruct e as [params uuid failure|params|params|params|h data|h|ms|];
    cbn [handle allowed] in *.
  - split; [by apply inv_terminal_open|].
    destruct failure as [err|].
    + rewrite terminal_open_failure.
      eapply distinct_ids_same; [|exact Hd]. cbn [sessions emit].
      by rewrite sessions_after_destroy.
    + rewrite terminal_open_success. apply distinct_ids_opened.
      * eapply distinct_ids_same; [|exact Hd]. by rewrite sessions_after_destroy.
      * rewrite sessions_after_destroy by done. by apply fresh_uuid.
  - split; [by apply inv_terminal_input|].
    destruct (terminal_input_cases params w) as [[msg ->]|(r & s & data & _ & ->)];
      [done|].
    eapply distinct_ids_same; [|exact Hd]. cbn [sessions emit]. by rewrite ids_rearmed.
  - split; [by apply inv_terminal_resize|].
    destruct (terminal_resize_cases params w)
      as [[msg ->]|[(r & s & cols & rows & _ & _ & _ & Hx & ->)
                   |(r & s & cols & rows & _ & _ & _ & _ & _ & ->)]]; [done| |done].
    eapply distinct_ids_same; [|exact Hd]. cbn [sessions emit]. rewrite ids_rearmed.
    unfold exec. by rewrite (pty_resize_accepted _ _ _ _ Hx).
  - split; [by apply inv_terminal_close|].
    destruct (terminal_close_cases params w Hi) as [->|[->|(r & s & _ & _ & _ & ->)]];
      done.
  - split; [by apply inv_pty_data|].
    unfold exec, pty_data. destruct (ptys w !! h) as [p|]; [|done].
    destruct (on_data_listeners_core data (onData p) w) as (tr & _ & Htr).
    unfold exec in Htr. by rewrite Htr.
  - split; [by apply inv_pty_exit|].
    destruct (ptys w !! h) as [p|] eqn:Hp; [|by rewrite pty_exit_unknown].
    destruct (decide (activeSession w = Some h)) as [Ha|Ha].
    + destruct (inv_active_session w h Hi Ha) as (s & _ & _ & Hs & _).
      by rewrite (pty_exit_active w h s p).
    + by rewrite (pty_exit_other w h p).
  - apply Z.leb_le in Hal. split; [by apply inv_elapse|].
    destruct (activeSession w) as [r|] eqn:Ha.
    + destruct (inv_active_session w r Hi Ha) as (s & p & d & Hs & _ & _ & _ & _ & Ht & _).
      assert (timers w !! idleTimer s = Some (mkTimer d (TcDestroySession r))) as Htm.
      { by rewrite Ht, lookup_singleton_eq. }
      destruct (Z.le_gt_cases d (now w + ms)) as [Hle|Hgt].
      * by rewrite (elapse_evicts ms w r s _ Hi Ha Hs Htm).
      * by rewrite (elapse_before ms w r s _ Hi Ha Hs Htm).
    + by rewrite (elapse_idle ms w Hi Ha).
  - split; [by apply inv_cleanup|].
    destruct (activeSession w) as [r|] eqn:Ha.
    + destruct (inv_active_session w r Hi Ha) as (s & p & d & Hs & Hpty & Hp & Hk & He & _).
      by rewrite (cleanup_active w r s p) by (by rewrite ?Hpty).
    + by rewrite cleanup_idle.
Qed.

Lemma valid_inv (es : list Event) (w : World) :
  inv w → distinct_ids w → valid es w = true →
  inv (run es w) ∧ distinct_ids (run es w).
Proof.
  revert w. induction es as [|e es IH]; intros w Hi Hd Hv; [done|].
  cbn [valid] in Hv. apply andb_true_iff in Hv as [Hal Hv].
  destruct (step_inv e w Hi Hd Hal) as [Hi' Hd']. by apply IH.
Qed.

Lemma reachable_inv (es : list Event) :
  valid es initial = true → inv (run es initial) ∧ distinct_ids (run es initial).
Proof. apply valid_inv; [apply inv_initial|]. by intros [|?] ????. Qed.

(** A run of [terminal.open] calls keeps the invariant whatever ids it is
    given. *)
Lemma opens_inv calls (w : World) : inv w → inv (run (opens calls) w).
Proof.
  revert w. induction calls as [|[[params uuid] failure] calls IH]; intros w Hi; [done|].
  apply IH. by apply inv_terminal_open.
Qed.

(** ** Counting live pseudo-terminals *)

Lemma filter_none {A} (f : A → bool) (l : list A) :
  (∀ i x, l !! i = Some x → f x = false) → List.filter f l = [].
Proof.
  induction l as [|x l IH]; intros H; [done|]. cbn.
  rewrite (H 0%nat x eq_refl). apply IH. intros i y Hy. by apply (H (S i)).
Qed.

Lemma filter_only {A} (f : A → bool) (l : list A) (r : nat) (x : A) :
  l !! r = Some x → f x = true →
  (∀ i y, l !! i = Some y → f y = true → i = r) →
  List.filter f l = [x].
Proof.
  revert r. induction l as [|y l IH]; intros r Hr Hx H; [done|].
  destruct r as [|r]; cbn in Hr.
  - injection Hr as ->. cbn. rewrite Hx. f_equal. apply filter_none.
    intros i z Hz. apply not_true_is_false. intros Hfz.
    by specialize (H (S i) z Hz Hfz).
  - cbn. destruct (f y) eqn:Hy.
    + by specialize (H 0%nat y eq_refl Hy).
    + apply (IH r); [done..|]. intros i z Hz Hfz.
      specialize (H (S i) z Hz Hfz). lia.
Qed.

(** One live pseudo-terminal while a session is active, none otherwise. *)
Lemma live_count_inv (w : World) :
  inv w → live_count w = match activeSession w with Some _ => 1%nat | None => 0%nat end.
Proof.
  intros Hi. unfold live_count. destruct (activeSession w) as [r|] eqn:Ha.
  - destruct (inv_active w Hi r Ha) as (s & p & d & Hs & Hp & Hl & _).
    rewrite (filter_only live (ptys w) r p); [done..|].
    intros i y Hy Hly. pose proof (inv_live w Hi i y Hy Hly). congruence.
  - rewrite filter_none; [done|]. intros i x Hx. apply not_true_is_false.
    intros Hlx. pose proof (inv_live w Hi i x Hx Hlx). congruence.
Qed.

Lemma inv_exclusive (w : World) : inv w → exclusive w.
Proof.
  intros Hi h p Hp Hl. pose proof (inv_live w Hi h p Hp Hl) as Ha.
  destruct (inv_active w Hi h Ha) as (s & _ & _ & Hs & _).
  exists h, s. split; [done|]. split; [done|]. by apply (inv_pty w Hi).
Qed.

Lemma responses_emit_respond (r : Response) (w : World) :
  responses (emit (ERespond r) w) = responses w ++ [r].
Proof. unfold responses, emit. cbn [trace]. by rewrite omap_app. Qed.

Lemma responses_app (w w' : World) (tr : list Effect) :
  trace w' = trace w ++ tr →
  responses w' = responses w ++
    omap (λ e, match e with ERespond r => Some r | _ => None end) tr.
Proof. intros H. unfold responses. by rewrite H, omap_app. Qed.

Lemma responses_rearmed (r : nat) (s : TerminalSession) (w : World) :
  responses (rearmed r s w) = responses w.
Proof.
  unfold responses, rearmed. cbn [trace]. rewrite omap_app. cbn. by rewrite app_nil_r.
Qed.

Lemma responses_emit_other (e : Effect) (w : World) :
  (∀ r, e ≠ ERespond r) → responses (emit e w) = responses w.
Proof.
  intros He. unfold responses, emit. cbn [trace]. rewrite omap_app. cbn.
  destruct e; try by rewrite app_nil_r. by destruct (He response).
Qed.

(** *** Runs without client activity *)

Lemma run_cons (e : Event) (es : list Event) (w : World) :
  run (e :: es) w = run es (exec (handle e) w).
Proof. reflexivity. Qed.

Lemma responses_outputs (tr : list Effect) :
  Forall is_output tr →
  omap (λ e, match e with ERespond r => Some r | _ => None end) tr = [].
Proof.
  induction 1 as [|e tr (sid & data & ->) _ IH]; [done|]. cbn. exact IH.
Qed.

Lemma pty_data_trace (h : nat) (data : string) (w : World) :
  ∃ tr, Forall is_output tr ∧
    exec (pty_data h data) w =
      mkWorld (activeSession w) (sessions w) (ptys w) (timers w)
              (nextTimer w) (now w) (trace w ++ tr).
Proof.
  unfold exec, pty_data. destruct (ptys w !! h) as [p|].
  - apply on_data_listeners_core.
  - exists []. split; [done|]. rewrite app_nil_r. by destruct w.
Qed.

Lemma elapsed_nonneg (qs : list Event) : forallb quiet qs = true → 0 <= elapsed qs.
Proof.
  induction qs as [|e qs IH]; [done|]. cbn [forallb]. intros [Hq Hqs]%andb_true_iff.
  specialize (IH Hqs). unfold elapsed in *. cbn [foldr].
  destruct e; cbn [quiet] in Hq; try done. apply Z.leb_le in Hq. lia.
Qed.

(** Once the manager is idle, a quiet run leaves it idle. *)
Lemma quiet_run_idle (qs : list Event) (w : World) :
  inv w → activeSession w = None → forallb quiet qs = true →
  inv (run qs w) ∧ activeSession (run qs w) = None ∧
  ptys (run qs w) = ptys w ∧ responses (run qs w) = responses w ∧
  ∃ tr, trace (run qs w) = trace w ++ tr.
Proof.
  revert w. induction qs as [|e qs IH]; intros w Hi Ha Hq.
  - do 4 (split; [done|]). exists []. by rewrite app_nil_r.
  - cbn [forallb] in Hq. apply andb_true_iff in Hq as [He Hq]. rewrite run_cons.
    destruct e as [| | | |h data| |ms|]; try done; cbn [handle].
    + destruct (pty_data_trace h data w) as (tr1 & Ho & Hw1).
      destruct (IH (exec (pty_data h data) w)) as (Hi' & Ha' & Hp' & Hr' & tr & Ht');
        [by apply inv_pty_data|by rewrite Hw1|done|].
      split; [done|]. split; [done|]. split; [by rewrite Hp', Hw1|].
      split.
      * rewrite Hr', (responses_app w _ tr1) by (by rewrite Hw1).
        by rewrite responses_outputs, app_nil_r.
      * exists (tr1 ++ tr). rewrite Ht', Hw1. cbn [trace].
        by rewrite app_assoc.
    + apply Z.leb_le in He.
      destruct (IH (exec (elapse ms) w)) as (Hi' & Ha' & Hp' & Hr' & tr & Ht');
        [by apply inv_elapse|by rewrite elapse_idle|done|].
      rewrite (elapse_idle ms w Hi Ha) in *.
      do 4 (split; [done|]). by exists tr.
Qed.

(** A quiet run against an active session: the session survives exactly as
    long as its idle timer is not due. *)
Lemma quiet_run_active (qs : list Event) (w : World)
    (r : nat) (s : TerminalSession) (d : Z) :
  inv w → activeSession w = Some r → sessions w !! r = Some s →
  timers w = {[ idleTimer s := mkTimer d (TcDestroySession r) ]} →
  forallb quiet qs = true →
  inv (run qs w) ∧ responses (run qs w) = responses w ∧
  (now w + elapsed qs < d →
     activeSession (run qs w) = Some r ∧ sessions (run qs w) = sessions w ∧
     timers (run qs w) = timers w) ∧
  (d <= now w + elapsed qs →
     activeSession (run qs w) = None ∧
     ptys (run qs w) = alter mark_killed (pty s) (ptys w) ∧
     ∃ tr tr', trace (run qs w) =
       trace w ++ tr ++ [EClearTimeout (idleTimer s); EKill (pty s) false;
                         EBroadcast (terminal_closed (id s))] ++ tr').
Proof.
  revert w. induction qs as [|e qs IH]; intros w Hi Ha Hs Ht Hq.
  - pose proof (inv_active_session w r Hi Ha) as (s' & p & d' & Hs' & _ & _ & _ & _ & Ht' & Hlo & _).
    assert (s' = s) as -> by congruence.
    assert (d' = d) as ->.
    { rewrite Ht in Ht'. apply (f_equal (λ m, m !! idleTimer s)) in Ht'.
      rewrite !lookup_singleton_eq in Ht'. by injection Ht'. }
    cbn. split; [done|]. split; [done|]. split; [done|]. lia.
  - cbn [forallb] in Hq. apply andb_true_iff in Hq as [He Hq]. rewrite run_cons.
    pose proof (elapsed_nonneg qs Hq) as Hnn.
    assert (timers w !! idleTimer s = Some (mkTimer d (TcDestroySession r))) as Htm
      by (by rewrite Ht, lookup_singleton_eq).
    destruct e as [| | | |h data| |ms|]; try done; cbn [handle elapsed foldr].
    + destruct (pty_data_trace h data w) as (tr1 & Ho & Hw1).
      destruct (IH (exec (pty_data h data) w)) as (Hi' & Hr' & Hlt & Hge);
        [by apply inv_pty_data|by rewrite Hw1..|done|].
      fold (elapsed qs). rewrite Hw1 in *.
      cbn [activeSession sessions ptys timers now trace] in *.
      split; [done|]. split.
      { rewrite Hr', (responses_app w _ tr1) by done.
        by rewrite responses_outputs, app_nil_r. }
      split; [done|]. intros Hd. destruct (Hge Hd) as (Ha' & Hp' & tr & tr' & Htr).
      split; [done|]. split; [done|]. exists (tr1 ++ tr), tr'.
      by rewrite Htr, <- !app_assoc.
    + apply Z.leb_le in He. fold (elapsed qs).
      destruct (Z.le_gt_cases d (now w + ms)) as [Hle|Hgt].
      * pose proof (elapse_evicts ms w r s _ Hi Ha Hs Htm Hle) as Hw1.
        destruct (quiet_run_idle qs (exec (elapse ms) w))
          as (Hi' & Ha' & Hp' & Hr' & tr' & Ht'); [by apply inv_elapse|by rewrite Hw1|done|].
        rewrite Hw1 in *. split; [done|]. split.
        { rewrite Hr'. unfold responses, destroyed. cbn [set_now trace].
          rewrite omap_app. cbn. by rewrite app_nil_r. }
        split; [lia|]. intros _. split; [done|]. split; [done|].
        exists [], tr'. rewrite Ht'. unfold destroyed. cbn [set_now trace].
        by rewrite <- !app_assoc.
      * pose proof (elapse_before ms w r s _ Hi Ha Hs Htm Hgt) as Hw1.
        destruct (IH (exec (elapse ms) w)) as (Hi' & Hr' & Hlt & Hge);
          [by apply inv_elapse|by rewrite Hw1..|done|].
        rewrite Hw1 in *.
        cbn [set_now activeSession sessions ptys timers now trace] in *.
        split; [done|]. split; [done|]. split.
        { intros Hd. apply Hlt. lia. }
        intros Hd. apply Hge. lia.
Qed.

(** * The claims about the terminal session manager *)

(** C1, as stated, fails: a [terminal.open] whose [spawn] throws leaves no
    session at all, so "after each call exactly one session is active" does
    not hold for the one-call sequence below. *)
Lemma open_spawn_failure_no_session :
  activeSession (run (opens [(∅, "u1", Some "ENOENT")]) initial) = None ∧
  live_count (run (opens [(∅, "u1", Some "ENOENT")]) initial) = 0%nat ∧
  responses (run (opens [(∅, "u1", Some "ENOENT")]) initial) =
    [RespondError UNAVAILABLE "failed to spawn PTY: ENOENT"].
Proof. by vm_compute. Qed.

(** C1 (amended): at every instant at most one session exists: in every
    state the manager reaches, and after every further [terminal.open], the
    only live pseudo-terminal is the active session's, so the number of live
    pseudo-terminals is one when a session is active and zero otherwise.
    After a [terminal.open] whose spawn succeeds exactly one session is
    active, the new one; after one whose spawn fails none is.  A
    [terminal.open] issued while a session exists destroys it first: its
    timer is cleared, its handle killed and [terminal.closed] broadcast
    before the spawn is attempted. *)
Theorem open_exclusive (es : list Event)
    (calls : list (gmap string JsValue * string * option string))
    (params : gmap string JsValue) (uuid : string) (failure : option string) :
  valid es initial = true →
  let w := run (opens calls) (run es initial) in
  let w' := exec (terminal_open params uuid failure) w in
  exclusive w ∧ exclusive w' ∧
  live_count w = match activeSession w with Some _ => 1%nat | None => 0%nat end ∧
  live_count w' = match activeSession w' with Some _ => 1%nat | None => 0%nat end ∧
  (failure = None →
     ∃ s p, activeSession w' = Some (length (sessions w)) ∧
       sessions w' !! length (sessions w) = Some s ∧ id s = uuid ∧
       ptys w' !! pty s = Some p ∧ live p = true) ∧
  (is_Some failure → activeSession w' = None) ∧
  (∀ r s, activeSession w = Some r → sessions w !! r = Some s →
     ∃ p c rws rest,
       ptys w' !! pty s = Some p ∧ killed p = true ∧
       trace w' = trace w ++
         [EClearTimeout (idleTimer s); EKill (pty s) false;
          EBroadcast (terminal_closed (id s))] ++
         match failure with
         | Some _ => ESpawnFailed c rws
         | None => ESpawn (length (ptys w)) c rws
         end :: rest).
Proof.
  intros Hv w w'.
  destruct (reachable_inv es Hv) as [Hi0 _].
  pose proof (opens_inv calls _ Hi0) as Hi. fold w in Hi.
  pose proof (inv_terminal_open params uuid failure w Hi) as Hi'. fold w' in Hi'.
  destruct (inv_after_destroy w Hi) as [Hid Had].
  split; [by apply inv_exclusive|]. split; [by apply inv_exclusive|].
  split; [by apply live_count_inv|]. split; [by apply live_count_inv|].
  split; [|split].
  - intros ->. subst w'. rewrite terminal_open_success in *.
    assert (sessions (after_destroy w) = sessions w) as Hss
      by (by apply sessions_after_destroy).
    destruct (inv_active _ Hi' _ eq_refl) as (s & p & d & Hs & Hp & Hl & _).
    unfold opened in *. cbn [activeSession sessions ptys] in *. rewrite Hss in *.
    exists s, p. split; [done|]. split; [done|].
    rewrite lookup_snoc in Hs. injection Hs as <-. cbn [id pty].
    split; [done|]. split; [|done].
    by rewrite <- (inv_len _ Hid), Hss.
  - intros [err ->]. subst w'. by rewrite terminal_open_failure.
  - intros r s Ha Hs.
    destruct (inv_active_session w r Hi Ha) as (s' & p & d & Hs' & Hpty & Hp & _).
    assert (s' = s) as -> by congruence.
    pose proof (after_destroy_active w r s Hi Ha Hs) as Hd.
    exists (mark_killed p).
    destruct failure as [err|]; subst w'.
    + rewrite terminal_open_failure, Hd. eexists _, _, _.
      unfold destroyed. cbn [emit ptys trace]. rewrite Hpty.
      split; [by rewrite list_lookup_alter_eq, Hp|]. split; [done|].
      by rewrite <- !app_assoc.
    + rewrite terminal_open_success, Hd. eexists _, _, _.
      unfold opened, destroyed. cbn [ptys trace]. rewrite Hpty.
      split; [|split; [done|]].
      * rewrite lookup_app_l by (rewrite length_alter; by eapply lookup_lt_Some).
        by rewrite list_lookup_alter_eq, Hp.
      * rewrite length_alter, <- !app_assoc. cbn. reflexivity.
Qed.

Lemma open_exclusive_witness :
  valid [Open ∅ "u1" None; Input {[ "sessionId" := JString "u1"; "data" := JString "ls" ]}]
        initial = true ∧
  activeSession
    (exec (terminal_open ∅ "u3" None)
       (run (opens [(∅, "u2", None)])
          (run [Open ∅ "u1" None;
                Input {[ "sessionId" := JString "u1"; "data" := JString "ls" ]}]
               initial))) = Some 2%nat.
Proof.
  split; [by vm_compute|].
  pose proof (open_exclusive
    [Open ∅ "u1" None; Input {[ "sessionId" := JString "u1"; "data" := JString "ls" ]}]
    [(∅, "u2", None)] ∅ "u3" None eq_refl) as (_ & _ & _ & _ & H & _).
  destruct (H eq_refl) as (s & p & Ha & _). exact Ha.
Defined.

(** C2, as stated, fails for an absent session id: the handler answers
    [INVALID_REQUEST] ("sessionId required"), not success. *)
Lemma close_absent_id_is_rejected :
  exec (terminal_close ∅) initial =
    emit (ERespond (RespondError INVALID_REQUEST "sessionId required")) initial ∧
  responses (exec (terminal_close ∅) initial) ≠ [RespondOk None].
Proof. split; [done|]. by vm_compute. Qed.

(** C2 (amended): a [terminal.close] whose [sessionId] is present (truthy)
    but matches no active session, because it differs from the active id or
    because no session exists, responds success; one whose [sessionId] is
    missing (or otherwise falsy) responds with an [INVALID_REQUEST] error.
    In both cases the response is the only effect: the slot, the session
    objects, the pseudo-terminals and the timers are unchanged and nothing
    is broadcast. *)
Theorem close_without_match (w : World) (params : gmap string JsValue) :
  (truthy (get params "sessionId") = false →
     exec (terminal_close params) w =
       emit (ERespond (RespondError INVALID_REQUEST "sessionId required")) w) ∧
  (truthy (get params "sessionId") = true →
   matching_session (get params "sessionId") w = None →
     exec (terminal_close params) w = emit (ERespond (RespondOk None)) w).
Proof.
  split; [apply terminal_close_falsy | apply terminal_close_no_match].
Qed.

Lemma close_without_match_witness :
  exec (terminal_close {[ "sessionId" := JString "stale" ]})
       (run [Open ∅ "u1" None] initial) =
    emit (ERespond (RespondOk None)) (run [Open ∅ "u1" None] initial) ∧
  exec (terminal_close {[ "sessionId" := JNull ]}) (run [Open ∅ "u1" None] initial) =
    emit (ERespond (RespondError INVALID_REQUEST "sessionId required"))
         (run [Open ∅ "u1" None] initial).
Proof.
  split.
  - apply (close_without_match (run [Open ∅ "u1" None] initial)
             {[ "sessionId" := JString "stale" ]}); by vm_compute.
  - apply (close_without_match (run [Open ∅ "u1" None] initial)
             {[ "sessionId" := JNull ]}); by vm_compute.
Defined.

(** C8, as stated, fails when a session exists: the failed [terminal.open]
    has already destroyed it, so the manager goes from [Open] to [Idle], the
    old handle is killed and [terminal.closed] is broadcast. *)
Lemma failed_open_destroys_previous :
  activeSession (run [Open ∅ "u1" None] initial) = Some 0%nat ∧
  activeSession (run [Open ∅ "u1" None; Open ∅ "u2" (Some "ENOENT")] initial) = None ∧
  (killed <$> ptys (run [Open ∅ "u1" None] initial)) = [false] ∧
  (killed <$> ptys (run [Open ∅ "u1" None; Open ∅ "u2" (Some "ENOENT")] initial))
    = [true] ∧
  trace (run [Open ∅ "u1" None; Open ∅ "u2" (Some "ENOENT")] initial) =
    trace (run [Open ∅ "u1" None] initial) ++
      [EClearTimeout 1; EKill 0 false; EBroadcast (terminal_closed "u1");
       ESpawnFailed (Fin 80) (Fin 24);
       ERespond (RespondError UNAVAILABLE "failed to spawn PTY: ENOENT")].
Proof. by vm_compute. Qed.

(** C8 (amended): when [spawn] throws, [terminal.open] responds with an
    [UNAVAILABLE] error and creates nothing: no session object, no
    pseudo-terminal (hence no subscription), no timer.  After the call the
    manager is [Idle]: the slot is empty, no timer is pending and no
    pseudo-terminal is live.  If the manager was [Idle] before, its state is
    unchanged, the failed spawn and the response being the only effects; if
    a session existed, it has been destroyed before the spawn was
    attempted. *)
Theorem failed_open_leaves_idle (es : list Event)
    (params : gmap string JsValue) (uuid err : string) :
  valid es initial = true →
  let w := run es initial in
  let w' := exec (terminal_open params uuid (Some err)) w in
  let failure_effects :=
    [ESpawnFailed (dimension (get params "cols") 80) (dimension (get params "rows") 24);
     ERespond (RespondError UNAVAILABLE ("failed to spawn PTY: " +:+ err))] in
  responses w' =
    responses w ++ [RespondError UNAVAILABLE ("failed to spawn PTY: " +:+ err)] ∧
  activeSession w' = None ∧ timers w' = ∅ ∧ live_count w' = 0%nat ∧
  sessions w' = sessions w ∧ length (ptys w') = length (ptys w) ∧
  (activeSession w = None →
     w' = mkWorld None (sessions w) (ptys w) (timers w) (nextTimer w) (now w)
            (trace w ++ failure_effects)) ∧
  (∀ r s, activeSession w = Some r → sessions w !! r = Some s →
     w' = mkWorld None (sessions w) (alter mark_killed (pty s) (ptys w)) ∅
            (nextTimer w) (now w)
            (trace w ++ [EClearTimeout (idleTimer s); EKill (pty s) false;
                         EBroadcast (terminal_closed (id s))] ++ failure_effects)).
Proof.
  intros Hv w w' fx.
  destruct (reachable_inv es Hv) as [Hi _]. fold w in Hi.
  pose proof (inv_terminal_open params uuid (Some err) w Hi) as Hi'. fold w' in Hi'.
  assert (activeSession w' = None) as Ha'.
  { subst w'. rewrite terminal_open_failure. by destruct (inv_after_destroy w Hi). }
  assert (w' = emit (ERespond (RespondError UNAVAILABLE ("failed to spawn PTY: " +:+ err)))
                 (emit (ESpawnFailed (dimension (get params "cols") 80)
                                     (dimension (get params "rows") 24))
                    (after_destroy w))) as Hw' by apply terminal_open_failure.
  assert (∀ r s, activeSession w = Some r → sessions w !! r = Some s →
     w' = mkWorld None (sessions w) (alter mark_killed (pty s) (ptys w)) ∅
            (nextTimer w) (now w)
            (trace w ++ [EClearTimeout (idleTimer s); EKill (pty s) false;
                         EBroadcast (terminal_closed (id s))] ++ fx)) as Hopen.
  { intros r s Ha Hs. rewrite Hw', (after_destroy_active w r s Hi Ha Hs).
    destruct (inv_active_session w r Hi Ha) as (s' & _ & d & Hs' & _ & _ & _ & _ & Ht & _).
    assert (s' = s) as -> by congruence.
    unfold destroyed, emit. cbn. rewrite Ht, delete_singleton_eq, <- !app_assoc. done. }
  assert (activeSession w = None →
     w' = mkWorld None (sessions w) (ptys w) (timers w) (nextTimer w) (now w)
            (trace w ++ fx)) as Hidle.
  { intros Ha. rewrite Hw', (after_destroy_idle w Ha).
    unfold emit. cbn. rewrite Ha, <- !app_assoc. done. }
  split; [|split; [done|]]; [|split; [by apply (inv_idle w')|]];
    [|split; [by rewrite (live_count_inv w' Hi'), Ha'|]];
    [|split; [|split]]; [| | |split; [done|done]].
  - destruct (activeSession w) as [r|] eqn:Ha.
    + destruct (inv_active_session w r Hi Ha) as (s & _ & _ & Hs & _).
      rewrite (responses_app w w' _ (f_equal trace (Hopen r s eq_refl Hs))). done.
    + rewrite (responses_app w w' _ (f_equal trace (Hidle eq_refl))). done.
  - rewrite Hw'. cbn [emit sessions]. by apply sessions_after_destroy.
  - destruct (activeSession w) as [r|] eqn:Ha.
    + destruct (inv_active_session w r Hi Ha) as (s & _ & _ & Hs & _).
      rewrite (Hopen r s eq_refl Hs). cbn. by rewrite length_alter.
    + by rewrite (Hidle eq_refl).
Qed.

Lemma failed_open_leaves_idle_witness :
  valid [Open ∅ "u1" None] initial = true ∧
  activeSession (exec (terminal_open ∅ "u2" (Some "ENOENT"))
                   (run [Open ∅ "u1" None] initial)) = None.
Proof.
  split; [by vm_compute|].
  exact (proj1 (proj2 (failed_open_leaves_idle [Open ∅ "u1" None] ∅ "u2" "ENOENT"
                         eq_refl))).
Defined.

(** *** Addressing the active session *)

Lemma get_input_params (sid data : string) :
  get (input_params sid data) "sessionId" = JString sid ∧
  get (input_params sid data) "data" = JString data.
Proof.
  unfold get, input_params.
  by repeat (rewrite lookup_insert_eq || rewrite lookup_insert_ne by done).
Qed.

Lemma get_resize_params (sid : string) (cols rows : number) :
  get (resize_params sid cols rows) "sessionId" = JString sid ∧
  get (resize_params sid cols rows) "cols" = JNumber cols ∧
  get (resize_params sid cols rows) "rows" = JNumber rows.
Proof.
  unfold get, resize_params.
  by repeat (rewrite lookup_insert_eq || rewrite lookup_insert_ne by done).
Qed.

Lemma get_close_params (sid : string) :
  get (close_params sid) "sessionId" = JString sid.
Proof. unfold get, close_params. by rewrite lookup_singleton_eq. Qed.

Lemma truthy_JString (sid : string) : sid ≠ "" → truthy (JString sid) = true.
Proof. intros H. cbn. by destruct (String.eqb_spec sid ""). Qed.

Lemma matching_session_self (w : World) (r : nat) (s : TerminalSession) :
  activeSession w = Some r → sessions w !! r = Some s →
  matching_session (JString (id s)) w = Some (r, s).
Proof.
  intros Ha Hs. unfold matching_session. rewrite Ha, Hs. cbn.
  by rewrite String.eqb_refl.
Qed.

Lemma matching_session_other (w : World) (r : nat) (s : TerminalSession) (sid : string) :
  activeSession w = Some r → sessions w !! r = Some s → sid ≠ id s →
  matching_session (JString sid) w = None.
Proof.
  intros Ha Hs Hne. unfold matching_session. rewrite Ha, Hs. cbn.
  by destruct (String.eqb_spec sid (id s)).
Qed.

Lemma matching_session_idle (v : JsValue) (w : World) :
  activeSession w = None → matching_session v w = None.
Proof. intros Ha. unfold matching_session. by rewrite Ha. Qed.

Lemma terminal_input_match params (w : World) r s data :
  truthy (get params "sessionId") = true → get params "data" = JString data →
  matching_session (get params "sessionId") w = Some (r, s) →
  exec (terminal_input params) w =
    emit (ERespond (RespondOk None)) (rearmed r s (exec (pty_write (pty s) data) w)).
Proof.
  intros Ht Hd Hm. unfold terminal_input. rewrite Ht, Hd. cbn [typeof_string].
  destruct (matching_session_Some _ _ _ _ Hm) as (Ha & Hs & _).
  rewrite <- (resetIdleTimer_spec _ r s) by done.
  lazy beta iota zeta delta [exec mbind M_bind gets fst snd]. rewrite Hm.
  destruct (pty_write (pty s) data w) as [[] w1].
  by destruct (resetIdleTimer r w1) as [[] w2].
Qed.

Lemma terminal_input_no_match params (w : World) data :
  truthy (get params "sessionId") = true → get params "data" = JString data →
  matching_session (get params "sessionId") w = None →
  exec (terminal_input params) w =
    emit (ERespond (RespondError INVALID_REQUEST "no active terminal session")) w.
Proof.
  intros Ht Hd Hm. unfold terminal_input. rewrite Ht, Hd. cbn [typeof_string].
  lazy beta iota zeta delta [exec mbind M_bind gets fst snd]. by rewrite Hm.
Qed.

Lemma terminal_resize_no_match params (w : World) cols rows :
  truthy (get params "sessionId") = true →
  get params "cols" = JNumber cols → get params "rows" = JNumber rows →
  matching_session (get params "sessionId") w = None →
  exec (terminal_resize params) w =
    emit (ERespond (RespondError INVALID_REQUEST "no active terminal session")) w.
Proof.
  intros Ht Hc Hr Hm. unfold terminal_resize. rewrite Ht, Hc, Hr. cbn [typeof_number].
  lazy beta iota zeta delta [exec mbind M_bind gets fst snd]. by rewrite Hm.
Qed.

Lemma terminal_resize_match params (w : World) r s cols rows :
  truthy (get params "sessionId") = true →
  get params "cols" = JNumber cols → get params "rows" = JNumber rows →
  matching_session (get params "sessionId") w = Some (r, s) →
  unbounded cols || unbounded rows = false →
  exec (terminal_resize params) w =
    emit (ERespond (RespondOk None))
      (rearmed r s
         (exec (pty_resize (pty s) (Math_max (Fin 1) (Math_floor cols))
                                   (Math_max (Fin 1) (Math_floor rows))) w)).
Proof.
  intros Ht Hc Hr Hm Hx. rewrite <- resize_refused_clamp in Hx.
  unfold terminal_resize. rewrite Ht, Hc, Hr. cbn [typeof_number].
  destruct (matching_session_Some _ _ _ _ Hm) as (Ha & Hs & _).
  rewrite <- (resetIdleTimer_spec _ r s)
    by (unfold exec; by rewrite (pty_resize_accepted _ _ _ _ Hx)).
  lazy beta iota zeta delta [exec mbind M_bind gets fst snd]. rewrite Hm.
  rewrite !(pty_resize_accepted _ _ _ _ Hx).
  lazy beta iota zeta delta [mbind M_bind fst snd].
  by destruct (resetIdleTimer r _) as [[] w2].
Qed.

Lemma terminal_resize_throws params (w : World) r s cols rows :
  truthy (get params "sessionId") = true →
  get params "cols" = JNumber cols → get params "rows" = JNumber rows →
  matching_session (get params "sessionId") w = Some (r, s) →
  unbounded cols || unbounded rows = true →
  exec (terminal_resize params) w =
    emit (EResizeFailed (pty s) (Math_max (Fin 1) (Math_floor cols))
                                (Math_max (Fin 1) (Math_floor rows))) w.
Proof.
  intros Ht Hc Hr Hm Hx. rewrite <- resize_refused_clamp in Hx.
  unfold terminal_resize. rewrite Ht, Hc, Hr. cbn [typeof_number].
  lazy beta iota zeta delta [exec mbind M_bind gets fst snd]. rewrite Hm.
  rewrite (pty_resize_refused _ _ _ _ Hx).
  by lazy beta iota zeta delta [mret M_ret snd].
Qed.


Lemma terminal_open_observations params uuid (w : World) :
  let w' := exec (terminal_open params uuid None) w in
  let cols := dimension (get params "cols") 80 in
  let rows := dimension (get params "rows") 24 in
  let r := length (sessions (after_destroy w)) in
  activeSession w' = Some r ∧
  last (ptys w') = Some (mkPty cols rows false false [] [r] [r]) ∧
  last (responses w') = Some (RespondOk (Some (mkOpenPayload uuid cols rows))).
Proof.
  cbn zeta. rewrite terminal_open_success. unfold opened, responses.
  cbn [activeSession ptys trace]. split; [done|]. split; [by rewrite last_snoc|].
  rewrite omap_app. cbn. by rewrite last_snoc.
Qed.





(** After [resetIdleTimer] the only pending timer is the session's, due a
    full idle window from now. *)
Lemma rearmed_timer (w : World) (r : nat) (s : TerminalSession) :
  inv w → activeSession w = Some r → sessions w !! r = Some s →
  activeSession (rearmed r s w) = Some r ∧
  sessions (rearmed r s w) !! r = Some (mkSession (id s) (pty s) (nextTimer w)) ∧
  timers (rearmed r s w) =
    {[ nextTimer w := mkTimer (now w + IDLE_TIMEOUT_MS) (TcDestroySession r) ]}.
Proof.
  intros Hi Ha Hs.
  destruct (inv_active_session w r Hi Ha) as (s' & _ & d & Hs' & _ & _ & _ & _ & Ht & _).
  assert (s' = s) as -> by congruence.
  unfold rearmed. cbn [activeSession sessions timers].
  split; [done|]. split; [by rewrite list_lookup_alter_eq, Hs|].
  by rewrite Ht, delete_singleton_eq.
Qed.

Lemma pty_data_core (h : nat) (data : string) (w : World) :
  activeSession (exec (pty_data h data) w) = activeSession w ∧
  sessions (exec (pty_data h data) w) = sessions w ∧
  timers (exec (pty_data h data) w) = timers w ∧
  now (exec (pty_data h data) w) = now w.
Proof.
  unfold exec, pty_data. destruct (ptys w !! h) as [p|]; [|done].
  destruct (on_data_listeners_core data (onData p) w) as (tr & _ & Htr).
  unfold exec in Htr. by rewrite Htr.
Qed.

(** Helpers for C9: what an accepted [terminal.input] and an accepted
    [terminal.resize] leave behind. *)
Lemma accepted_input_rearms (w : World) (r : nat) (s : TerminalSession) params data :
  inv w → activeSession w = Some r → sessions w !! r = Some s → id s ≠ "" →
  get params "sessionId" = JString (id s) → get params "data" = JString data →
  responses (exec (terminal_input params) w) = responses w ++ [RespondOk None] ∧
  activeSession (exec (terminal_input params) w) = Some r ∧
  sessions (exec (terminal_input params) w) !! r =
    Some (mkSession (id s) (pty s) (nextTimer w)) ∧
  timers (exec (terminal_input params) w) =
    {[ nextTimer w := mkTimer (now w + IDLE_TIMEOUT_MS) (TcDestroySession r) ]}.
Proof.
  intros Hi Ha Hs Hne Hsid Hd.
  rewrite (terminal_input_match params w r s data);
    [|rewrite Hsid; by apply truthy_JString|done
     |rewrite Hsid; by apply matching_session_self].
  pose proof (inv_alter_pty
    (λ p, mkPty (pty_cols p) (pty_rows p) (killed p) (exited p)
                (written p ++ [data]) (onData p) (onExit p)) (pty s) w) as Hi1.
  destruct (rearmed_timer (exec (pty_write (pty s) data) w) r s) as (H1 & H2 & H3).
  { eapply inv_same; [..|apply Hi1]; done. }
  { done. } { done. }
  rewrite responses_emit_respond, responses_rearmed.
  split; [|done]. f_equal. unfold responses, exec, pty_write, emit. cbn [snd trace].
  rewrite omap_app. cbn. by rewrite app_nil_r.
Qed.

Lemma accepted_resize_rearms (w : World) (r : nat) (s : TerminalSession) params cols rows :
  inv w → activeSession w = Some r → sessions w !! r = Some s → id s ≠ "" →
  get params "sessionId" = JString (id s) →
  get params "cols" = JNumber cols → get params "rows" = JNumber rows →
  unbounded cols || unbounded rows = false →
  responses (exec (terminal_resize params) w) = responses w ++ [RespondOk None] ∧
  activeSession (exec (terminal_resize params) w) = Some r ∧
  sessions (exec (terminal_resize params) w) !! r =
    Some (mkSession (id s) (pty s) (nextTimer w)) ∧
  timers (exec (terminal_resize params) w) =
    {[ nextTimer w := mkTimer (now w + IDLE_TIMEOUT_MS) (TcDestroySession r) ]}.
Proof.
  intros Hi Ha Hs Hne Hsid Hc Hr Hx.
  rewrite (terminal_resize_match params w r s cols rows);
    [|rewrite Hsid; by apply truthy_JString|done|done
     |rewrite Hsid; by apply matching_session_self|done].
  unfold exec. rewrite pty_resize_accepted by (by rewrite resize_refused_clamp). cbn [snd].
  pose proof (inv_alter_pty
    (λ p, mkPty (Math_max (Fin 1) (Math_floor cols)) (Math_max (Fin 1) (Math_floor rows))
                (killed p) (exited p) (written p) (onData p) (onExit p)) (pty s) w) as Hi1.
  destruct (rearmed_timer
    (emit (EResize (pty s) (Math_max (Fin 1) (Math_floor cols))
                           (Math_max (Fin 1) (Math_floor rows)))
       (set_ptys (alter (λ p, mkPty (Math_max (Fin 1) (Math_floor cols))
                                    (Math_max (Fin 1) (Math_floor rows))
                                    (killed p) (exited p) (written p) (onData p) (onExit p))
                        (pty s) (ptys w)) w)) r s) as (H1 & H2 & H3).
  { eapply inv_same; [..|apply Hi1]; done. }
  { done. } { done. }
  rewrite responses_emit_respond, responses_rearmed.
  split; [|done]. f_equal. unfold responses, emit. cbn [trace].
  rewrite omap_app. cbn. by rewrite app_nil_r.
Qed.

(** C9: in every state the manager reaches, a [terminal.input] with string
    data and a [terminal.resize] with dimensions the pseudo-terminal accepts,
    carrying the id of the active session, are answered success and leave
    that session with exactly one pending timer, its idle timer, due
    [IDLE_TIMEOUT_MS] (ten minutes) after the call and set to destroy that
    session; conversely every [terminal.input] or [terminal.resize] that is
    answered success has done so.  A resize the pseudo-terminal refuses is
    not answered and leaves the timer as it was.  Output of the
    pseudo-terminal is not activity: it leaves the timer alone.  While a
    session is active its idle timer is pending and due at most ten minutes
    ahead; if time passes without a request or a pseudo-terminal event, the
    session survives as long as the timer is not due, and once it is due the
    session is destroyed: timer cleared, handle killed, slot emptied and
    [terminal.closed] broadcast, with no response sent.  The same holds for
    any run of time passing and pseudo-terminal output: the session is
    active at its end exactly if less time has passed than the timer
    allowed. *)
Theorem idle_eviction (es : list Event) :
  valid es initial = true →
  let w := run es initial in
  IDLE_TIMEOUT_MS = 10 * 60 * 1000 ∧
  (∀ r s params data,
     activeSession w = Some r → sessions w !! r = Some s → id s ≠ "" →
     get params "sessionId" = JString (id s) → get params "data" = JString data →
     responses (exec (terminal_input params) w) = responses w ++ [RespondOk None] ∧
     activeSession (exec (terminal_input params) w) = Some r ∧
     sessions (exec (terminal_input params) w) !! r =
       Some (mkSession (id s) (pty s) (nextTimer w)) ∧
     timers (exec (terminal_input params) w) =
       {[ nextTimer w := mkTimer (now w + IDLE_TIMEOUT_MS) (TcDestroySession r) ]}) ∧
  (∀ r s params cols rows,
     activeSession w = Some r → sessions w !! r = Some s → id s ≠ "" →
     get params "sessionId" = JString (id s) →
     get params "cols" = JNumber cols → get params "rows" = JNumber rows →
     (unbounded cols || unbounded rows = false →
        responses (exec (terminal_resize params) w) = responses w ++ [RespondOk None] ∧
        activeSession (exec (terminal_resize params) w) = Some r ∧
        sessions (exec (terminal_resize params) w) !! r =
          Some (mkSession (id s) (pty s) (nextTimer w)) ∧
        timers (exec (terminal_resize params) w) =
          {[ nextTimer w := mkTimer (now w + IDLE_TIMEOUT_MS) (TcDestroySession r) ]}) ∧
     (unbounded cols || unbounded rows = true →
        responses (exec (terminal_resize params) w) = responses w ∧
        activeSession (exec (terminal_resize params) w) = Some r ∧
        sessions (exec (terminal_resize params) w) = sessions w ∧
        timers (exec (terminal_resize params) w) = timers w)) ∧
  (∀ params,
     responses (exec (terminal_input params) w) = responses w ++ [RespondOk None] →
     ∃ r s, activeSession w = Some r ∧
       activeSession (exec (terminal_input params) w) = Some r ∧
       sessions (exec (terminal_input params) w) !! r = Some s ∧
       timers (exec (terminal_input params) w) =
         {[ idleTimer s := mkTimer (now w + IDLE_TIMEOUT_MS) (TcDestroySession r) ]}) ∧
  (∀ params,
     responses (exec (terminal_resize params) w) = responses w ++ [RespondOk None] →
     ∃ r s, activeSession w = Some r ∧
       activeSession (exec (terminal_resize params) w) = Some r ∧
       sessions (exec (terminal_resize params) w) !! r = Some s ∧
       timers (exec (terminal_resize params) w) =
         {[ idleTimer s := mkTimer (now w + IDLE_TIMEOUT_MS) (TcDestroySession r) ]}) ∧
  (∀ h data,
     activeSession (exec (pty_data h data) w) = activeSession w ∧
     sessions (exec (pty_data h data) w) = sessions w ∧
     timers (exec (pty_data h data) w) = timers w ∧
     now (exec (pty_data h data) w) = now w) ∧
  (∀ r s, activeSession w = Some r → sessions w !! r = Some s →
     ∃ p d,
       ptys w !! pty s = Some p ∧ live p = true ∧
       timers w = {[ idleTimer s := mkTimer d (TcDestroySession r) ]} ∧
       now w < d ∧ d <= now w + IDLE_TIMEOUT_MS ∧
       (∀ ms, 0 <= ms → now w + ms < d →
          exec (elapse ms) w = set_now (now w + ms) w) ∧
       (∀ ms, d <= now w + ms →
          exec (elapse ms) w =
            mkWorld None (sessions w) (alter mark_killed (pty s) (ptys w)) ∅
              (nextTimer w) (now w + ms)
              (trace w ++ [EClearTimeout (idleTimer s); EKill (pty s) false;
                           EBroadcast (terminal_closed (id s))]) ∧
          responses (exec (elapse ms) w) = responses w ∧
          live_count (exec (elapse ms) w) = 0%nat) ∧
       (∀ qs, forallb quiet qs = true →
          responses (run qs w) = responses w ∧
          (now w + elapsed qs < d → activeSession (run qs w) = Some r) ∧
          (d <= now w + elapsed qs →
             activeSession (run qs w) = None ∧ timers (run qs w) = ∅ ∧
             live_count (run qs w) = 0%nat ∧
             ptys (run qs w) = alter mark_killed (pty s) (ptys w) ∧
             ∃ tr tr', trace (run qs w) =
               trace w ++ tr ++ [EClearTimeout (idleTimer s); EKill (pty s) false;
                                 EBroadcast (terminal_closed (id s))] ++ tr'))).
Proof.
  intros Hv w. destruct (reachable_inv es Hv) as [Hi _]. fold w in Hi.
  split; [done|].
  split; [intros r s params data Ha Hs Hne Hsid Hd;
          by apply (accepted_input_rearms w r s params data)|].
  split.
  { intros r s params cols rows Ha Hs Hne Hsid Hc Hr. split.
    - intros Hx. by apply (accepted_resize_rearms w r s params cols rows).
    - intros Hx.
      rewrite (terminal_resize_throws params w r s cols rows);
        [|rewrite Hsid; by apply truthy_JString|done|done
         |rewrite Hsid; by apply matching_session_self|done].
      split; [by apply responses_emit_other|done]. }
  split; [|split; [|split; [intros h data; apply pty_data_core|]]].
  - intros params Hr.
    destruct (terminal_input_cases params w) as [[msg He]|(r & s & data & Hm & He)].
    + rewrite He, responses_emit_respond in Hr. by apply app_inj_tail in Hr as [_ [=]].
    + apply matching_session_Some in Hm as (Ha & Hs & _).
      pose proof (inv_alter_pty
        (λ p, mkPty (pty_cols p) (pty_rows p) (killed p) (exited p)
                    (written p ++ [data]) (onData p) (onExit p)) (pty s) w) as Hi1.
      destruct (rearmed_timer (exec (pty_write (pty s) data) w) r s) as (H1 & H2 & H3).
      { eapply inv_same; [..|apply Hi1]; done. }
      { done. } { done. }
      exists r, (mkSession (id s) (pty s) (nextTimer w)).
      rewrite He. cbn [emit activeSession sessions timers]. done.
  - intros params Hr.
    destruct (terminal_resize_cases params w)
      as [[msg He]|[(r & s & cols & rows & Hm & _ & _ & Hx & He)
                   |(r & s & cols & rows & _ & _ & _ & _ & _ & He)]].
    + rewrite He, responses_emit_respond in Hr. by apply app_inj_tail in Hr as [_ [=]].
    + apply matching_session_Some in Hm as (Ha & Hs & _).
      unfold exec in He. rewrite (pty_resize_accepted _ _ _ _ Hx) in He. cbn [snd] in He.
      pose proof (inv_alter_pty
        (λ p, mkPty (Math_max (Fin 1) (Math_floor cols))
                    (Math_max (Fin 1) (Math_floor rows))
                    (killed p) (exited p) (written p) (onData p) (onExit p))
        (pty s) w) as Hi1.
      destruct (rearmed_timer
        (emit (EResize (pty s) (Math_max (Fin 1) (Math_floor cols))
                               (Math_max (Fin 1) (Math_floor rows)))
           (set_ptys (alter (λ p, mkPty (Math_max (Fin 1) (Math_floor cols))
                                        (Math_max (Fin 1) (Math_floor rows))
                                        (killed p) (exited p) (written p)
                                        (onData p) (onExit p))
                            (pty s) (ptys w)) w)) r s)
        as (H1 & H2 & H3).
      { eapply inv_same; [..|apply Hi1]; done. }
      { done. } { done. }
      exists r, (mkSession (id s) (pty s) (nextTimer w)).
      unfold exec. rewrite He. cbn [emit activeSession sessions timers]. done.
    + rewrite He, responses_emit_other in Hr by done.
      apply (f_equal length) in Hr. rewrite length_app in Hr. cbn in Hr. lia.
  - intros r s Ha Hs.
    destruct (inv_active w Hi r Ha) as (s' & p & d & Hs' & Hp & Hl & Ht & Hlo & Hhi).
    assert (s' = s) as -> by congruence.
    pose proof (inv_pty w Hi r s Hs) as Hpty.
    assert (timers w !! idleTimer s = Some (mkTimer d (TcDestroySession r))) as Htm
      by (by rewrite Ht, lookup_singleton_eq).
    exists p, d. rewrite Hpty. do 5 (split; [done|]). split; [|split].
    + intros ms _ Hlt. by apply (elapse_before ms w r s _ Hi Ha Hs Htm).
    + intros ms Hle.
      pose proof (elapse_evicts ms w r s _ Hi Ha Hs Htm Hle) as He.
      assert (exec (elapse ms) w =
        mkWorld None (sessions w) (alter mark_killed r (ptys w)) ∅
          (nextTimer w) (now w + ms)
          (trace w ++ [EClearTimeout (idleTimer s); EKill r false;
                       EBroadcast (terminal_closed (id s))])) as He'.
      { rewrite He. unfold destroyed, set_now. cbn. rewrite Hpty, Ht.
        by rewrite delete_singleton_eq. }
      split; [done|]. split.
      * rewrite (responses_app w _ _ (f_equal trace He')). cbn. by rewrite app_nil_r.
      * rewrite live_count_inv.
        -- by rewrite He'.
        -- rewrite He. apply inv_set_now; [by apply (inv_destroyed w r s)|cbn; lia|done].
    + intros qs Hq.
      destruct (quiet_run_active qs w r s d Hi Ha Hs Ht Hq) as (Hi' & Hr' & Hlt & Hge).
      rewrite Hpty in Hge. split; [done|]. split; [by intros Hd; apply Hlt|].
      intros Hd. destruct (Hge Hd) as (Ha' & Hp' & Htr).
      split; [done|]. split; [by apply (inv_idle _ Hi')|].
      split; [by rewrite (live_count_inv _ Hi'), Ha'|]. done.
Qed.

Lemma idle_eviction_witness :
  timers (exec (terminal_input (input_params "u1" "ls"))
            (run [Open ∅ "u1" None; Elapse 599999] initial)) =
    {[ nextTimer (run [Open ∅ "u1" None; Elapse 599999] initial) :=
         mkTimer (now (run [Open ∅ "u1" None; Elapse 599999] initial) + IDLE_TIMEOUT_MS)
                 (TcDestroySession 0) ]} ∧
  timers (exec (terminal_resize (resize_params "u1" (Fin 120) (Fin 40)))
            (run [Open ∅ "u1" None; Elapse 599999; Input (input_params "u1" "ls");
                  Elapse 599999] initial)) =
    {[ nextTimer (run [Open ∅ "u1" None; Elapse 599999; Input (input_params "u1" "ls");
                       Elapse 599999] initial) :=
         mkTimer (now (run [Open ∅ "u1" None; Elapse 599999; Input (input_params "u1" "ls");
                            Elapse 599999] initial) + IDLE_TIMEOUT_MS)
                 (TcDestroySession 0) ]} ∧
  timers (exec (terminal_resize (resize_params "u1" NaN (Fin 40)))
            (run [Open ∅ "u1" None; Elapse 599999; Input (input_params "u1" "ls");
                  Elapse 599999] initial)) =
    timers (run [Open ∅ "u1" None; Elapse 599999; Input (input_params "u1" "ls");
                 Elapse 599999] initial) ∧
  activeSession
    (run [Open ∅ "u1" None; Elapse 599999; Input (input_params "u1" "ls"); Elapse 599999;
          Resize (resize_params "u1" (Fin 120) (Fin 40)); Elapse 599999] initial) =
    Some 0%nat ∧
  activeSession
    (exec (elapse 1)
       (run [Open ∅ "u1" None; Elapse 599999; Input (input_params "u1" "ls"); Elapse 599999;
             Resize (resize_params "u1" (Fin 120) (Fin 40)); Elapse 599999] initial)) = None.
Proof.
  split.
  { destruct (idle_eviction [Open ∅ "u1" None; Elapse 599999] eq_refl)
      as (_ & H & _).
    destruct (H 0%nat (mkSession "u1" 0 1) (input_params "u1" "ls") "ls")
      as (_ & _ & _ & Ht); [by vm_compute..|].
    exact Ht. }
  split; [|split].
  { destruct (idle_eviction [Open ∅ "u1" None; Elapse 599999; Input (input_params "u1" "ls");
                             Elapse 599999] eq_refl) as (_ & _ & H & _).
    destruct (H 0%nat (mkSession "u1" 0 2) (resize_params "u1" (Fin 120) (Fin 40))
                (Fin 120) (Fin 40)) as [H1 _]; [by vm_compute..|].
    destruct (H1 eq_refl) as (_ & _ & _ & Ht). exact Ht. }
  { destruct (idle_eviction [Open ∅ "u1" None; Elapse 599999; Input (input_params "u1" "ls");
                             Elapse 599999] eq_refl) as (_ & _ & H & _).
    destruct (H 0%nat (mkSession "u1" 0 2) (resize_params "u1" NaN (Fin 40))
                NaN (Fin 40)) as [_ H2]; [by vm_compute..|].
    destruct (H2 eq_refl) as (_ & _ & _ & Ht). exact Ht. }
  split; [by vm_compute|].
  destruct (idle_eviction
    [Open ∅ "u1" None; Elapse 599999; Input (input_params "u1" "ls"); Elapse 599999;
     Resize (resize_params "u1" (Fin 120) (Fin 40)); Elapse 599999] eq_refl)
    as (_ & _ & _ & _ & _ & _ & H).
  destruct (H 0%nat (mkSession "u1" 0 3)) as (p & d & _ & _ & Ht & _ & _ & _ & Hev & _);
    [by vm_compute..|].
  assert (d = 1799998) as ->.
  { apply (f_equal (λ m, due <$> m !! 3%nat)) in Ht.
    rewrite lookup_singleton_eq in Ht. vm_compute in Ht. by injection Ht as <-. }
  destruct (Hev 1) as (-> & _); [by vm_compute|]. done.
Defined.

(** * The claims about the restart coordinator *)

Lemma request_all_deferred_signals reqs (c : Coordinator) :
  signals (request_all_deferred reqs c) = signals c.
Proof.
  unfold request_all_deferred.
  revert c. induction reqs as [|[plan config] reqs IH]; intros c; [done|].
  cbn [foldl]. rewrite IH.
  unfold requestGatewayRestart. cbn [fst snd]. by destruct (restartGateway plan).
Qed.

(** C3: a request with [restartGateway = true] made while the gate answers
    true emits no signal; it is held as the Deferred Restart State.  Further
    requests made while the gate is active emit nothing either.  The next
    [flushDeferredRestart] emits exactly one signal, carrying the held plan
    and config, and empties the state. *)
Theorem restart_deferral (c : Coordinator) (plan : GatewayReloadPlan) (config : Config) :
  restartGateway plan = true →
  let c1 := requestGatewayRestart plan config true c in
  signals c1 = signals c ∧
  deferred c1 = Some (plan, config) ∧
  (∀ reqs, signals (request_all_deferred reqs c1) = signals c) ∧
  signals (flushDeferredRestart c1) = signals c ++ [(plan, config)] ∧
  deferred (flushDeferredRestart c1) = None.
Proof.
  intros Hr c1. subst c1. unfold requestGatewayRestart. rewrite Hr.
  split; [done|]. split; [done|]. split; [|done].
  intros reqs. by rewrite request_all_deferred_signals.
Qed.

Lemma restart_deferral_witness :
  restartGateway (makePlan ["gateway.mode changed"]) = true ∧
  signals (requestGatewayRestart (makePlan ["gateway.mode changed"]) makeConfig true
             fresh_coordinator) = [] ∧
  signals (flushDeferredRestart
             (requestGatewayRestart (makePlan ["gateway.mode changed"]) makeConfig true
                fresh_coordinator)) = [(makePlan ["gateway.mode changed"], makeConfig)].
Proof.
  split; [reflexivity|].
  destruct (restart_deferral fresh_coordinator (makePlan ["gateway.mode changed"])
              makeConfig eq_refl) as (H1 & _ & _ & H2 & _).
  split; [exact H1 | exact H2].
Defined.

(** C4 as stated fails when a restart is held: a request made while the
    gate was active is held; a second request made once the gate answers
    false is signalled within its call, but the Deferred Restart State is
    not empty afterwards: it still holds the first pair, and the next
    [flushDeferredRestart] emits a second signal for it. *)
Lemma immediate_request_keeps_held_restart :
  restartGateway (makePlan ["second change"]) = true ∧
  deferred (requestGatewayRestart (makePlan ["second change"]) makeConfig false
              (requestGatewayRestart (makePlan ["first change"]) makeConfig true
                 fresh_coordinator)) = Some (makePlan ["first change"], makeConfig) ∧
  deferred (requestGatewayRestart (makePlan ["second change"]) makeConfig false
              (requestGatewayRestart (makePlan ["first change"]) makeConfig true
                 fresh_coordinator)) ≠ None ∧
  signals (flushDeferredRestart
             (requestGatewayRestart (makePlan ["second change"]) makeConfig false
                (requestGatewayRestart (makePlan ["first change"]) makeConfig true
                   fresh_coordinator))) =
    [(makePlan ["second change"], makeConfig); (makePlan ["first change"], makeConfig)].
Proof. by repeat split. Qed.

(** C4, amended: a request with [restartGateway = true] made while the gate
    answers false emits the signal within the call, for that plan and
    config, and queues nothing: the Deferred Restart State is left as it
    was.  It is therefore empty after the call whenever it was empty before,
    and then a flush has nothing to emit; a restart held from an earlier
    request stays held, and the next [flushDeferredRestart] emits it after
    the signal of this call and empties the state. *)
Theorem restart_immediacy (c : Coordinator) (plan : GatewayReloadPlan) (config : Config) :
  restartGateway plan = true →
  let c1 := requestGatewayRestart plan config false c in
  signals c1 = signals c ++ [(plan, config)] ∧
  deferred c1 = deferred c ∧
  (deferred c = None → deferred c1 = None ∧ flushDeferredRestart c1 = c1) ∧
  (∀ held, deferred c = Some held →
     deferred c1 = Some held ∧
     signals (flushDeferredRestart c1) = signals c ++ [(plan, config); held] ∧
     deferred (flushDeferredRestart c1) = None).
Proof.
  intros Hr c1. subst c1. unfold requestGatewayRestart. rewrite Hr.
  do 2 (split; [done|]). split.
  - intros Hd. split; [done|]. unfold flushDeferredRestart. cbn [deferred]. by rewrite Hd.
  - intros held Hd. split; [done|]. unfold flushDeferredRestart. cbn [deferred signals].
    rewrite Hd. cbn [deferred signals]. by rewrite <- app_assoc.
Qed.

Lemma restart_immediacy_witness :
  restartGateway (makePlan ["gateway.mode changed"]) = true ∧
  requestGatewayRestart (makePlan ["gateway.mode changed"]) makeConfig false
    fresh_coordinator =
  {| deferred := None;
     signals := [(makePlan ["gateway.mode changed"], makeConfig)] |}.
Proof.
  split; [reflexivity|].
  destruct (restart_immediacy fresh_coordinator (makePlan ["gateway.mode changed"])
              makeConfig eq_refl) as (H1 & H2 & _).
  destruct (requestGatewayRestart _ _ _ _) as [d s]. cbn in H1, H2. by subst.
Defined.

(** C5: of two requests with [restartGateway = true] made while the gate is
    active, the second replaces the first as the held pair; nothing is
    signalled meanwhile, and one [flushDeferredRestart] then emits exactly
    one signal, carrying the second plan and config. *)
Theorem latest_wins (c : Coordinator)
    (plan1 plan2 : GatewayReloadPlan) (config1 config2 : Config) :
  restartGateway plan1 = true → restartGateway plan2 = true →
  let c2 := requestGatewayRestart plan2 config2 true
              (requestGatewayRestart plan1 config1 true c) in
  deferred c2 = Some (plan2, config2) ∧
  signals c2 = signals c ∧
  signals (flushDeferredRestart c2) = signals c ++ [(plan2, config2)] ∧
  deferred (flushDeferredRestart c2) = None.
Proof.
  intros H1 H2 c2. subst c2. unfold requestGatewayRestart. by rewrite H1, H2.
Qed.

Lemma latest_wins_witness :
  restartGateway (makePlan ["first change"]) = true ∧
  restartGateway (makePlan ["second change"]) = true ∧
  signals (flushDeferredRestart
             (requestGatewayRestart (makePlan ["second change"]) makeConfig true
                (requestGatewayRestart (makePlan ["first change"]) makeConfig true
                   fresh_coordinator))) = [(makePlan ["second change"], makeConfig)].
Proof.
  split; [reflexivity|]. split; [reflexivity|].
  exact (proj1 (proj2 (proj2 (latest_wins fresh_coordinator
           (makePlan ["first change"]) (makePlan ["second change"])
           makeConfig makeConfig eq_refl eq_refl)))).
Defined.

(** C6: after one deferred request, the first [flushDeferredRestart] clears
    the state and signals once; a second one finds the state empty and
    changes nothing, so the two together emit exactly one signal.  A flush
    with nothing deferred changes nothing and so emits no signal. *)
Theorem flush_idempotent (c : Coordinator) (plan : GatewayReloadPlan) (config : Config) :
  restartGateway plan = true →
  let c1 := requestGatewayRestart plan config true c in
  signals (flushDeferredRestart c1) = signals c ++ [(plan, config)] ∧
  deferred (flushDeferredRestart c1) = None ∧
  flushDeferredRestart (flushDeferredRestart c1) = flushDeferredRestart c1 ∧
  signals (flushDeferredRestart (flushDeferredRestart c1)) =
    signals c ++ [(plan, config)] ∧
  (∀ c0, deferred c0 = None → flushDeferredRestart c0 = c0) ∧
  (∀ c0, flushDeferredRestart (flushDeferredRestart c0) = flushDeferredRestart c0) ∧
  flushDeferredRestart fresh_coordinator = fresh_coordinator.
Proof.
  intros Hr c1. subst c1. unfold requestGatewayRestart. rewrite Hr.
  do 4 (split; [reflexivity|]). split; [|split; [|reflexivity]].
  - intros c0 H0. unfold flushDeferredRestart. by rewrite H0.
  - intros c0. unfold flushDeferredRestart.
    destruct (deferred c0) eqn:H0; cbn [deferred]; by rewrite ?H0.
Qed.

Lemma flush_idempotent_witness :
  restartGateway (makePlan ["gateway.mode changed"]) = true ∧
  signals (flushDeferredRestart (flushDeferredRestart
             (requestGatewayRestart (makePlan ["gateway.mode changed"]) makeConfig true
                fresh_coordinator))) = [(makePlan ["gateway.mode changed"], makeConfig)].
Proof.
  split; [reflexivity|].
  exact (proj1 (proj2 (proj2 (proj2 (flush_idempotent fresh_coordinator
           (makePlan ["gateway.mode changed"]) makeConfig eq_refl))))).
Defined.

(** * Further properties of the terminal session manager *)

(** ** Addressing a session *)

(** X1: [terminal.input] and [terminal.resize] validate before they touch
    anything.  A request without a truthy [sessionId], or whose [data] is not
    a string (for resize: whose [cols] or [rows] is not a number), is
    answered [INVALID_REQUEST] naming the required fields; a well-formed one
    that matches no active session is answered [INVALID_REQUEST]
    "no active terminal session".  In each case the response is the only
    effect: nothing is written or resized and the idle timer is not reset. *)
Theorem rejected_request_changes_nothing (w : World) (params : gmap string JsValue) :
  let sid := get params "sessionId" in
  let rejected := λ msg : string, emit (ERespond (RespondError INVALID_REQUEST msg)) w in
  (truthy sid = false ∨ typeof_string (get params "data") = None →
     exec (terminal_input params) w = rejected "sessionId and data required") ∧
  (truthy sid = true → is_Some (typeof_string (get params "data")) →
   matching_session sid w = None →
     exec (terminal_input params) w = rejected "no active terminal session") ∧
  (truthy sid = false ∨ typeof_number (get params "cols") = None ∨
   typeof_number (get params "rows") = None →
     exec (terminal_resize params) w = rejected "sessionId, cols, and rows required") ∧
  (truthy sid = true → is_Some (typeof_number (get params "cols")) →
   is_Some (typeof_number (get params "rows")) → matching_session sid w = None →
     exec (terminal_resize params) w = rejected "no active terminal session").
Proof.
  intros sid rejected. subst sid rejected. split; [|split; [|split]].
  - intros [H|H]; unfold terminal_input; rewrite H; [done|].
    by destruct (truthy (get params "sessionId")).
  - intros Ht [data Hd] Hm. apply (terminal_input_no_match params w data); [done| |done].
    by destruct (get params "data"); simplify_eq/=.
  - intros H. unfold terminal_resize.
    destruct (truthy (get params "sessionId")); [|done].
    destruct H as [H|[H|H]]; [done|by rewrite H|].
    rewrite H. by destruct (typeof_number (get params "cols")).
  - intros Ht [cols Hc] [rows Hr] Hm.
    apply (terminal_resize_no_match params w cols rows); [done| | |done].
    + by destruct (get params "cols"); simplify_eq/=.
    + by destruct (get params "rows"); simplify_eq/=.
Qed.

(** The theorem at a stale id, while another session is active. *)
Lemma rejected_request_changes_nothing_witness :
  exec (terminal_input (input_params "u1" "ls"))
       (run [Open ∅ "u1" None; Open ∅ "u2" None] initial) =
    emit (ERespond (RespondError INVALID_REQUEST "no active terminal session"))
         (run [Open ∅ "u1" None; Open ∅ "u2" None] initial) ∧
  exec (terminal_resize {[ "sessionId" := JString "u2"; "cols" := JString "80" ]})
       (run [Open ∅ "u1" None; Open ∅ "u2" None] initial) =
    emit (ERespond (RespondError INVALID_REQUEST "sessionId, cols, and rows required"))
         (run [Open ∅ "u1" None; Open ∅ "u2" None] initial).
Proof.
  split.
  - apply (proj1 (proj2 (rejected_request_changes_nothing
             (run [Open ∅ "u1" None; Open ∅ "u2" None] initial)
             (input_params "u1" "ls")))); [by vm_compute|by eexists|by vm_compute].
  - apply (proj1 (proj2 (proj2 (rejected_request_changes_nothing
             (run [Open ∅ "u1" None; Open ∅ "u2" None] initial)
             {[ "sessionId" := JString "u2"; "cols" := JString "80" ]}))));
      right; left; by vm_compute.
Defined.

(** ** Input reaches the pseudo-terminal *)

Lemma receive_receive (a b : list string) (p : IPty) :
  receive b (receive a p) = receive (a ++ b) p.
Proof. unfold receive. cbn. by rewrite app_assoc. Qed.

Lemma receive_nil (p : IPty) : receive [] p = p.
Proof. destruct p. unfold receive. cbn. by rewrite app_nil_r. Qed.

(** One accepted [terminal.input], spelled out. *)
Lemma terminal_input_accepted (w : World) (r : nat) (s : TerminalSession) (p : IPty)
    (data : string) :
  inv w → activeSession w = Some r → sessions w !! r = Some s →
  ptys w !! r = Some p → id s ≠ "" →
  let w1 := exec (terminal_input (input_params (id s) data)) w in
  inv w1 ∧ activeSession w1 = Some r ∧
  sessions w1 !! r = Some (mkSession (id s) (pty s) (nextTimer w)) ∧
  ptys w1 !! r = Some (receive [data] p) ∧
  (∀ h, h ≠ r → ptys w1 !! h = ptys w !! h) ∧
  responses w1 = responses w ++ [RespondOk None].
Proof.
  intros Hi Ha Hs Hp Hne w1.
  pose proof (inv_terminal_input (input_params (id s) data) w Hi) as Hi1.
  destruct (get_input_params (id s) data) as [Hgs Hgd].
  pose proof (inv_pty w Hi r s Hs) as Hpty.
  assert (w1 = emit (ERespond (RespondOk None))
                 (rearmed r s (exec (pty_write (pty s) data) w))) as Hw1.
  { apply terminal_input_match; rewrite ?Hgs; [by apply truthy_JString|done|].
    by apply matching_session_self. }
  split; [done|]. rewrite Hw1, Hpty. unfold exec, pty_write, rearmed, emit, set_ptys.
  cbn [snd activeSession sessions ptys trace nextTimer now timers].
  split; [done|]. split; [rewrite list_lookup_alter_eq, Hs; cbn; by rewrite ?Hpty|].
  split; [by rewrite list_lookup_alter_eq, Hp|].
  split; [by intros h Hh; rewrite list_lookup_alter_ne|].
  unfold responses. cbn [trace]. rewrite !omap_app. cbn. by rewrite !app_nil_r.
Qed.

Lemma inputs_run (chunks : list string) (w : World) (r : nat)
    (s : TerminalSession) (p : IPty) :
  inv w → activeSession w = Some r → sessions w !! r = Some s →
  ptys w !! r = Some p → id s ≠ "" →
  let w' := run (inputs (id s) chunks) w in
  inv w' ∧ activeSession w' = Some r ∧
  ptys w' !! r = Some (receive chunks p) ∧
  (∀ h, h ≠ r → ptys w' !! h = ptys w !! h) ∧
  responses w' = responses w ++ replicate (length chunks) (RespondOk None).
Proof.
  revert w s p. induction chunks as [|data chunks IH]; intros w s p Hi Ha Hs Hp Hne.
  - cbn. rewrite receive_nil, app_nil_r. done.
  - cbn [inputs map]. rewrite run_cons. cbn [handle].
    destruct (terminal_input_accepted w r s p data Hi Ha Hs Hp Hne)
      as (Hi1 & Ha1 & Hs1 & Hp1 & Ho1 & Hr1).
    destruct (IH _ _ _ Hi1 Ha1 Hs1 Hp1 Hne) as (Hi' & Ha' & Hp' & Ho' & Hr').
    cbn [id] in *. fold (inputs (id s) chunks).
    split; [done|]. split; [done|]. split; [by rewrite Hp', receive_receive|].
    split; [by intros h Hh; rewrite Ho', Ho1|].
    rewrite Hr', Hr1, <- app_assoc. done.
Qed.

(** X2: input reaches the shell.  In every state the manager reaches, a run
    of [terminal.input] calls carrying the active session's id writes its
    chunks to that session's pseudo-terminal, in the order sent and to no
    other pseudo-terminal; each call is answered success and the session
    stays active. *)
Theorem inputs_written_in_order (es : list Event) (chunks : list string)
    (r : nat) (s : TerminalSession) (p : IPty) :
  valid es initial = true →
  activeSession (run es initial) = Some r →
  sessions (run es initial) !! r = Some s →
  ptys (run es initial) !! pty s = Some p →
  id s ≠ "" →
  let w := run es initial in
  let w' := run (inputs (id s) chunks) w in
  ptys w' !! pty s = Some (receive chunks p) ∧
  written (receive chunks p) = written p ++ chunks ∧
  (∀ h, h ≠ pty s → ptys w' !! h = ptys w !! h) ∧
  activeSession w' = Some r ∧
  responses w' = responses w ++ replicate (length chunks) (RespondOk None).
Proof.
  intros Hv Ha Hs Hp Hne w w'.
  destruct (reachable_inv es Hv) as [Hi _]. fold w in Hi, Ha, Hs, Hp.
  pose proof (inv_pty w Hi r s Hs) as Hpty. rewrite Hpty in *.
  destruct (inputs_run chunks w r s p Hi Ha Hs Hp Hne) as (_ & Ha' & Hp' & Ho' & Hr').
  done.
Qed.

Lemma inputs_written_in_order_witness :
  written <$> ptys (run (inputs "u1" ["ls"; " -l"; "\n"]) (run [Open ∅ "u1" None] initial))
    = [["ls"; " -l"; "\n"]].
Proof.
  destruct (inputs_written_in_order [Open ∅ "u1" None] ["ls"; " -l"; "\n"] 0%nat
              (mkSession "u1" 0 1)
              (mkPty (Fin 80) (Fin 24) false false [] [0%nat] [0%nat]))
    as (Hp & _); [by vm_compute..|].
  cbn [pty id] in Hp.
  destruct (ptys _) as [|q [|q' l]] eqn:Hl; [done| |].
  - cbn in Hp. injection Hp as ->. done.
  - exfalso. apply (f_equal length) in Hl. vm_compute in Hl. done.
Defined.

(** ** Ending a session *)

Lemma inv_no_timer_idle (w : World) :
  inv w → activeSession w = None → timers w = ∅ ∧ live_count w = 0%nat.
Proof.
  intros Hi Ha. split; [by apply (inv_idle w Hi)|]. by rewrite (live_count_inv w Hi), Ha.
Qed.

(** The state after the active session was destroyed, with the invariant's
    facts filled in. *)
Lemma destroyed_spelled (w : World) (r : nat) (s : TerminalSession) :
  inv w → activeSession w = Some r → sessions w !! r = Some s →
  destroyed s w =
    mkWorld None (sessions w) (alter mark_killed r (ptys w)) ∅ (nextTimer w) (now w)
      (trace w ++ [EClearTimeout (idleTimer s); EKill r false;
                   EBroadcast (terminal_closed (id s))]) ∧
  inv (destroyed s w).
Proof.
  intros Hi Ha Hs.
  destruct (inv_active_session w r Hi Ha) as (s' & p & d & Hs' & Hpty & _ & _ & _ & Ht & _).
  assert (s' = s) as -> by congruence.
  split; [|by apply (inv_destroyed w r s)].
  unfold destroyed. by rewrite Hpty, Ht, delete_singleton_eq.
Qed.

(** X3: [terminal.close] with the active session's id destroys the session:
    its timer is cleared, its handle killed, the slot emptied,
    [terminal.closed] broadcast and success answered, in that order.  The id
    is stale from then on: closing it again only answers success, and input
    for it is answered "no active terminal session", in both cases with no
    other effect. *)
Theorem close_then_stale (es : list Event) (r : nat) (s : TerminalSession) (data : string) :
  valid es initial = true →
  activeSession (run es initial) = Some r →
  sessions (run es initial) !! r = Some s →
  id s ≠ "" →
  let w := run es initial in
  let w1 := exec (terminal_close (close_params (id s))) w in
  w1 = mkWorld None (sessions w) (alter mark_killed (pty s) (ptys w)) ∅
         (nextTimer w) (now w)
         (trace w ++ [EClearTimeout (idleTimer s); EKill (pty s) false;
                      EBroadcast (terminal_closed (id s)); ERespond (RespondOk None)]) ∧
  live_count w1 = 0%nat ∧
  exec (terminal_close (close_params (id s))) w1 = emit (ERespond (RespondOk None)) w1 ∧
  exec (terminal_input (input_params (id s) data)) w1 =
    emit (ERespond (RespondError INVALID_REQUEST "no active terminal session")) w1.
Proof.
  intros Hv Ha Hs Hne w w1.
  destruct (reachable_inv es Hv) as [Hi _]. fold w in Hi, Ha, Hs.
  pose proof (inv_pty w Hi r s Hs) as Hpty.
  destruct (destroyed_spelled w r s Hi Ha Hs) as [Hd Hid].
  assert (w1 = emit (ERespond (RespondOk None)) (destroyed s w)) as Hw1.
  { subst w1. rewrite (terminal_close_match _ w r s).
    - f_equal. rewrite <- (after_destroy_active w r s) by done.
      unfold after_destroy. by rewrite Ha.
    - rewrite get_close_params. by apply truthy_JString.
    - rewrite get_close_params. by apply matching_session_self. }
  assert (inv w1) as Hi1 by (rewrite Hw1; by apply inv_emit).
  assert (activeSession w1 = None) as Ha1 by (by rewrite Hw1).
  split; [|split; [|split]].
  - rewrite Hw1, Hd, Hpty. unfold emit. cbn. by rewrite <- app_assoc.
  - by rewrite (live_count_inv w1 Hi1), Ha1.
  - apply terminal_close_no_match; rewrite get_close_params.
    + by apply truthy_JString.
    + by apply matching_session_idle.
  - destruct (get_input_params (id s) data) as [Hgs Hgd].
    apply (terminal_input_no_match _ w1 data); rewrite ?Hgs; [|done|].
    + by apply truthy_JString.
    + by apply matching_session_idle.
Qed.

Lemma close_then_stale_witness :
  activeSession (exec (terminal_close (close_params "u1")) (run [Open ∅ "u1" None] initial))
    = None ∧
  responses (exec (terminal_input (input_params "u1" "ls"))
               (exec (terminal_close (close_params "u1"))
                  (run [Open ∅ "u1" None] initial))) =
    [RespondOk (Some (mkOpenPayload "u1" (Fin 80) (Fin 24))); RespondOk None;
     RespondError INVALID_REQUEST "no active terminal session"].
Proof.
  destruct (close_then_stale [Open ∅ "u1" None] 0%nat (mkSession "u1" 0 1) "ls")
    as (H1 & _ & _ & H4); [by vm_compute..|].
  cbn [id] in *. split.
  - by rewrite H1.
  - rewrite H4, responses_emit_respond, H1. by vm_compute.
Defined.

(** X4: [cleanupTerminalSessions] at shutdown clears the timer of the
    active session, kills its handle and empties the slot, and neither
    broadcasts nor responds; with no session it does nothing.  Running it a
    second time changes nothing. *)
Theorem cleanup_is_silent (es : list Event) :
  valid es initial = true →
  let w := run es initial in
  let w1 := exec cleanupTerminalSessions w in
  activeSession w1 = None ∧ timers w1 = ∅ ∧ live_count w1 = 0%nat ∧
  sessions w1 = sessions w ∧
  (activeSession w = None → w1 = w) ∧
  (∀ r s, activeSession w = Some r → sessions w !! r = Some s →
     ptys w1 = alter mark_killed (pty s) (ptys w) ∧
     trace w1 = trace w ++ [EClearTimeout (idleTimer s); EKill (pty s) false]) ∧
  exec cleanupTerminalSessions w1 = w1.
Proof.
  intros Hv w w1. destruct (reachable_inv es Hv) as [Hi _]. fold w in Hi.
  pose proof (inv_cleanup w Hi) as Hi1. fold w1 in Hi1.
  destruct (activeSession w) as [r|] eqn:Ha.
  - destruct (inv_active_session w r Hi Ha)
      as (s & p & d & Hs & Hpty & Hp & Hk & He & Ht & _).
    assert (w1 = mkWorld None (sessions w) (alter mark_killed (pty s) (ptys w))
                   (delete (idleTimer s) (timers w)) (nextTimer w) (now w)
                   (trace w ++ [EClearTimeout (idleTimer s); EKill (pty s) false]))
      as Hw1 by (apply (cleanup_active w r s p); by rewrite ?Hpty).
    assert (activeSession w1 = None) as Ha1 by (by rewrite Hw1).
    split; [done|]. split; [by apply (inv_idle w1 Hi1)|].
    split; [by rewrite (live_count_inv w1 Hi1), Ha1|].
    split; [by rewrite Hw1|]. split; [done|]. split; [|by apply cleanup_idle].
    intros r' s' [= <-] Hs'. assert (s' = s) as -> by congruence. by rewrite Hw1.
  - assert (w1 = w) as Hw1 by (by apply cleanup_idle).
    rewrite Hw1. split; [done|]. split; [by apply (inv_idle w Hi)|].
    split; [by rewrite (live_count_inv w Hi), Ha|]. split; [done|]. split; [done|].
    split; [done|]. by apply cleanup_idle.
Qed.

Lemma cleanup_is_silent_witness :
  trace (exec cleanupTerminalSessions (run [Open ∅ "u1" None] initial)) =
    trace (run [Open ∅ "u1" None] initial) ++ [EClearTimeout 1; EKill 0 false].
Proof.
  destruct (cleanup_is_silent [Open ∅ "u1" None] eq_refl) as (_ & _ & _ & _ & _ & H & _).
  destruct (H 0%nat (mkSession "u1" 0 1)) as [_ Ht]; [by vm_compute..|]. exact Ht.
Defined.

(** X5: when the shell of the active session exits on its own, the exit
    listener clears the idle timer, empties the slot and broadcasts
    [terminal.closed]; it does not kill the handle and sends no response. *)
Theorem exit_of_active_session (es : list Event) (r : nat) (s : TerminalSession) :
  valid es initial = true →
  activeSession (run es initial) = Some r →
  sessions (run es initial) !! r = Some s →
  let w := run es initial in
  exec (pty_exit (pty s)) w =
    mkWorld None (sessions w) (alter mark_exited (pty s) (ptys w)) ∅
      (nextTimer w) (now w)
      (trace w ++ [EClearTimeout (idleTimer s); EBroadcast (terminal_closed (id s))]) ∧
  live_count (exec (pty_exit (pty s)) w) = 0%nat ∧
  responses (exec (pty_exit (pty s)) w) = responses w.
Proof.
  intros Hv Ha Hs w. destruct (reachable_inv es Hv) as [Hi Hd]. fold w in Hi, Hd, Ha, Hs.
  destruct (inv_active_session w r Hi Ha) as (s' & p & d & Hs' & Hpty & Hp & _ & _ & Ht & _).
  assert (s' = s) as -> by congruence.
  pose proof (inv_pty_exit r w Hi Hd) as Hi1.
  rewrite Hpty in *. rewrite (pty_exit_active w r s p) in * by done.
  rewrite Ht, delete_singleton_eq in *. split; [done|].
  split; [by rewrite (live_count_inv _ Hi1)|].
  unfold responses. cbn [trace]. rewrite omap_app. cbn. by rewrite app_nil_r.
Qed.

Lemma exit_of_active_session_witness :
  activeSession (exec (pty_exit 0) (run [Open ∅ "u1" None] initial)) = None ∧
  trace (exec (pty_exit 0) (run [Open ∅ "u1" None] initial)) =
    trace (run [Open ∅ "u1" None] initial) ++
      [EClearTimeout 1; EBroadcast (terminal_closed "u1")].
Proof.
  destruct (exit_of_active_session [Open ∅ "u1" None] 0%nat (mkSession "u1" 0 1))
    as (H & _); [by vm_compute..|].
  cbn [pty id idleTimer] in H. rewrite H. done.
Defined.

Lemma alter_out_of_range {A} (f : A → A) (l : list A) (i : nat) :
  l !! i = None → alter f i l = l.
Proof.
  revert i. induction l as [|x l IH]; intros [|i] H; simplify_eq/=; [done..|].
  f_equal. by apply IH.
Qed.

(** X6: the exit of a pseudo-terminal whose session is no longer the active
    one (it was closed, evicted or replaced) is silent: only the handle's
    exited flag changes.  No second [terminal.closed] is broadcast and the
    session that is active now keeps its slot and its timer. *)
Theorem exit_of_stale_session (es : list Event) (h : nat) :
  valid es initial = true →
  activeSession (run es initial) ≠ Some h →
  let w := run es initial in
  exec (pty_exit h) w = set_ptys (alter mark_exited h (ptys w)) w ∧
  trace (exec (pty_exit h) w) = trace w ∧
  activeSession (exec (pty_exit h) w) = activeSession w ∧
  timers (exec (pty_exit h) w) = timers w.
Proof.
  intros Hv Ha w. destruct (reachable_inv es Hv) as [Hi Hd]. fold w in Hi, Hd, Ha.
  assert (exec (pty_exit h) w = set_ptys (alter mark_exited h (ptys w)) w) as He.
  { destruct (ptys w !! h) as [p|] eqn:Hp.
    - by apply (pty_exit_other w h p).
    - rewrite (pty_exit_unknown w h Hp), alter_out_of_range by done. by destruct w. }
  by rewrite He.
Qed.

Lemma exit_of_stale_session_witness :
  trace (exec (pty_exit 0) (run [Open ∅ "u1" None; Open ∅ "u2" None] initial)) =
    trace (run [Open ∅ "u1" None; Open ∅ "u2" None] initial) ∧
  activeSession (exec (pty_exit 0) (run [Open ∅ "u1" None; Open ∅ "u2" None] initial)) =
    activeSession (run [Open ∅ "u1" None; Open ∅ "u2" None] initial).
Proof.
  destruct (exit_of_stale_session [Open ∅ "u1" None; Open ∅ "u2" None] 0%nat)
    as (_ & Ht & Ha & _); [by vm_compute..|].
  split; [exact Ht|exact Ha].
Defined.

(** ** [terminal.closed] is broadcast once *)

Lemma closed_count_app (sid : string) (w w' : World) (tr : list Effect) :
  trace w' = trace w ++ tr →
  closed_count sid w' = (closed_count sid w + length (List.filter (is_closed sid) tr))%nat.
Proof. intros H. unfold closed_count. by rewrite H, List.filter_app, length_app. Qed.

Lemma session_of_id (w w' : World) (r : nat) (s' : TerminalSession) :
  id <$> sessions w' = id <$> sessions w → sessions w' !! r = Some s' →
  ∃ s, sessions w !! r = Some s ∧ id s = id s'.
Proof.
  intros Hids Hs'. assert ((id <$> sessions w) !! r = Some (id s')) as H.
  { by rewrite <- Hids, list_lookup_fmap, Hs'. }
  apply list_lookup_fmap_Some in H as (s & Heq & Hs). by exists s.
Qed.

(** A step that broadcasts no [terminal.closed], keeps the ids and either
    keeps or empties the slot. *)
Lemma closed_once_quiet (w w' : World) (tr : list Effect) :
  closed_once w → trace w' = trace w ++ tr →
  (∀ sid, List.filter (is_closed sid) tr = []) →
  id <$> sessions w' = id <$> sessions w →
  activeSession w' = activeSession w ∨ activeSession w' = None →
  closed_once w'.
Proof.
  intros [H1 H2] Ht Hq Hids Ha.
  assert (∀ sid, closed_count sid w' = closed_count sid w) as Hc.
  { intros sid. rewrite (closed_count_app sid w w' tr Ht), Hq. cbn. lia. }
  split.
  - intros r s' Hs'. destruct (session_of_id w w' r s' Hids Hs') as (s & Hs & <-).
    rewrite Hc. destruct (H1 r s Hs) as [Hle Hact]. split; [done|].
    intros Ha'. apply Hact. destruct Ha as [Ha|Ha]; congruence.
  - intros sid. rewrite Hids, Hc. apply H2.
Qed.

(** A step that ends the active session with one [terminal.closed]. *)
Lemma closed_once_closing (w w' : World) (r : nat) (s : TerminalSession)
    (tr : list Effect) :
  closed_once w → distinct_ids w →
  activeSession w = Some r → sessions w !! r = Some s →
  trace w' = trace w ++ tr →
  (∀ sid, length (List.filter (is_closed sid) tr) =
          if String.eqb (id s) sid then 1%nat else 0%nat) →
  sessions w' = sessions w → activeSession w' = None →
  closed_once w'.
Proof.
  intros [H1 H2] Hd Ha Hs Ht Hq Hss Ha'.
  assert (∀ sid, closed_count sid w' =
            (closed_count sid w + if String.eqb (id s) sid then 1 else 0)%nat) as Hc.
  { intros sid. by rewrite (closed_count_app sid w w' tr Ht), Hq. }
  split.
  - intros r' s' Hs'. rewrite Hss in Hs'. rewrite Hc, Ha'. split; [|done].
    destruct (H1 r' s' Hs') as [Hle Hact].
    destruct (String.eqb_spec (id s) (id s')) as [Heq|Hne]; [|lia].
    assert (r = r') as <- by (by apply (Hd r r' s s')).
    rewrite (Hact Ha). lia.
  - intros sid Hsid. rewrite Hss in Hsid. rewrite Hc, (H2 sid Hsid).
    destruct (String.eqb_spec (id s) sid) as [<-|Hne]; [|done].
    exfalso. apply Hsid. apply list_elem_of_fmap. exists s. split; [done|].
    by apply list_elem_of_lookup_2 with r.
Qed.

Lemma closed_once_opened params uuid (w0 : World) :
  closed_once w0 → inv w0 → activeSession w0 = None → uuid ∉ id <$> sessions w0 →
  closed_once (opened params uuid w0).
Proof.
  intros [H1 H2] Hi Ha Hf.
  assert (∀ sid, closed_count sid (opened params uuid w0) = closed_count sid w0) as Hc.
  { intros sid. unfold closed_count, opened. cbn [trace].
    rewrite List.filter_app, length_app. cbn. lia. }
  split.
  - intros r s. unfold opened at 1 3. cbn [sessions activeSession].
    intros Hs. rewrite Hc. apply lookup_app_Some in Hs as [Hs|[Hge Hs]].
    + destruct (H1 r s Hs) as [Hle _]. split; [done|]. intros [= <-].
      apply lookup_lt_Some in Hs. lia.
    + apply list_lookup_singleton_Some in Hs as [_ <-]. cbn [id].
      rewrite (H2 uuid Hf). split; [lia|done].
  - intros sid. unfold opened at 1. cbn [sessions]. rewrite fmap_app, Hc.
    intros Hsid. apply H2. intros Hin. apply Hsid. apply elem_of_app. by left.
Qed.

Lemma closed_once_destroyed (w : World) (r : nat) (s : TerminalSession) :
  closed_once w → distinct_ids w → activeSession w = Some r → sessions w !! r = Some s →
  closed_once (destroyed s w).
Proof.
  intros Hc Hd Ha Hs.
  eapply (closed_once_closing w _ r s); [done..|reflexivity| |done|done].
  intros sid. cbn. by destruct (String.eqb (id s) sid).
Qed.

Lemma closed_once_emit (e : Effect) (w : World) :
  (∀ sid, is_closed sid e = false) → closed_once w → closed_once (emit e w).
Proof.
  intros He Hc. eapply (closed_once_quiet w); [done|reflexivity| |done|by left].
  intros sid. cbn. by rewrite He.
Qed.

Lemma closed_once_after_destroy (w : World) :
  inv w → distinct_ids w → closed_once w → closed_once (after_destroy w).
Proof.
  intros Hi Hd Hc. destruct (activeSession w) as [r|] eqn:Ha.
  - destruct (inv_active_session w r Hi Ha) as (s & _ & _ & Hs & _).
    rewrite (after_destroy_active w r s Hi Ha Hs). by apply (closed_once_destroyed w r s).
  - by rewrite after_destroy_idle.
Qed.

Lemma filter_closed_outputs (sid : string) (tr : list Effect) :
  Forall is_output tr → List.filter (is_closed sid) tr = [].
Proof. induction 1 as [|e tr (s & d & ->) _ IH]; [done|]. cbn. exact IH. Qed.

Lemma closed_once_step (e : Event) (w : World) :
  inv w → distinct_ids w → allowed e w = true → closed_once w →
  closed_once (exec (handle e) w).
Proof.
  intros Hi Hd Hal Hc.
  destruct e as [params uuid failure|params|params|params|h data|h|ms|];
    cbn [handle allowed] in *.
  - destruct (inv_after_destroy w Hi) as [Hi0 Ha0].
    pose proof (closed_once_after_destroy w Hi Hd Hc) as Hc0.
    destruct failure as [err|].
    + rewrite terminal_open_failure. by do 2 (apply closed_once_emit; [done|]).
    + rewrite terminal_open_success. apply closed_once_opened; [done..|].
      rewrite sessions_after_destroy by done. by apply fresh_uuid.
  - destruct (terminal_input_cases params w) as [[msg ->]|(r & s & data & Hm & ->)];
      [by apply closed_once_emit|].
    apply closed_once_emit; [done|].
    apply (closed_once_quiet w _ [EWrite (pty s) data; EClearTimeout (idleTimer s);
             ESetTimeout (nextTimer w) (now w + IDLE_TIMEOUT_MS)] Hc);
      [by cbn; rewrite <- app_assoc|done|by rewrite ids_rearmed|by left].
  - destruct (terminal_resize_cases params w)
      as [[msg ->]|[(r & s & cols & rows & Hm & _ & _ & Hx & ->)
                   |(r & s & cols & rows & _ & _ & _ & _ & _ & ->)]];
      [by apply closed_once_emit| |by apply closed_once_emit].
    apply closed_once_emit; [done|].
    unfold exec. rewrite (pty_resize_accepted _ _ _ _ Hx). cbn [snd].
    apply (closed_once_quiet w _
             [EResize (pty s) (Math_max (Fin 1) (Math_floor cols))
                              (Math_max (Fin 1) (Math_floor rows));
              EClearTimeout (idleTimer s);
              ESetTimeout (nextTimer w) (now w + IDLE_TIMEOUT_MS)] Hc);
      [by cbn; rewrite <- app_assoc|done|by rewrite ids_rearmed|by left].
  - destruct (terminal_close_cases params w Hi) as [->|[->|(r & s & Ha & Hs & _ & ->)]];
      apply closed_once_emit; try done. by apply (closed_once_destroyed w r s).
  - destruct (pty_data_trace h data w) as (tr & Ho & ->).
    eapply (closed_once_quiet w); [done|reflexivity| |done|by left].
    intros sid. by apply filter_closed_outputs.
  - destruct (ptys w !! h) as [p|] eqn:Hp; [|by rewrite pty_exit_unknown].
    destruct (decide (activeSession w = Some h)) as [Ha|Ha].
    + destruct (inv_active_session w h Hi Ha) as (s & _ & _ & Hs & _).
      rewrite (pty_exit_active w h s p) by done.
      eapply (closed_once_closing w _ h s); [done..|reflexivity| |done|done].
      intros sid. cbn. by destruct (String.eqb (id s) sid).
    + rewrite (pty_exit_other w h p) by done.
      apply (closed_once_quiet w _ [] Hc); [by rewrite app_nil_r|done|done|by left].
  - apply Z.leb_le in Hal. destruct (activeSession w) as [r|] eqn:Ha.
    + destruct (inv_active_session w r Hi Ha) as (s & p & d & Hs & _ & _ & _ & _ & Ht & _).
      assert (timers w !! idleTimer s = Some (mkTimer d (TcDestroySession r))) as Htm
        by (by rewrite Ht, lookup_singleton_eq).
      destruct (Z.le_gt_cases d (now w + ms)) as [Hle|Hgt].
      * rewrite (elapse_evicts ms w r s _ Hi Ha Hs Htm) by done.
        apply (closed_once_quiet (destroyed s w) _ []);
          [by apply (closed_once_destroyed w r s)|by rewrite app_nil_r|done|done|by left].
      * rewrite (elapse_before ms w r s _ Hi Ha Hs Htm) by done.
        apply (closed_once_quiet w _ [] Hc); [by rewrite app_nil_r|done|done|by left].
    + rewrite (elapse_idle ms w Hi Ha).
      apply (closed_once_quiet w _ [] Hc); [by rewrite app_nil_r|done|done|by left].
  - destruct (activeSession w) as [r|] eqn:Ha.
    + destruct (inv_active_session w r Hi Ha) as (s & p & d & Hs & Hpty & Hp & Hk & He & _).
      rewrite (cleanup_active w r s p) by (by rewrite ?Hpty).
      apply (closed_once_quiet w _ [EClearTimeout (idleTimer s); EKill (pty s) false] Hc);
        [done|done|done|by right].
    + by rewrite cleanup_idle.
Qed.

Lemma closed_once_run (es : list Event) (w : World) :
  inv w → distinct_ids w → closed_once w → valid es w = true → closed_once (run es w).
Proof.
  revert w. induction es as [|e es IH]; intros w Hi Hd Hc Hv; [done|].
  cbn [valid] in Hv. apply andb_true_iff in Hv as [Hal Hv]. rewrite run_cons.
  destruct (step_inv e w Hi Hd Hal) as [Hi' Hd'].
  apply IH; [done..| |done]. by apply closed_once_step.
Qed.

(** X7: over any run of the manager, [terminal.closed] is broadcast at most
    once for any session id, whichever way the session ends (close, a new
    open, idle eviction, the shell's exit) and whatever follows; it has not
    been broadcast for the session that is active, nor for an id that no
    session was given. *)
Theorem closed_broadcast_once (es : list Event) (sid : string) :
  valid es initial = true →
  let w := run es initial in
  (closed_count sid w ≤ 1)%nat ∧
  (∀ r s, activeSession w = Some r → sessions w !! r = Some s →
     closed_count (id s) w = 0%nat) ∧
  (sid ∉ id <$> sessions w → closed_count sid w = 0%nat).
Proof.
  intros Hv w.
  assert (closed_once w) as [H1 H2].
  { apply closed_once_run; [apply inv_initial| | |done].
    - by intros [|?] ????.
    - split.
      + intros r s Hs. by destruct r.
      + intros sid0 _. reflexivity. }
  split; [|split; [|apply H2]].
  - destruct (decide (sid ∈ id <$> sessions w)) as [Hin|Hout]; [|rewrite H2; [lia|done]].
    apply list_elem_of_fmap in Hin as (s & -> & Hs).
    apply list_elem_of_lookup in Hs as [r Hr]. by destruct (H1 r s Hr).
  - intros r s Ha Hs. destruct (H1 r s Hs) as [_ H]. by apply H.
Qed.

Lemma closed_broadcast_once_witness :
  closed_count "u1"
    (run [Open ∅ "u1" None; Open ∅ "u2" None; PtyExit 0; Close (close_params "u1");
          Elapse 600000; PtyExit 1; Cleanup] initial) = 1%nat ∧
  (closed_count "u2"
    (run [Open ∅ "u1" None; Open ∅ "u2" None; PtyExit 0; Close (close_params "u1");
          Elapse 600000; PtyExit 1; Cleanup] initial) ≤ 1)%nat.
Proof.
  split; [by vm_compute|].
  exact (proj1 (closed_broadcast_once
    [Open ∅ "u1" None; Open ∅ "u2" None; PtyExit 0; Close (close_params "u1");
     Elapse 600000; PtyExit 1; Cleanup] "u2" eq_refl)).
Defined.

(** ** Output, responses and ids *)

(** X8: a chunk of output of a pseudo-terminal is broadcast once, as
    [terminal.output] tagged with the id of the session the pseudo-terminal
    was spawned for, and changes nothing else.  The listener is never
    removed, so this holds for a handle whose session has ended too. *)
Theorem output_is_relayed (es : list Event) (h : nat) (p : IPty) (data : string) :
  valid es initial = true →
  ptys (run es initial) !! h = Some p →
  let w := run es initial in
  ∃ s, sessions w !! h = Some s ∧ pty s = h ∧
    exec (pty_data h data) w = emit (EBroadcast (terminal_output (id s) data)) w.
Proof.
  intros Hv Hp w. destruct (reachable_inv es Hv) as [Hi _]. fold w in Hi, Hp.
  destruct (inv_subs w Hi h p Hp) as [Hd _].
  assert (is_Some (sessions w !! h)) as [s Hs].
  { apply lookup_lt_is_Some. rewrite (inv_len w Hi). by eapply lookup_lt_Some. }
  exists s. split; [done|]. split; [by apply (inv_pty w Hi)|].
  unfold exec, pty_data. rewrite Hp, Hd. cbn [run_listeners].
  unfold on_data, with_session, mbind, M_bind, mret, M_ret, broadcast, modify.
  by rewrite Hs.
Qed.

Lemma output_is_relayed_witness :
  trace (exec (pty_data 0 "bye") (run [Open ∅ "u1" None; Open ∅ "u2" None] initial)) =
  trace (run [Open ∅ "u1" None; Open ∅ "u2" None] initial) ++
    [EBroadcast (terminal_output "u1" "bye")].
Proof.
  destruct (output_is_relayed [Open ∅ "u1" None; Open ∅ "u2" None] 0%nat
              (mkPty (Fin 80) (Fin 24) true false [] [0%nat] [0%nat]) "bye")
    as (s & Hs & _ & ->); [by vm_compute..|].
  vm_compute in Hs. injection Hs as <-. done.
Defined.

Lemma responses_after_destroy (w : World) :
  inv w → responses (after_destroy w) = responses w.
Proof.
  intros Hi. destruct (activeSession w) as [r|] eqn:Ha.
  - destruct (inv_active_session w r Hi Ha) as (s & _ & _ & Hs & _).
    rewrite (after_destroy_active w r s Hi Ha Hs).
    unfold responses, destroyed. cbn [trace]. rewrite omap_app. cbn. by rewrite app_nil_r.
  - by rewrite after_destroy_idle.
Qed.

(** X9: every request is answered at most once, and exactly once unless
    its handler throws.  In every state the manager reaches,
    [terminal.open], [input], [resize] and [close] each add exactly one
    response, whatever their parameters and outcome, with one exception: a
    [terminal.resize] for the active session with a dimension that is NaN or
    positive infinity, which [pty.resize] refuses by throwing, adds none.
    Pseudo-terminal output and exit, the passing of time and cleanup add
    none. *)
Theorem one_response_per_request (es : list Event) (e : Event) :
  valid es initial = true →
  let w := run es initial in
  ∃ rs, responses (exec (handle e) w) = responses w ++ rs ∧
        length rs = if is_request e && negb (refused_resize e w) then 1%nat else 0%nat.
Proof.
  intros Hv w. destruct (reachable_inv es Hv) as [Hi Hd]. fold w in Hi, Hd.
  destruct e as [params uuid failure|params|params|params|h data|h|ms|];
    cbn [handle is_request refused_resize negb andb].
  - destruct failure as [err|].
    + rewrite terminal_open_failure, responses_emit_respond,
        responses_emit_other, responses_after_destroy by done. by eexists [_].
    + rewrite terminal_open_success. eexists [_]. split; [|done].
      rewrite <- (responses_after_destroy w Hi).
      unfold responses, opened. cbn [trace]. rewrite omap_app. by cbn.
  - destruct (terminal_input_cases params w) as [[msg ->]|(r & s & data & _ & ->)];
      rewrite responses_emit_respond; eexists [_]; (split; [|done]); [done|].
    rewrite responses_rearmed. unfold exec, pty_write. cbn [snd].
    by rewrite responses_emit_other.
  - destruct (typeof_number (get params "cols")) as [cols|] eqn:Hc.
    2: { exists [RespondError INVALID_REQUEST "sessionId, cols, and rows required"].
         split; [|done]. rewrite <- responses_emit_respond. f_equal.
         unfold terminal_resize. rewrite Hc. by destruct (truthy _). }
    destruct (typeof_number (get params "rows")) as [rows|] eqn:Hr.
    2: { exists [RespondError INVALID_REQUEST "sessionId, cols, and rows required"].
         split; [|done]. rewrite <- responses_emit_respond. f_equal.
         unfold terminal_resize. rewrite Hc, Hr. by destruct (truthy _). }
    assert (get params "cols" = JNumber cols) as Hc'
      by (by destruct (get params "cols"); simplify_eq/=).
    assert (get params "rows" = JNumber rows) as Hr'
      by (by destruct (get params "rows"); simplify_eq/=).
    destruct (truthy (get params "sessionId")) eqn:Ht.
    2: { exists [RespondError INVALID_REQUEST "sessionId, cols, and rows required"].
         split; [|by destruct (matching_session _ _)].
         rewrite <- responses_emit_respond. f_equal.
         unfold terminal_resize. by rewrite Ht. }
    destruct (matching_session (get params "sessionId") w) as [[r s]|] eqn:Hm.
    2: { exists [RespondError INVALID_REQUEST "no active terminal session"].
         split; [|done]. rewrite <- responses_emit_respond. f_equal.
         by apply (terminal_resize_no_match params w cols rows). }
    cbn [andb]. destruct (unbounded cols || unbounded rows) eqn:Hx; cbn [negb].
    + exists []. split; [|done]. rewrite app_nil_r.
      rewrite (terminal_resize_throws params w r s cols rows) by done.
      by apply responses_emit_other.
    + exists [RespondOk None]. split; [|done].
      rewrite (terminal_resize_match params w r s cols rows) by done.
      rewrite responses_emit_respond, responses_rearmed. f_equal.
      unfold exec. rewrite pty_resize_accepted by (by rewrite resize_refused_clamp).
      cbn [snd]. by rewrite responses_emit_other.
  - destruct (terminal_close_cases params w Hi) as [->|[->|(r & s & Ha & Hs & _ & ->)]];
      rewrite responses_emit_respond; eexists [_]; (split; [|done]); [done..|].
    rewrite <- (after_destroy_active w r s) by done. by rewrite responses_after_destroy.
  - exists []. split; [|done]. destruct (pty_data_trace h data w) as (tr & Ho & ->).
    rewrite app_nil_r. unfold responses. cbn [trace].
    by rewrite omap_app, (responses_outputs tr Ho), app_nil_r.
  - exists []. split; [|done]. rewrite app_nil_r.
    destruct (ptys w !! h) as [p|] eqn:Hp; [|by rewrite pty_exit_unknown].
    destruct (decide (activeSession w = Some h)) as [Ha|Ha].
    + destruct (inv_active_session w h Hi Ha) as (s & _ & _ & Hs & _).
      rewrite (pty_exit_active w h s p) by done.
      unfold responses. cbn [trace]. rewrite omap_app. cbn. by rewrite app_nil_r.
    + by rewrite (pty_exit_other w h p).
  - exists []. split; [|done]. rewrite app_nil_r.
    destruct (activeSession w) as [r|] eqn:Ha.
    + destruct (inv_active_session w r Hi Ha) as (s & p & d & Hs & _ & _ & _ & _ & Ht & _).
      assert (timers w !! idleTimer s = Some (mkTimer d (TcDestroySession r))) as Htm
        by (by rewrite Ht, lookup_singleton_eq).
      destruct (Z.le_gt_cases d (now w + ms)) as [Hle|Hgt].
      * rewrite (elapse_evicts ms w r s _ Hi Ha Hs Htm) by done.
        rewrite <- (after_destroy_active w r s) by done.
        rewrite <- (responses_after_destroy w Hi). done.
      * by rewrite (elapse_before ms w r s _ Hi Ha Hs Htm).
    + by rewrite (elapse_idle ms w Hi Ha).
  - exists []. split; [|done]. rewrite app_nil_r.
    destruct (activeSession w) as [r|] eqn:Ha.
    + destruct (inv_active_session w r Hi Ha) as (s & p & d & Hs & Hpty & Hp & Hk & He & _).
      rewrite (cleanup_active w r s p) by (by rewrite ?Hpty).
      unfold responses. cbn [trace]. rewrite omap_app. cbn. by rewrite app_nil_r.
    + by rewrite cleanup_idle.
Qed.

Lemma one_response_per_request_witness :
  (∃ rs, responses (exec (handle (Close (close_params "u1")))
                      (run [Open ∅ "u1" None] initial)) =
           responses (run [Open ∅ "u1" None] initial) ++ rs ∧ length rs = 1%nat) ∧
  (∃ rs, responses (exec (handle (Resize (resize_params "u1" NaN (Fin 24))))
                      (run [Open ∅ "u1" None] initial)) =
           responses (run [Open ∅ "u1" None] initial) ++ rs ∧ length rs = 0%nat).
Proof.
  split.
  - exact (one_response_per_request [Open ∅ "u1" None] (Close (close_params "u1")) eq_refl).
  - destruct (one_response_per_request [Open ∅ "u1" None]
                (Resize (resize_params "u1" NaN (Fin 24)))) as (rs & H1 & H2);
      [by vm_compute|].
    exists rs. split; [exact H1|]. vm_compute in H2. exact H2.
Defined.

(** X10: the id a successful [terminal.open] answers is the only one that
    addresses a session afterwards.  Input carrying it is accepted and
    written to the new pseudo-terminal; the id of the session the open
    replaced is stale at once: input for it is answered
    "no active terminal session" and nothing is written. *)
Theorem open_switches_id (es : list Event) (params : gmap string JsValue)
    (uuid data : string) :
  valid es initial = true →
  allowed (Open params uuid None) (run es initial) = true →
  uuid ≠ "" →
  let w := run es initial in
  let w' := exec (terminal_open params uuid None) w in
  last (responses w') =
    Some (RespondOk (Some (mkOpenPayload uuid (dimension (get params "cols") 80)
                                              (dimension (get params "rows") 24)))) ∧
  (∃ s, matching_session (JString uuid) w' = Some (length (sessions w), s) ∧
        pty s = length (ptys w)) ∧
  (∀ sid, sid ≠ uuid → matching_session (JString sid) w' = None) ∧
  ptys (exec (terminal_input (input_params uuid data)) w') !! length (ptys w) =
    Some (mkPty (dimension (get params "cols") 80) (dimension (get params "rows") 24)
                false false [data] [length (sessions w)] [length (sessions w)]) ∧
  (∀ r0 s0, activeSession w = Some r0 → sessions w !! r0 = Some s0 → id s0 ≠ "" →
     exec (terminal_input (input_params (id s0) data)) w' =
       emit (ERespond (RespondError INVALID_REQUEST "no active terminal session")) w').
Proof.
  intros Hv Hal Hne w w'. destruct (reachable_inv es Hv) as [Hi Hd]. fold w in Hi, Hd, Hal.
  cbn [allowed] in Hal. apply fresh_uuid in Hal.
  destruct (inv_after_destroy w Hi) as [Hi0 Ha0].
  pose proof (sessions_after_destroy w Hi) as Hss.
  assert (length (ptys (after_destroy w)) = length (ptys w)) as Hpl.
  { by rewrite <- (inv_len _ Hi0), Hss, (inv_len _ Hi). }
  pose proof (inv_terminal_open params uuid None w Hi) as Hi'. fold w' in Hi'.
  assert (w' = opened params uuid (after_destroy w)) as Hw' by apply terminal_open_success.
  assert (activeSession w' = Some (length (sessions w))) as Ha'.
  { rewrite Hw'. unfold opened. cbn [activeSession]. by rewrite Hss. }
  assert (sessions w' !! length (sessions w) =
            Some (mkSession uuid (length (ptys w)) (S (nextTimer (after_destroy w)))))
    as Hs'.
  { rewrite Hw'. unfold opened. cbn [sessions]. rewrite Hpl, <- Hss. apply lookup_snoc. }
  assert (ptys w' !! length (ptys w) =
            Some (mkPty (dimension (get params "cols") 80) (dimension (get params "rows") 24)
                        false false [] [length (sessions w)] [length (sessions w)]))
    as Hp'.
  { rewrite Hw'. unfold opened. cbn [ptys]. rewrite Hss, <- Hpl. apply lookup_snoc. }
  split; [by destruct (terminal_open_observations params uuid w) as (_ & _ & ?)|].
  split; [|split; [|split]].
  - eexists. split; [by apply (matching_session_self w' _ _ Ha' Hs')|done].
  - intros sid Hsid. by apply (matching_session_other w' _ _ sid Ha' Hs').
  - assert (length (sessions w) = length (ptys w)) as Hlen by apply (inv_len w Hi).
    rewrite Hlen in Ha', Hs'.
    destruct (terminal_input_accepted w' _ _ _ data Hi' Ha' Hs' Hp' Hne)
      as (_ & _ & _ & Hp1 & _).
    cbn [id] in Hp1. rewrite Hp1. by rewrite Hlen.
  - intros r0 s0 Ha Hs Hne0. destruct (get_input_params (id s0) data) as [Hgs Hgd].
    apply (terminal_input_no_match _ w' data); rewrite ?Hgs; [by apply truthy_JString|done|].
    apply (matching_session_other w' _ _ (id s0) Ha' Hs'). cbn [id]. intros Heq.
    apply Hal. rewrite <- Heq. apply list_elem_of_fmap. exists s0. split; [done|].
    by apply list_elem_of_lookup_2 with r0.
Qed.

Lemma open_switches_id_witness :
  responses (exec (terminal_input (input_params "u1" "ls"))
               (exec (terminal_open ∅ "u2" None) (run [Open ∅ "u1" None] initial))) =
  responses (exec (terminal_open ∅ "u2" None) (run [Open ∅ "u1" None] initial)) ++
    [RespondError INVALID_REQUEST "no active terminal session"].
Proof.
  destruct (open_switches_id [Open ∅ "u1" None] ∅ "u2" "ls")
    as (_ & _ & _ & _ & H); [by vm_compute..|].
  pose proof (H 0%nat (mkSession "u1" 0 1)) as H'. cbn [id] in H'.
  rewrite H' by (by vm_compute). apply responses_emit_respond.
Defined.

(** ** Dimensions *)

Lemma Qfloor_inject_Z (z : Z) : Qfloor (inject_Z z) = z.
Proof. unfold Qfloor, inject_Z. apply Z.div_1_r. Qed.

(** X11: [Math.max(1, Math.floor(x))] yields NaN, positive infinity or an
    integer at least 1, never zero, a negative or fractional number or
    negative infinity; only NaN and positive infinity are passed through
    unchanged.  It is idempotent, so the dimensions [terminal.open] answers
    are the dimensions a later open or resize with those values uses. *)
Theorem clamp_range_and_idempotence (n : number) (v : JsValue) :
  let clamp := λ x, Math_max (Fin 1) (Math_floor x) in
  (clamp n = NaN ∧ n = NaN ∨
   clamp n = Infinity false ∧ n = Infinity false ∨
   is_pos_int (clamp n)) ∧
  clamp (clamp n) = clamp n ∧
  dimension (JNumber (dimension v 80)) 80 = dimension v 80 ∧
  dimension (JNumber (dimension v 24)) 24 = dimension v 24.
Proof.
  intros clamp.
  assert (∀ x, clamp (clamp x) = clamp x) as Hid.
  { intros [|[]|q]; try done. subst clamp. cbn beta.
    rewrite !clamp_Fin, Qfloor_inject_Z. do 2 f_equal. lia. }
  split; [|split; [apply Hid|]].
  - destruct n as [|[]|q].
    + by left.
    + right; right. by exists 1.
    + right; left. done.
    + right; right. subst clamp. cbn beta. rewrite clamp_Fin.
      exists (Z.max 1 (Qfloor q)). split; [lia|done].
  - split; unfold dimension at 1; cbn [typeof_number];
      (destruct (typeof_number v) as [x|] eqn:Hx;
        [unfold dimension; rewrite Hx; apply Hid | by unfold dimension; rewrite Hx]).
Qed.

(** X12: [terminal.resize] checks only that [cols] and [rows] are of type
    number.  For the active session it calls [pty.resize] with
    [Math.max(1, Math.floor(x))] of the numbers it is given.  When neither
    is NaN or positive infinity these are positive integers: the
    pseudo-terminal is resized, the idle timer reset and success answered.
    When one is, the clamp passes it through, [pty.resize] throws and the
    handler ends there: the refused call is its only effect, no response is
    sent and the idle timer is not reset. *)
Theorem resize_clamps_or_throws (w : World) (r : nat) (s : TerminalSession)
    (cols rows : number) :
  activeSession w = Some r → sessions w !! r = Some s → id s ≠ "" →
  let clamp := λ x, Math_max (Fin 1) (Math_floor x) in
  let w' := exec (terminal_resize (resize_params (id s) cols rows)) w in
  (unbounded cols || unbounded rows = false →
     is_pos_int (clamp cols) ∧ is_pos_int (clamp rows) ∧
     trace w' =
       trace w ++ [EResize (pty s) (clamp cols) (clamp rows);
                   EClearTimeout (idleTimer s);
                   ESetTimeout (nextTimer w) (now w + IDLE_TIMEOUT_MS);
                   ERespond (RespondOk None)]) ∧
  (unbounded cols || unbounded rows = true →
     w' = emit (EResizeFailed (pty s) (clamp cols) (clamp rows)) w ∧
     responses w' = responses w ∧ timers w' = timers w ∧ ptys w' = ptys w) ∧
  (∀ x, unbounded x = true ↔ x = NaN ∨ x = Infinity false) ∧
  (∀ x, unbounded x = true → clamp x = x).
Proof.
  intros Ha Hs Hne clamp w'.
  destruct (get_resize_params (id s) cols rows) as (Hgs & Hgc & Hgr).
  assert (∀ x, unbounded x = false → is_pos_int (clamp x)) as Hpos.
  { intros [|[]|q] Hx; try done.
    - exists 1. split; [lia|done].
    - subst clamp. cbn beta. rewrite clamp_Fin.
      exists (Z.max 1 (Qfloor q)). split; [lia|done]. }
  split; [|split; [|split]].
  - intros Hx. apply orb_false_iff in Hx as Hx'. destruct Hx' as [Hxc Hxr].
    split; [by apply Hpos|]. split; [by apply Hpos|]. subst w'.
    rewrite (terminal_resize_match _ w r s cols rows); rewrite ?Hgs;
      [|by apply truthy_JString|done|done|by apply matching_session_self|done].
    unfold exec. rewrite pty_resize_accepted by (by rewrite resize_refused_clamp).
    unfold rearmed, emit, set_ptys.
    cbn [snd trace ptys nextTimer now sessions activeSession timers].
    by rewrite <- !app_assoc.
  - intros Hx. subst w'.
    rewrite (terminal_resize_throws _ w r s cols rows); rewrite ?Hgs;
      [|by apply truthy_JString|done|done|by apply matching_session_self|done].
    split; [done|]. split; [by apply responses_emit_other|done].
  - intros [|[]|q]; cbn; (split; [|intros [H|H]; by inversion H]); intros H; try done.
    + by left.
    + by right.
  - by intros [|[]|q].
Qed.

Lemma resize_clamps_or_throws_witness :
  exec (terminal_resize (resize_params "u1" NaN (Infinity false)))
       (run [Open ∅ "u1" None] initial) =
    emit (EResizeFailed 0 NaN (Infinity false)) (run [Open ∅ "u1" None] initial).
Proof.
  destruct (resize_clamps_or_throws (run [Open ∅ "u1" None] initial) 0%nat
              (mkSession "u1" 0 1) NaN (Infinity false)) as (_ & H & _); [by vm_compute..|].
  destruct (H eq_refl) as (He & _). exact He.
Defined.

(** X13: no timer is left dangling.  In every state the manager reaches at
    most one timer is pending; one is pending exactly while a session is
    active, and it is that session's idle timer.  With no session the
    passing of time therefore does nothing but move the clock. *)
Theorem no_dangling_timer (es : list Event) (ms : Z) :
  valid es initial = true →
  let w := run es initial in
  (size (timers w) ≤ 1)%nat ∧
  (timers w = ∅ ↔ activeSession w = None) ∧
  (∀ t tm, timers w !! t = Some tm →
     ∃ r s, activeSession w = Some r ∧ sessions w !! r = Some s ∧
            idleTimer s = t ∧ callback tm = TcDestroySession r) ∧
  (activeSession w = None → exec (elapse ms) w = set_now (now w + ms) w).
Proof.
  intros Hv w. destruct (reachable_inv es Hv) as [Hi _]. fold w in Hi.
  destruct (activeSession w) as [r|] eqn:Ha.
  - destruct (inv_active_session w r Hi Ha) as (s & p & d & Hs & _ & _ & _ & _ & Ht & _).
    rewrite Ht. split; [by rewrite map_size_singleton|].
    split; [split; [|done]|split; [|done]].
    + intros He. by apply map_non_empty_singleton in He.
    + intros t tm Htm. apply lookup_singleton_Some in Htm as [<- <-]. by exists r, s.
  - rewrite (inv_idle w Hi Ha). split; [by rewrite map_size_empty; lia|].
    split; [done|]. split; [by intros t tm Htm|].
    intros _. by apply elapse_idle.
Qed.

Lemma no_dangling_timer_witness :
  timers (run [Open ∅ "u1" None; Open ∅ "u2" None; Close (close_params "u2")] initial) = ∅.
Proof.
  apply (proj1 (proj2 (no_dangling_timer
    [Open ∅ "u1" None; Open ∅ "u2" None; Close (close_params "u2")] 0 eq_refl))).
  by vm_compute.
Defined.

(** * Allowed origins *)

(** ** Sets of strings *)

Lemma includes_In (l : list string) (x : string) : includes l x = true ↔ x ∈ l.
Proof.
  unfold includes. rewrite existsb_exists, list_elem_of_In. split.
  - intros (y & Hy & Heq). apply String.eqb_eq in Heq. by subst.
  - intros H. exists x. split; [done|]. apply String.eqb_refl.
Qed.

Lemma includes_not_In (l : list string) (x : string) : includes l x = false ↔ x ∉ l.
Proof. rewrite <- includes_In. by destruct (includes l x). Qed.

Lemma Set_add_spec (seen : list string) (x y : string) :
  y ∈ Set_add seen x ↔ y ∈ seen ∨ y = x.
Proof.
  unfold Set_add. destruct (includes seen x) eqn:H.
  - apply includes_In in H. split; [by left|]. by intros [?| ->].
  - rewrite elem_of_app, list_elem_of_singleton. done.
Qed.

Lemma Set_add_NoDup (seen : list string) (x : string) :
  NoDup seen → NoDup (Set_add seen x).
Proof.
  intros Hn. unfold Set_add. destruct (includes seen x) eqn:H; [done|].
  apply includes_not_In in H. apply NoDup_app. split; [done|]. split.
  - intros y Hy. rewrite list_elem_of_singleton. by intros ->.
  - apply NoDup_singleton.
Qed.

Lemma foldl_Set_add_spec (l seen : list string) (y : string) :
  y ∈ foldl Set_add seen l ↔ y ∈ seen ∨ y ∈ l.
Proof.
  revert seen. induction l as [|x l IH]; intros seen; cbn [foldl].
  - rewrite elem_of_nil. tauto.
  - rewrite IH, Set_add_spec, elem_of_cons. tauto.
Qed.

Lemma foldl_Set_add_NoDup (l seen : list string) :
  NoDup seen → NoDup (foldl Set_add seen l).
Proof.
  revert seen. induction l as [|x l IH]; intros seen Hn; [done|].
  cbn [foldl]. apply IH. by apply Set_add_NoDup.
Qed.

Lemma foldl_Set_add_prefix (l seen : list string) :
  seen `prefix_of` foldl Set_add seen l.
Proof.
  revert seen. induction l as [|x l IH]; intros seen; [done|]. cbn [foldl].
  etrans; [|apply IH]. unfold Set_add. destruct (includes seen x); [done|].
  by apply prefix_app_r.
Qed.

(** Elements already seen add nothing. *)
Lemma foldl_Set_add_seen (l seen : list string) :
  (∀ x, x ∈ l → x ∈ seen) → foldl Set_add seen l = seen.
Proof.
  induction l as [|x l IH]; intros H; [done|]. cbn [foldl].
  assert (Set_add seen x = seen) as ->.
  { unfold Set_add. assert (includes seen x = true) as ->; [|done].
    apply includes_In, H. by left. }
  apply IH. intros y Hy. apply H. by right.
Qed.

(** Distinct new elements are appended in order. *)
Lemma foldl_Set_add_fresh (l seen : list string) :
  NoDup (seen ++ l) → foldl Set_add seen l = seen ++ l.
Proof.
  revert seen. induction l as [|x l IH]; intros seen Hn; [by rewrite app_nil_r|].
  cbn [foldl]. assert (Set_add seen x = seen ++ [x]) as ->.
  { unfold Set_add. assert (includes seen x = false) as ->; [|done].
    apply includes_not_In. apply NoDup_app in Hn as (_ & Hn & _). intros Hx.
    apply (Hn x Hx). by left. }
  rewrite IH; [by rewrite <- app_assoc|]. by rewrite <- app_assoc.
Qed.

(** ** Trimming and splitting *)

Lemma trimEnd_idempotent (s : string) : trimEnd (trimEnd s) = trimEnd s.
Proof.
  induction s as [|c s IH]; [done|]. cbn [trimEnd].
  destruct (trimEnd s) as [|d t] eqn:Ht.
  - destruct (is_whitespace c) eqn:Hc; [done|]. cbn. by rewrite Hc.
  - cbn [trimEnd]. cbn [trimEnd] in IH. by rewrite IH.
Qed.

Lemma trimStart_head (s : string) :
  match trimStart s with
  | EmptyString => True
  | String c _ => is_whitespace c = false
  end.
Proof.
  induction s as [|c s IH]; [done|]. cbn. by destruct (is_whitespace c) eqn:Hc.
Qed.

Lemma trimStart_fixed (c : Ascii.ascii) (s : string) :
  is_whitespace c = false → trimStart (String c s) = String c s.
Proof. intros H. cbn. by rewrite H. Qed.

Lemma trimEnd_head (c : Ascii.ascii) (s : string) :
  is_whitespace c = false → ∃ t, trimEnd (String c s) = String c t.
Proof.
  intros H. cbn. destruct (trimEnd s); [|by eexists]. rewrite H. by eexists.
Qed.

Lemma trim_idempotent (s : string) : trim (trim s) = trim s.
Proof.
  unfold trim. pose proof (trimStart_head s) as Hh.
  destruct (trimStart s) as [|c t]; [done|].
  destruct (trimEnd_head c t Hh) as [u Hu]. rewrite Hu.
  rewrite (trimStart_fixed c u Hh), <- Hu. apply trimEnd_idempotent.
Qed.

Lemma occurs_trimStart (c : Ascii.ascii) (s : string) :
  occurs c (trimStart s) = true → occurs c s = true.
Proof.
  induction s as [|d s IH]; [done|]. cbn. destruct (is_whitespace d); [|done].
  intros H. rewrite (IH H). apply orb_true_r.
Qed.

Lemma occurs_trimEnd (c : Ascii.ascii) (s : string) :
  occurs c (trimEnd s) = true → occurs c s = true.
Proof.
  induction s as [|d s IH]; [done|]. cbn [trimEnd occurs].
  destruct (trimEnd s) as [|e t].
  - destruct (is_whitespace d); [done|]. cbn. rewrite orb_false_r. intros ->. done.
  - cbn [occurs] in *. intros [->|H]%orb_true_iff; [done|].
    rewrite IH; [apply orb_true_r|done].
Qed.

Lemma occurs_trim (c : Ascii.ascii) (s : string) :
  occurs c (trim s) = true → occurs c s = true.
Proof. intros H. by apply occurs_trimStart, occurs_trimEnd. Qed.

Lemma split_pieces (sep : Ascii.ascii) (s : string) (piece : string) :
  piece ∈ split sep s → occurs sep piece = false.
Proof.
  revert piece. induction s as [|c s IH]; intros piece; cbn [split].
  - rewrite list_elem_of_singleton. by intros ->.
  - destruct (Ascii.eqb c sep) eqn:Hc.
    + rewrite elem_of_cons. intros [->|H]; [done|]. by apply IH.
    + destruct (split sep s) as [|p rest] eqn:Hs.
      * rewrite list_elem_of_singleton. intros ->. cbn. by rewrite Hc.
      * rewrite elem_of_cons. intros [->|H].
        -- cbn. rewrite Hc. apply IH. by left.
        -- apply IH. by right.
Qed.

Lemma nonempty_true (s : string) : nonempty s = true ↔ s ≠ "".
Proof. unfold nonempty. destruct (String.eqb_spec s ""); split; by intros. Qed.

Lemma envOrigins_spec (envRaw : option string) (x : string) :
  x ∈ envOrigins envRaw → x ≠ "" ∧ trim x = x ∧ occurs comma x = false.
Proof.
  destruct envRaw as [raw|]; cbn [envOrigins]; [|by intros ?%elem_of_nil].
  destruct (nonempty raw); [|by intros ?%elem_of_nil].
  rewrite list_elem_of_In, filter_In.
  intros [Hin Hne]. apply nonempty_true in Hne. split; [done|].
  apply in_map_iff in Hin as (piece & <- & Hp). apply list_elem_of_In in Hp.
  split; [apply trim_idempotent|].
  apply not_true_is_false. intros Ho. apply occurs_trim in Ho.
  by rewrite (split_pieces comma raw piece Hp) in Ho.
Qed.

Lemma Set_elements_NoDup (l : list string) : NoDup l → Set_elements l = l.
Proof. intros Hn. apply (foldl_Set_add_fresh l []). by rewrite app_nil_l. Qed.

Lemma resolve_as_fold (configOrigins : option (list string)) (envRaw : option string) :
  resolveEffectiveAllowedOrigins configOrigins envRaw =
    foldl Set_add (Set_elements (default [] configOrigins)) (envOrigins envRaw).
Proof. unfold resolveEffectiveAllowedOrigins, Set_elements. by rewrite foldl_app. Qed.

(** X14: [resolveEffectiveAllowedOrigins] returns the union of the configured
    origins and the origins of the environment variable as a list without
    duplicates.  Configured origins are kept as they are written, blank or
    untrimmed ones included. *)
Theorem effective_origins_are_the_union (configOrigins : option (list string))
    (envRaw : option string) :
  NoDup (resolveEffectiveAllowedOrigins configOrigins envRaw) ∧
  (∀ x, x ∈ resolveEffectiveAllowedOrigins configOrigins envRaw ↔
        x ∈ default [] configOrigins ∨ x ∈ envOrigins envRaw).
Proof.
  unfold resolveEffectiveAllowedOrigins, Set_elements. split.
  - apply foldl_Set_add_NoDup, NoDup_nil_2.
  - intros x. rewrite foldl_Set_add_spec, elem_of_app, elem_of_nil. tauto.
Qed.

(** X15: what the environment variable contributes is clean.  An origin of
    the result that is not a configured one is not empty, has no leading or
    trailing white space and contains no comma; and every comma-separated
    entry of the variable that is not blank is in the result, trimmed. *)
Theorem env_origins_are_trimmed (configOrigins : option (list string))
    (raw : string) (x piece : string) :
  (x ∈ resolveEffectiveAllowedOrigins configOrigins (Some raw) →
   x ∉ default [] configOrigins →
     x ≠ "" ∧ trim x = x ∧ occurs comma x = false) ∧
  (piece ∈ split comma raw → trim piece ≠ "" →
     trim piece ∈ resolveEffectiveAllowedOrigins configOrigins (Some raw)).
Proof.
  destruct (effective_origins_are_the_union configOrigins (Some raw)) as [_ Hmem].
  split.
  - intros Hx Hnc. apply Hmem in Hx as [Hx|Hx]; [done|]. by apply envOrigins_spec in Hx.
  - intros Hp Hne. apply Hmem. right. cbn [envOrigins].
    assert (nonempty raw = true) as ->.
    { apply nonempty_true. intros ->. cbn in Hp. apply list_elem_of_singleton in Hp.
      subst. by apply Hne. }
    rewrite list_elem_of_In, filter_In. split; [|by apply nonempty_true].
    apply in_map. by apply list_elem_of_In.
Qed.

Lemma env_origins_are_trimmed_witness :
  "https://b.example.com" ∈
    resolveEffectiveAllowedOrigins (Some [" https://a.example.com "])
      (Some " https://b.example.com ,, ").
Proof.
  apply (proj2 (env_origins_are_trimmed (Some [" https://a.example.com "])
                  " https://b.example.com ,, " "" " https://b.example.com ")).
  - apply list_elem_of_In. vm_compute. by left.
  - by vm_compute.
Defined.

(** X16: the configured origins come first and keep their order.  The
    result starts with the configured origins (without repetitions); when
    they are pairwise distinct the result starts with exactly that list, and
    equals it when the variable is unset or empty. *)
Theorem config_origins_come_first (configOrigins : list string)
    (envRaw : option string) :
  Set_elements configOrigins
    `prefix_of` resolveEffectiveAllowedOrigins (Some configOrigins) envRaw ∧
  (NoDup configOrigins →
     configOrigins `prefix_of` resolveEffectiveAllowedOrigins (Some configOrigins) envRaw ∧
     resolveEffectiveAllowedOrigins (Some configOrigins) None = configOrigins ∧
     resolveEffectiveAllowedOrigins (Some configOrigins) (Some "") = configOrigins).
Proof.
  assert (Set_elements configOrigins
            `prefix_of` resolveEffectiveAllowedOrigins (Some configOrigins) envRaw) as Hp.
  { rewrite resolve_as_fold. apply foldl_Set_add_prefix. }
  split; [done|]. intros Hn. rewrite (Set_elements_NoDup _ Hn) in Hp.
  split; [done|]. rewrite !resolve_as_fold. cbn [envOrigins nonempty default foldl].
  cbn. by rewrite Set_elements_NoDup.
Qed.

Lemma config_origins_come_first_witness :
  ["https://a.example.com"; "https://c.example.com"] `prefix_of`
    resolveEffectiveAllowedOrigins (Some ["https://a.example.com"; "https://c.example.com"])
      (Some "https://b.example.com, https://a.example.com").
Proof.
  apply (proj2 (config_origins_come_first
                  ["https://a.example.com"; "https://c.example.com"]
                  (Some "https://b.example.com, https://a.example.com"))).
  apply NoDup_cons. split; [|apply NoDup_singleton].
  rewrite list_elem_of_singleton. by vm_compute.
Defined.

(** X17: the effective list is stable.  Writing it back as the configured
    origins and resolving again, with the same variable or with none, gives
    the same list: the variable adds nothing a second time. *)
Theorem effective_origins_are_stable (configOrigins : option (list string))
    (envRaw : option string) :
  let effective := resolveEffectiveAllowedOrigins configOrigins envRaw in
  resolveEffectiveAllowedOrigins (Some effective) envRaw = effective ∧
  resolveEffectiveAllowedOrigins (Some effective) None = effective.
Proof.
  intros effective.
  destruct (effective_origins_are_the_union configOrigins envRaw) as [Hn Hmem].
  fold effective in Hn, Hmem. clearbody effective.
  rewrite !resolve_as_fold. change (default [] (Some effective)) with effective.
  rewrite (Set_elements_NoDup _ Hn).
  split; [|done]. apply foldl_Set_add_seen. intros x Hx. apply Hmem. by right.
Qed.

Section OriginCheckFacts.

Variable pf : Platform.

(** The allowlist as [checkBrowserOrigin] compares it. *)
Lemma allowlist_spec (allowed : list string) (y : string) :
  includes (List.filter nonempty (map (λ value, toLowerCase pf (trim value)) allowed)) y = true ↔
  y ≠ "" ∧ ∃ t, t ∈ map trim allowed ∧ toLowerCase pf t = y.
Proof.
  rewrite includes_In, list_elem_of_In, filter_In, nonempty_true, in_map_iff. split.
  - intros [(a & <- & Ha) Hne]. split; [done|]. exists (trim a). split; [|done].
    apply list_elem_of_In, in_map, Ha.
  - intros [Hne (t & Ht & <-)]. split; [|done].
    apply list_elem_of_In, in_map_iff in Ht as (a & <- & Ha). by exists a.
Qed.

Lemma allowlist_mono (allowed allowed' : list string) (y : string) :
  (∀ t, t ∈ map trim allowed → t ∈ map trim allowed') →
  includes (List.filter nonempty (map (λ value, toLowerCase pf (trim value)) allowed)) y = true →
  includes (List.filter nonempty (map (λ value, toLowerCase pf (trim value)) allowed')) y = true.
Proof.
  intros Hsub. rewrite !allowlist_spec. intros [Hne (t & Ht & Heq)].
  split; [done|]. exists t. split; [by apply Hsub|done].
Qed.

Lemma check_mono (requestHost origin : option string) (allowed allowed' : list string) :
  (∀ t, t ∈ map trim allowed → t ∈ map trim allowed') →
  checkBrowserOrigin pf requestHost origin (Some allowed) = OriginOk →
  checkBrowserOrigin pf requestHost origin (Some allowed') = OriginOk.
Proof.
  intros Hsub. unfold checkBrowserOrigin.
  destruct (parseOrigin pf origin) as [p|]; [|done]. cbn [from_option Datatypes.id].
  destruct (includes (List.filter nonempty (map (λ value, toLowerCase pf (trim value)) allowed))
              (parsed_origin p)) eqn:Ha.
  - by rewrite (allowlist_mono _ _ _ Hsub Ha).
  - by destruct (includes (List.filter nonempty
                             (map (λ value, toLowerCase pf (trim value)) allowed'))
                   (parsed_origin p)).
Qed.

Lemma check_none (requestHost origin : option string) :
  checkBrowserOrigin pf requestHost origin None = checkBrowserOrigin pf requestHost origin (Some []).
Proof. done. Qed.

Lemma map_trim_sub (allowed allowed' : list string) :
  (∀ x, x ∈ allowed → x ∈ allowed') → ∀ t, t ∈ map trim allowed → t ∈ map trim allowed'.
Proof.
  intros Hsub t. rewrite !list_elem_of_In, !in_map_iff. intros (a & <- & Ha).
  exists a. split; [done|]. by apply list_elem_of_In, Hsub, list_elem_of_In.
Qed.

(** X18: the origin is looked at first.  [checkBrowserOrigin] answers
    "origin missing or invalid" exactly when the origin header is absent,
    blank, the word "null" or not a URL; neither the allowlist nor the
    request host, loopback or not, changes that. *)
Theorem unusable_origin_is_rejected (requestHost origin : option string)
    (allowedOrigins : option (list string)) :
  checkBrowserOrigin pf requestHost origin allowedOrigins = OriginRejected "origin missing or invalid" ↔
  trim (default "" origin) = "" ∨ trim (default "" origin) = "null" ∨
  URL pf (trim (default "" origin)) = None.
Proof.
  unfold checkBrowserOrigin, parseOrigin.
  destruct (nonempty (trim (default "" origin))) eqn:Hne; cbn [negb orb].
  - apply nonempty_true in Hne.
    destruct (String.eqb_spec (trim (default "" origin)) "null") as [Hnull|Hnull].
    + split; [|done]. intros _. right. by left.
    + destruct (URL pf (trim (default "" origin))) as [url|].
      * split; [|by intros [?|[?|?]]].
        cbn [parsed_origin parsed_host parsed_hostname].
        repeat match goal with |- context [if ?b then _ else _] => destruct b end; done.
      * split; [|done]. intros _. right. by right.
  - split; [|done]. intros _. left.
    unfold nonempty in Hne. apply negb_false_iff in Hne. by apply String.eqb_eq in Hne.
Qed.

(** X19: adding entries to the allowlist never turns an accepted origin
    into a rejected one, an absent allowlist counting as the empty one. *)
Theorem allowlist_only_widens (requestHost origin : option string)
    (allowedOrigins : option (list string)) (more : list string) :
  (∀ x, x ∈ default [] allowedOrigins → x ∈ more) →
  checkBrowserOrigin pf requestHost origin allowedOrigins = OriginOk →
  checkBrowserOrigin pf requestHost origin (Some more) = OriginOk.
Proof.
  intros Hsub. destruct allowedOrigins as [allowed|]; [|rewrite check_none];
    by apply check_mono, map_trim_sub.
Qed.

(** X20: only the set of trimmed entries of the allowlist matters: two
    allowlists whose entries agree up to surrounding white space, order and
    repetition give the same answer on every request. *)
Theorem allowlist_is_a_set_of_trimmed_entries (requestHost origin : option string)
    (allowed allowed' : list string) :
  (∀ t, t ∈ map trim allowed ↔ t ∈ map trim allowed') →
  checkBrowserOrigin pf requestHost origin (Some allowed) = checkBrowserOrigin pf requestHost origin (Some allowed').
Proof.
  intros Heq.
  assert (∀ y, includes (List.filter nonempty (map (λ value, toLowerCase pf (trim value)) allowed)) y
             = includes (List.filter nonempty (map (λ value, toLowerCase pf (trim value)) allowed')) y)
    as Hinc.
  { intros y. apply eq_true_iff_eq. split; apply allowlist_mono; intros t; apply Heq. }
  unfold checkBrowserOrigin.
  destruct (parseOrigin pf origin) as [p|]; [|done]. cbn [from_option Datatypes.id].
  by rewrite Hinc.
Qed.

(** X21: the environment variable only adds.  With the effective list of
    [resolveEffectiveAllowedOrigins] as the allowlist the answer is the one
    for the configured origins followed by the origins of the variable, and
    whatever the configured origins alone accept is still accepted. *)
Theorem effective_allowlist_only_widens (requestHost origin : option string)
    (configOrigins : option (list string)) (envRaw : option string) :
  checkBrowserOrigin pf requestHost origin (Some (resolveEffectiveAllowedOrigins configOrigins envRaw)) =
    checkBrowserOrigin pf requestHost origin (Some (default [] configOrigins ++ envOrigins envRaw)) ∧
  (checkBrowserOrigin pf requestHost origin configOrigins = OriginOk →
   checkBrowserOrigin pf requestHost origin (Some (resolveEffectiveAllowedOrigins configOrigins envRaw)) =
     OriginOk).
Proof.
  assert (∀ x, x ∈ resolveEffectiveAllowedOrigins configOrigins envRaw ↔
               x ∈ default [] configOrigins ++ envOrigins envRaw) as Hmem.
  { intros x. unfold resolveEffectiveAllowedOrigins, Set_elements.
    rewrite foldl_Set_add_spec, elem_of_nil. tauto. }
  assert (checkBrowserOrigin pf requestHost origin (Some (resolveEffectiveAllowedOrigins configOrigins envRaw)) =
          checkBrowserOrigin pf requestHost origin (Some (default [] configOrigins ++ envOrigins envRaw))) as Heq.
  { unfold checkBrowserOrigin.
    destruct (parseOrigin pf origin) as [p|]; [|done]. cbn [from_option Datatypes.id].
    assert (∀ l l', (∀ x, x ∈ l ↔ x ∈ l') → ∀ y,
              includes (List.filter nonempty (map (λ value, toLowerCase pf (trim value)) l)) y
              = includes (List.filter nonempty (map (λ value, toLowerCase pf (trim value)) l')) y)
      as Hinc.
    { intros l l' Hl y. apply eq_true_iff_eq.
      split; apply allowlist_mono, map_trim_sub; intros x; apply Hl. }
    by rewrite (Hinc _ _ Hmem). }
  split; [done|]. rewrite Heq. intros Hok.
  destruct configOrigins as [allowed|]; [|rewrite check_none in Hok];
    revert Hok; apply check_mono, map_trim_sub; intros x Hx; cbn [from_option Datatypes.id];
    rewrite elem_of_app; by left.
Qed.

End OriginCheckFacts.

Lemma allowlist_only_widens_witness :
  checkBrowserOrigin example_platform (Some "gateway.example.com:18789") (Some "https://control.example.com")
    (Some ["https://other.example.com"; " https://control.example.com "]) = OriginOk.
Proof.
  apply (allowlist_only_widens example_platform
           (Some "gateway.example.com:18789") (Some "https://control.example.com")
           (Some [" https://control.example.com "])).
  - intros x Hx. cbn [from_option Datatypes.id] in Hx. apply list_elem_of_singleton in Hx. subst x.
    apply list_elem_of_In. right. by left.
  - by vm_compute.
Defined.

Lemma allowlist_is_a_set_of_trimmed_entries_witness :
  checkBrowserOrigin example_platform None (Some "https://control.example.com")
    (Some [" https://control.example.com"; "https://other.example.com "]) =
  checkBrowserOrigin example_platform None (Some "https://control.example.com")
    (Some ["https://other.example.com"; "https://control.example.com ";
           "https://other.example.com"]).
Proof.
  apply (allowlist_is_a_set_of_trimmed_entries example_platform).
  intros t. rewrite !list_elem_of_In. vm_compute. tauto.
Defined.

Lemma effective_allowlist_only_widens_witness :
  checkBrowserOrigin example_platform None (Some "https://control.example.com")
    (Some (resolveEffectiveAllowedOrigins (Some ["https://control.example.com"])
             (Some "https://other.example.com"))) = OriginOk.
Proof.
  apply (proj2 (effective_allowlist_only_widens example_platform None (Some "https://control.example.com")
                  (Some ["https://control.example.com"]) (Some "https://other.example.com"))).
  by vm_compute.
Defined.

(** * Channel pairing *)

Section PairingFacts.

Import Pairing.

Context {Requests Cfg : Type}.
Implicit Types (env : Env Requests Cfg) (params : gmap string JsValue).

Lemma resolve_channel_Some env (rawChannel : JsValue) (channelId : string) :
  resolve_channel env rawChannel = Some channelId →
  channelId ≠ "" ∧ ∃ s, rawChannel = JString s ∧ normalizeChannelId env s = Some channelId.
Proof.
  unfold resolve_channel. destruct rawChannel as [| | | |s|]; try done. cbn [typeof_string].
  destruct (normalizeChannelId env s) as [c|] eqn:Hn; [|done].
  destruct (nonempty c) eqn:Hc; [|done]. intros [= <-].
  split; [by apply nonempty_true|]. by exists s.
Qed.

Lemma approve_code_trimmed (rawCode : JsValue) :
  let code := match typeof_string rawCode with Some s => trim s | None => "" end in
  nonempty code = true → ∃ raw, rawCode = JString raw ∧ code = trim raw.
Proof. destruct rawCode as [| | | |s|]; try done. intros code _. by exists s. Qed.

(** X22: a pairing handler answers once.  In a run of
    [channel.pairing.list] or [channel.pairing.approve] that returns, the
    last call is the only reply; in a run that fails there is none. *)
Theorem pairing_handlers_reply_once env params :
  let answered (run : Run Requests Cfg) :=
    match run.2 with
    | None => ∃ calls reply, run.1 = calls ++ [CRespond reply] ∧ replies calls = []
    | Some _ => replies run.1 = []
    end in
  answered (channel_pairing_list env params) ∧
  answered (channel_pairing_approve env params).
Proof.
  cbv zeta. split.
  - unfold channel_pairing_list.
    destruct (resolve_channel env (get params "channel")) as [c|];
      [|by exists [], (ReplyError INVALID_REQUEST "channel required")].
    destruct (includes (listPairingChannels env) c); cbn [negb];
      [|by eexists [], _].
    destruct (listChannelPairingRequests env c) as [requests|err]; [|done].
    by exists [CListRequests c], (ReplyList c requests).
  - unfold channel_pairing_approve.
    destruct (resolve_channel env (get params "channel")) as [c|];
      [|by exists [], (ReplyError INVALID_REQUEST "channel required")].
    destruct (nonempty _); cbn [negb]; [|by eexists [], _].
    destruct (approveChannelPairingCode env c _) as [[id|]|err]; [| |done].
    + destruct (strict_eq_true _).
      * destruct (loadConfig env) as [cfg|err]; [|done].
        by eexists [_; _; _], _.
      * by eexists [_], _.
    + by eexists [_], _.
Qed.

(** X23: [channel.pairing.list] asks the store only about a channel that
    supports pairing.  The store is queried at most for the normalised,
    non-empty id of a channel given as a string and listed by
    [listPairingChannels]; a run that does not query it consists of one
    INVALID_REQUEST reply. *)
Theorem pairing_list_guards_the_store env params :
  let calls := (channel_pairing_list env params).1 in
  (∀ channelId, CListRequests channelId ∈ calls →
     channelId ≠ "" ∧ channelId ∈ listPairingChannels env ∧
     ∃ s, get params "channel" = JString s ∧ normalizeChannelId env s = Some channelId) ∧
  (store_calls calls = [] →
     ∃ message, channel_pairing_list env params =
                  ([CRespond (ReplyError INVALID_REQUEST message)], None)).
Proof.
  cbv zeta. unfold channel_pairing_list.
  destruct (resolve_channel env (get params "channel")) as [c|] eqn:Hc.
  - apply resolve_channel_Some in Hc as [Hne Hs].
    destruct (includes (listPairingChannels env) c) eqn:Hin; cbn [negb].
    + apply includes_In in Hin.
      destruct (listChannelPairingRequests env c) as [requests|err]; cbn [fst].
      * split; [|done]. intros x Hx. apply list_elem_of_In in Hx as [[= <-]|[[=]|[]]]. done.
      * split; [|done]. intros x Hx. apply list_elem_of_In in Hx as [[= <-]|[]]. done.
    + split; [|by eexists]. intros x Hx. by apply list_elem_of_In in Hx as [[=]|[]].
  - split; [|by eexists]. intros x Hx. by apply list_elem_of_In in Hx as [[=]|[]].
Qed.

(** X24: [channel.pairing.approve] hands the code to the store trimmed.
    Whatever reaches [approveChannelPairingCode] is the non-empty trimmed
    form of a code given as a string, for the non-empty normalised id of a
    channel given as a string; and the handler, unlike
    [channel.pairing.list], does not depend on [listPairingChannels]. *)
Theorem pairing_approve_guards_the_store env params :
  (∀ channelId code, CApprove channelId code ∈ (channel_pairing_approve env params).1 →
     (channelId ≠ "" ∧
      ∃ s, get params "channel" = JString s ∧ normalizeChannelId env s = Some channelId) ∧
     (code ≠ "" ∧ trim code = code ∧
      ∃ raw, get params "code" = JString raw ∧ code = trim raw)) ∧
  (∀ channels,
     channel_pairing_approve
       (mkEnv (normalizeChannelId env) channels (listChannelPairingRequests env)
              (approveChannelPairingCode env) (loadConfig env) (notifyPairingApproved env))
       params = channel_pairing_approve env params).
Proof.
  split; [|done]. intros channelId code. unfold channel_pairing_approve.
  destruct (resolve_channel env (get params "channel")) as [c|] eqn:Hc.
  2: { intros Hx. by apply list_elem_of_In in Hx as [[=]|[]]. }
  apply resolve_channel_Some in Hc.
  destruct (nonempty _) eqn:Hcode; cbn [negb].
  2: { intros Hx. by apply list_elem_of_In in Hx as [[=]|[]]. }
  pose proof Hcode as Hne. apply nonempty_true in Hne.
  apply approve_code_trimmed in Hcode as (raw & Hraw & Heq).
  assert (∀ rest : list (Call Requests Cfg),
            (∀ c' code', CApprove c' code' ∉ rest) →
            CApprove channelId code ∈
              CApprove c (match typeof_string (get params "code") with
                          | Some s => trim s | None => "" end) :: rest →
            (channelId ≠ "" ∧ ∃ s, get params "channel" = JString s ∧
                                   normalizeChannelId env s = Some channelId) ∧
            code ≠ "" ∧ trim code = code ∧
            ∃ raw, get params "code" = JString raw ∧ code = trim raw) as Hcase.
  { intros rest Hrest Hx. apply elem_of_cons in Hx as [[= -> ->]|Hx]; [|by apply Hrest in Hx].
    split; [done|]. split; [done|]. split; [|by exists raw].
    rewrite Heq. apply trim_idempotent. }
  assert (∀ (c' code' : string) (l : list (Call Requests Cfg)),
            Forall (λ x, match x with CApprove _ _ => False | _ => True end) l →
            CApprove c' code' ∉ l) as Hno.
  { intros c' code' l Hl Hx. rewrite Forall_forall in Hl. by apply Hl in Hx. }
  destruct (approveChannelPairingCode env c _) as [[id|]|err].
  - destruct (strict_eq_true _).
    + destruct (loadConfig env) as [cfg|err]; cbn [fst]; apply Hcase; intros c' code';
        apply Hno; repeat constructor.
    + cbn [fst]. apply Hcase. intros c' code'. apply Hno. repeat constructor.
  - cbn [fst]. apply Hcase. intros c' code'. apply Hno. repeat constructor.
  - cbn [fst]. apply Hcase. intros c' code'. apply Hno. repeat constructor.
Qed.

(** X25: the notification is opt-in and best effort.  A run of
    [channel.pairing.approve] notifies only when [notify] is the boolean
    [true] (no other value counts) and the approval went through; and
    whether the notification is delivered or fails changes neither the
    replies nor the outcome of the run. *)
Theorem pairing_notification_is_best_effort env params
    (notify' : string → string → Cfg → Outcome unit) :
  let run := channel_pairing_approve env params in
  let run' :=
    channel_pairing_approve
      (mkEnv (normalizeChannelId env) (listPairingChannels env)
             (listChannelPairingRequests env) (approveChannelPairingCode env)
             (loadConfig env) notify') params in
  (notifications run.1 ≠ [] →
     get params "notify" = JBool true ∧
     ∃ channelId id, replies run.1 = [ReplyApproved channelId id]) ∧
  replies run'.1 = replies run.1 ∧ run'.2 = run.2.
Proof.
  cbv zeta. unfold channel_pairing_approve. cbn [normalizeChannelId listPairingChannels
    listChannelPairingRequests approveChannelPairingCode loadConfig notifyPairingApproved].
  assert (resolve_channel
            (mkEnv (normalizeChannelId env) (listPairingChannels env)
                   (listChannelPairingRequests env) (approveChannelPairingCode env)
                   (loadConfig env) notify') (get params "channel")
          = resolve_channel env (get params "channel")) as -> by done.
  destruct (resolve_channel env (get params "channel")) as [c|]; [|done].
  destruct (nonempty _); cbn [negb]; [|done].
  destruct (approveChannelPairingCode env c _) as [[id|]|err]; [|done|done].
  destruct (strict_eq_true (get params "notify")) eqn:Hn; [|done].
  destruct (loadConfig env) as [cfg|err]; [|done].
  split; [|done]. intros _. split; [|by eexists _, _].
  unfold strict_eq_true in Hn. by destruct (get params "notify") as [| |[]| | |].
Qed.

(** X26: where a failure of [channel.pairing.approve] comes from.  When the
    run fails, the error is the store's, or it is the one [loadConfig]
    threw; in the second case the notification was asked for and the code
    has already been approved, and in neither case was a notification
    attempted. *)
Theorem pairing_approve_failures env params (err : string) :
  let run := channel_pairing_approve env params in
  run.2 = Some err →
  notifications run.1 = [] ∧
  ((∃ channelId code, run.1 = [CApprove channelId code] ∧
                      approveChannelPairingCode env channelId code = Rejected err) ∨
   (∃ channelId code id, run.1 = [CApprove channelId code; CLoadConfig] ∧
                         approveChannelPairingCode env channelId code = Resolved (Some id) ∧
                         loadConfig env = Rejected err ∧
                         get params "notify" = JBool true)).
Proof.
  cbv zeta. unfold channel_pairing_approve.
  destruct (resolve_channel env (get params "channel")) as [c|]; [|done].
  destruct (nonempty _); cbn [negb]; [|done].
  destruct (approveChannelPairingCode env c _) as [[id|]|e] eqn:Ha; [|done|].
  - destruct (strict_eq_true (get params "notify")) eqn:Hn; [|done].
    destruct (loadConfig env) as [cfg|e] eqn:Hl; [done|]. intros [= ->].
    split; [done|]. right. eexists _, _, _. split; [done|]. split; [done|]. split; [done|].
    unfold strict_eq_true in Hn. by destruct (get params "notify") as [| |[]| | |].
  - intros [= ->]. split; [done|]. left. by eexists _, _.
Qed.

End PairingFacts.

Section PairingExamples.

Import Pairing.

Lemma pairing_list_guards_the_store_witness :
  ∃ message,
    channel_pairing_list
      (example_env (Resolved None) (Resolved tt) (Resolved tt))
      {[ "channel" := JString "webchat" ]} =
    ([CRespond (ReplyError INVALID_REQUEST message)], None).
Proof.
  apply (proj2 (pairing_list_guards_the_store
                  (example_env (Resolved None) (Resolved tt) (Resolved tt))
                  {[ "channel" := JString "webchat" ]})).
  by vm_compute.
Defined.

Lemma pairing_approve_guards_the_store_witness :
  trim "K7QX" = "K7QX".
Proof.
  apply (proj1 (pairing_approve_guards_the_store
                  (example_env (Resolved (Some "user-1")) (Resolved tt) (Resolved tt))
                  {[ "channel" := JString "telegram"; "code" := JString "  K7QX " ]})
               "telegram" "K7QX").
  apply list_elem_of_In. vm_compute. by left.
Defined.

Lemma pairing_notification_is_best_effort_witness :
  get ({[ "channel" := JString "telegram"; "code" := JString "K7QX";
          "notify" := JBool true ]} : gmap string JsValue) "notify" = JBool true.
Proof.
  apply (proj1 (pairing_notification_is_best_effort
                  (example_env (Resolved (Some "user-1")) (Resolved tt) (Rejected "offline"))
                  {[ "channel" := JString "telegram"; "code" := JString "K7QX";
                     "notify" := JBool true ]}
                  (λ _ _ _, Resolved tt))).
  by vm_compute.
Defined.

Lemma pairing_approve_failures_witness :
  notifications
    (channel_pairing_approve
       (example_env (Resolved (Some "user-1")) (Rejected "config unreadable") (Resolved tt))
       {[ "channel" := JString "telegram"; "code" := JString "K7QX";
          "notify" := JBool true ]}).1 = [].
Proof.
  refine (proj1 (pairing_approve_failures
                   (example_env (Resolved (Some "user-1")) (Rejected "config unreadable")
                                (Resolved tt))
                   {[ "channel" := JString "telegram"; "code" := JString "K7QX";
                      "notify" := JBool true ]} "config unreadable" _)).
  by vm_compute.
Defined.

End PairingExamples.

(** * Doctor *)

Section DoctorFacts.

Import Doctor.

Lemma present_not_empty (text : option string) : present text ≠ Some "".
Proof.
  destruct text as [s|]; [|done]. cbn. destruct (nonempty s) eqn:H; [|done].
  apply nonempty_true in H. by intros [= ->].
Qed.

Lemma present_Some (text : option string) (s : string) :
  present text = Some s ↔ text = Some s ∧ s ≠ "".
Proof.
  destruct text as [t|]; cbn; [|by split; [|intros []]].
  destruct (nonempty t) eqn:H.
  - apply nonempty_true in H. split; [by intros [= ->]|by intros [[= ->] _]].
  - split; [done|]. intros [[= ->] Hs]. apply nonempty_true in Hs. congruence.
Qed.

(** The nine checks, each with its name and the statuses it can take. *)
Lemma gateway_mode_check_spec (cfg : Config) :
  name (gateway_mode_check cfg) = "gateway-mode" ∧
  detail (gateway_mode_check cfg) = None ∧
  (status (gateway_mode_check cfg) = pass ∧ (∃ m, gateway_mode cfg = Some m ∧ m ≠ "") ∨
   status (gateway_mode_check cfg) = fail ∧ ¬ (∃ m, gateway_mode cfg = Some m ∧ m ≠ "")).
Proof.
  unfold gateway_mode_check. destruct (present (gateway_mode cfg)) as [m|] eqn:H.
  - apply present_Some in H. split; [done|]. split; [done|]. left. split; [done|]. by exists m.
  - split; [done|]. split; [done|]. right. split; [done|]. intros (m & Hm & Hne).
    assert (present (gateway_mode cfg) = Some m) by by apply present_Some. congruence.
Qed.

Lemma gateway_auth_check_spec (env : Env) (cfg : Config) :
  name (gateway_auth_check env cfg) = "gateway-auth" ∧
  match resolveGatewayAuth env cfg with
  | Resolved _ =>
      detail (gateway_auth_check env cfg) = None ∧
      (status (gateway_auth_check env cfg) = pass ∨ status (gateway_auth_check env cfg) = warn)
  | Rejected _ => status (gateway_auth_check env cfg) = fail
  end.
Proof.
  unfold gateway_auth_check. destruct (resolveGatewayAuth env cfg) as [auth|err]; [|done].
  destruct (_ || _); split; try done; split; try done; first [by left|by right].
Qed.

Lemma state_dir_check_spec (env : Env) :
  name (state_dir_check env) = "state-dir" ∧
  detail (state_dir_check env) = None ∧
  if existsDir (fs env) (resolveStateDir env)
  then status (state_dir_check env) = pass ∨ status (state_dir_check env) = warn
  else status (state_dir_check env) = fail.
Proof.
  unfold state_dir_check. destruct (existsDir _ _); cbn [negb]; [|done].
  destruct (canWriteDir _ _); cbn [negb]; split; try done; split; try done; first [by left|by right].
Qed.

Lemma land_63 (m : Z) : Z.land m 63 = 0 ↔ ∀ i, 0 <= i < 6 → Z.testbit m i = false.
Proof.
  change 63 with (Z.ones 6). split.
  - intros H i Hi. assert (Z.testbit (Z.land m (Z.ones 6)) i = false) as Hb
      by (rewrite H; apply Z.bits_0).
    rewrite Z.land_spec, Z.ones_spec_low in Hb by lia. by rewrite andb_true_r in Hb.
  - intros H. apply Z.bits_inj'. intros i Hi. rewrite Z.land_spec, Z.bits_0.
    destruct (Z.lt_ge_cases i 6) as [Hlt|Hge].
    + rewrite H by lia. done.
    + rewrite Z.ones_spec_high by lia. apply andb_false_r.
Qed.

Lemma state_permissions_check_spec (env : Env) :
  name (state_permissions_check env) = "state-permissions" ∧
  detail (state_permissions_check env) = None ∧
  status (state_permissions_check env) =
    if String.eqb (platform env) "win32" then skip
    else match statSync (fs env) (resolveStateDir env) with
         | Some stat => if (Z.land (mode stat) 63 =? 0)%Z then pass else warn
         | None => skip
         end.
Proof.
  unfold state_permissions_check. destruct (String.eqb _ _); cbn [negb]; [done|].
  destruct (statSync _ _) as [stat|]; [|done]. by destruct (Z.land _ _ =? 0)%Z.
Qed.

Lemma session_store_check_spec (env : Env) (cfg : Config) :
  name (session_store_check env cfg) = "session-store" ∧
  detail (session_store_check env cfg) = None ∧
  (status (session_store_check env cfg) = pass ∨ status (session_store_check env cfg) = warn).
Proof.
  unfold session_store_check. destruct (existsSync _ _); split; try done; split; try done;
    first [by left|by right].
Qed.

Lemma channels_check_spec (env : Env) :
  name (channels_check env) = "channels" ∧
  match refreshHealthSnapshot env with
  | Resolved _ => detail (channels_check env) = None ∧ status (channels_check env) = pass
  | Rejected _ => status (channels_check env) = fail
  end.
Proof. unfold channels_check. by destruct (refreshHealthSnapshot env). Qed.

Lemma hooks_check_spec (cfg : Config) :
  name (hooks_check cfg) = "hooks" ∧ detail (hooks_check cfg) = None ∧
  (status (hooks_check cfg) = pass ∨ status (hooks_check cfg) = skip).
Proof.
  unfold hooks_check. destruct (hooks cfg) as [[|k ks]|]; split; try done; split; try done;
    first [by left|by right].
Qed.

Lemma workspace_check_spec (env : Env) (cfg : Config) :
  name (workspace_check env cfg) = "workspace" ∧ detail (workspace_check env cfg) = None ∧
  (status (workspace_check env cfg) = pass ∨ status (workspace_check env cfg) = warn).
Proof.
  unfold workspace_check. destruct (existsDir _ _); [destruct (canWriteDir _ _)|];
    split; try done; split; try done; first [by left|by right].
Qed.

Lemma memory_plugin_check_spec (cfg : Config) :
  name (memory_plugin_check cfg) = "memory-plugin" ∧ detail (memory_plugin_check cfg) = None ∧
  (status (memory_plugin_check cfg) = pass ∨ status (memory_plugin_check cfg) = skip).
Proof.
  unfold memory_plugin_check. destruct (memory_enabled cfg) as [[]|]; split; try done;
    split; try done; first [by left|by right].
Qed.

Lemma check_texts (n : string) (s : CheckStatus) (m d : option string) :
  message (check n s m d) ≠ Some "" ∧ detail (check n s m d) ≠ Some "".
Proof. split; apply present_not_empty. Qed.

(** X27: the report always has the same entries.  When the configuration
    loads, [doctor.run] reports the nine checks, once each and in the same
    order, whatever their results; when it does not, the report is the
    single failed check "config" and is not ok. *)
Theorem doctor_report_entries (env : Env) :
  match loadConfig env with
  | Resolved _ =>
      name <$> checks (doctor_run env) =
        ["gateway-mode"; "gateway-auth"; "state-dir"; "state-permissions"; "session-store";
         "channels"; "hooks"; "workspace"; "memory-plugin"]
  | Rejected err =>
      doctor_run env =
        mkReport false [mkCheck "config" fail (Some "Failed to load config") (present (Some err))]
  end.
Proof.
  unfold doctor_run. destruct (loadConfig env) as [cfg|err]; [|done].
  cbn [checks fmap list_fmap].
  destruct (gateway_mode_check_spec cfg) as [-> _].
  destruct (gateway_auth_check_spec env cfg) as [-> _].
  destruct (state_dir_check_spec env) as [-> _].
  destruct (state_permissions_check_spec env) as [-> _].
  destruct (session_store_check_spec env cfg) as [-> _].
  destruct (channels_check_spec env) as [-> _].
  destruct (hooks_check_spec cfg) as [-> _].
  destruct (workspace_check_spec env cfg) as [-> _].
  by destruct (memory_plugin_check_spec cfg) as [-> _].
Qed.

(** X28: what makes a report not ok.  The report is ok exactly when the
    configuration loads, [gateway.mode] is a non-empty string, the
    authentication resolves, the state directory exists and the health
    snapshot is obtained.  Credentials, permissions, the session store, the
    workspace, hooks and the memory plugin never make it fail. *)
Theorem doctor_ok_iff (env : Env) :
  ok (doctor_run env) = true ↔
  ∃ cfg, loadConfig env = Resolved cfg ∧
         (∃ m, gateway_mode cfg = Some m ∧ m ≠ "") ∧
         (∃ auth, resolveGatewayAuth env cfg = Resolved auth) ∧
         existsDir (fs env) (resolveStateDir env) = true ∧
         (∃ snap, refreshHealthSnapshot env = Resolved snap).
Proof.
  unfold doctor_run. destruct (loadConfig env) as [cfg|err]; cbn [ok].
  2: { split; [done|]. by intros (cfg & [=] & _). }
  unfold no_failure. cbn [forallb].
  destruct (gateway_mode_check_spec cfg) as (_ & _ & Hm).
  pose proof (gateway_auth_check_spec env cfg) as [_ Ha].
  pose proof (state_dir_check_spec env) as (_ & _ & Hs).
  pose proof (state_permissions_check_spec env) as (_ & _ & Hp).
  destruct (session_store_check_spec env cfg) as (_ & _ & Hss).
  pose proof (channels_check_spec env) as [_ Hc].
  destruct (hooks_check_spec cfg) as (_ & _ & Hh).
  destruct (workspace_check_spec env cfg) as (_ & _ & Hw).
  destruct (memory_plugin_check_spec cfg) as (_ & _ & Hmem).
  assert (match status (state_permissions_check env) with fail => false | _ => true end = true)
    as ->.
  { rewrite Hp. destruct (String.eqb _ _); [done|].
    destruct (statSync _ _) as [stat|]; [|done]. by destruct (Z.land _ _ =? 0)%Z. }
  assert (match status (session_store_check env cfg) with fail => false | _ => true end = true)
    as -> by (by destruct Hss as [-> | ->]).
  assert (match status (hooks_check cfg) with fail => false | _ => true end = true)
    as -> by (by destruct Hh as [-> | ->]).
  assert (match status (workspace_check env cfg) with fail => false | _ => true end = true)
    as -> by (by destruct Hw as [-> | ->]).
  assert (match status (memory_plugin_check cfg) with fail => false | _ => true end = true)
    as -> by (by destruct Hmem as [-> | ->]).
  cbn [andb]. rewrite !andb_true_r.
  destruct Hm as [[-> Hm]|[-> Hm]]; cbn [andb].
  2: { split; [done|]. intros (cfg' & [= <-] & Hm' & _). by destruct Hm. }
  destruct (resolveGatewayAuth env cfg) as [auth|err] eqn:Hauth.
  2: { rewrite Ha. cbn [andb]. split; [done|].
       intros (cfg' & [= <-] & _ & [auth' ?] & _). congruence. }
  assert (match status (gateway_auth_check env cfg) with fail => false | _ => true end = true)
    as -> by (by destruct Ha as [_ [-> | ->]]).
  cbn [andb].
  destruct (existsDir (fs env) (resolveStateDir env)) eqn:Hex.
  2: { rewrite Hs. cbn [andb]. split; [done|].
       intros (cfg' & _ & _ & _ & ? & _). congruence. }
  assert (match status (state_dir_check env) with fail => false | _ => true end = true)
    as -> by (by destruct Hs as [-> | ->]).
  cbn [andb].
  destruct (refreshHealthSnapshot env) as [snap|err] eqn:Hsnap.
  - destruct Hc as [_ ->]. split; [|done]. intros _. exists cfg.
    split; [done|]. split; [done|]. split; [by exists auth|]. split; [done|]. by exists snap.
  - rewrite Hc. split; [done|]. intros (cfg' & _ & _ & _ & _ & [snap ?]). congruence.
Qed.

(** X29: the permission check reads the six group and other bits.  When
    the configuration loads, the check "state-permissions" passes exactly
    when the platform is not win32, the state directory can be stat'ed and
    none of the six low bits of its mode is set; it warns when one of them
    is set, is skipped otherwise, and never fails. *)
Theorem doctor_permission_bits (env : Env) (cfg : Config) :
  loadConfig env = Resolved cfg →
  ∃ c, find_check "state-permissions" (doctor_run env) = Some c ∧
       status c ≠ fail ∧
       (status c = pass ↔
          platform env ≠ "win32" ∧
          ∃ stat, statSync (fs env) (resolveStateDir env) = Some stat ∧
                  ∀ i, 0 <= i < 6 → Z.testbit (mode stat) i = false) ∧
       (status c = warn ↔
          platform env ≠ "win32" ∧
          ∃ stat, statSync (fs env) (resolveStateDir env) = Some stat ∧
                  ¬ ∀ i, 0 <= i < 6 → Z.testbit (mode stat) i = false).
Proof.
  intros Hcfg. exists (state_permissions_check env). split.
  - unfold find_check, doctor_run. rewrite Hcfg. cbn [checks List.find].
    destruct (gateway_mode_check_spec cfg) as [-> _].
    destruct (gateway_auth_check_spec env cfg) as [-> _].
    destruct (state_dir_check_spec env) as [-> _].
    by destruct (state_permissions_check_spec env) as [-> _].
  - destruct (state_permissions_check_spec env) as (_ & _ & ->).
    destruct (String.eqb_spec (platform env) "win32") as [Hw|Hw].
    { split; [done|]. split; (split; [done|by intros [? _]]). }
    destruct (statSync (fs env) (resolveStateDir env)) as [stat|].
    2: { split; [done|]. split; (split; [done|by intros (_ & ? & ? & _)]). }
    destruct (Z.eqb_spec (Z.land (mode stat) 63) 0) as [Hb|Hb]; rewrite land_63 in Hb.
    + split; [done|]. split; split; try done.
      * intros _. split; [done|]. by exists stat.
      * intros (_ & stat' & [= <-] & Hn). by destruct Hn.
    + split; [done|]. split; split; try done.
      * intros (_ & stat' & [= <-] & Hn). by destruct Hb.
      * intros _. split; [done|]. by exists stat.
Qed.

(** X30: the texts of a report.  No check of a report carries an empty
    message or an empty detail, and only a failed check carries a
    detail. *)
Theorem doctor_report_texts (env : Env) (c : DoctorCheck) :
  c ∈ checks (doctor_run env) →
  message c ≠ Some "" ∧ detail c ≠ Some "" ∧ (is_Some (detail c) → status c = fail).
Proof.
  assert (∀ c', (detail c' = None ∨ status c' = fail) →
                is_Some (detail c') → status c' = fail) as Hd.
  { intros c' [-> | ->] H; [by destruct H|done]. }
  assert (∀ c', (∃ n s m d, c' = check n s m d) →
                message c' ≠ Some "" ∧ detail c' ≠ Some "") as Ht.
  { intros c' (n & s & m & d & ->). apply check_texts. }
  assert (∀ c', ((∃ n s m d, c' = check n s m d) ∧ (detail c' = None ∨ status c' = fail)) →
                message c' ≠ Some "" ∧ detail c' ≠ Some "" ∧
                (is_Some (detail c') → status c' = fail)) as Hall.
  { intros c' [H1 H2]. destruct (Ht c' H1). split; [done|]. split; [done|]. by apply Hd. }
  unfold doctor_run. destruct (loadConfig env) as [cfg|err]; cbn [checks].
  2: { intros ->%list_elem_of_singleton. apply Hall. split; [by eexists _, _, _, _|by right]. }
  rewrite !elem_of_cons, elem_of_nil.
  intros [->|[->|[->|[->|[->|[->|[->|[->|[->|[]]]]]]]]]]; apply Hall.
  - split; [|left; apply gateway_mode_check_spec].
    unfold gateway_mode_check. destruct (present _); by eexists _, _, _, _.
  - split.
    + unfold gateway_auth_check. destruct (resolveGatewayAuth env cfg); [destruct (_ || _)|];
        by eexists _, _, _, _.
    + pose proof (gateway_auth_check_spec env cfg) as [_ H].
      destruct (resolveGatewayAuth env cfg); [left; apply H|by right].
  - split; [|left; apply state_dir_check_spec].
    unfold state_dir_check. destruct (negb _); [|destruct (negb _)]; by eexists _, _, _, _.
  - split; [|left; apply state_permissions_check_spec].
    unfold state_permissions_check.
    destruct (negb _); [destruct (statSync _ _); [destruct (negb _)|]|]; by eexists _, _, _, _.
  - split; [|left; apply session_store_check_spec].
    unfold session_store_check. destruct (existsSync _ _); by eexists _, _, _, _.
  - split.
    + unfold channels_check. destruct (refreshHealthSnapshot env); by eexists _, _, _, _.
    + pose proof (channels_check_spec env) as [_ H].
      destruct (refreshHealthSnapshot env); [left; apply H|by right].
  - split; [|left; apply hooks_check_spec].
    unfold hooks_check. destruct (hooks cfg) as [[|k ks]|]; by eexists _, _, _, _.
  - split; [|left; apply workspace_check_spec].
    unfold workspace_check. destruct (existsDir _ _); [destruct (canWriteDir _ _)|];
      by eexists _, _, _, _.
  - split; [|left; apply memory_plugin_check_spec].
    unfold memory_plugin_check. destruct (memory_enabled cfg) as [[]|]; by eexists _, _, _, _.
Qed.

Lemma doctor_permission_bits_witness :
  ∃ c, find_check "state-permissions"
         (doctor_run (example_env (Resolved (mkConfig (Some "local") None None)) 493 "linux"))
       = Some c ∧ status c ≠ fail.
Proof.
  destruct (doctor_permission_bits
              (example_env (Resolved (mkConfig (Some "local") None None)) 493 "linux")
              (mkConfig (Some "local") None None) eq_refl) as (c & Hc & Hf & _).
  by exists c.
Defined.

Lemma doctor_report_texts_witness :
  message (mkCheck "config" fail (Some "Failed to load config") (Some "Error: bad json"))
    ≠ Some "" ∧
  detail (mkCheck "config" fail (Some "Failed to load config") (Some "Error: bad json"))
    ≠ Some "" ∧
  (is_Some (detail (mkCheck "config" fail (Some "Failed to load config")
                            (Some "Error: bad json"))) →
   status (mkCheck "config" fail (Some "Failed to load config") (Some "Error: bad json"))
     = fail).
Proof.
  apply (doctor_report_texts (example_env (Rejected "Error: bad json") 448 "linux")).
  apply list_elem_of_In. vm_compute. by left.
Defined.

End DoctorFacts.
